(** * Keep Starting Gear: the snapshot restoration engine

    A shallow embedding of [src/Models.ts], [src/SnapshotRestorer.ts],
    the constants and the configuration loader of [src/Constants.js] and
    the raid-end handlers of [src/mod.js], and the properties of the
    restoration engine stated over it.

    Conventions of the embedding.
    - A JavaScript [Set<string>] is a [gset string] and a
      [Map<string, V>] a [gmap string V]; only membership and lookup are
      ever used by the engine (iteration order is used for debug output
      only).
    - An array is a [list]; the in-place rewrites of the engine
      ([items.length = n], [items.push]) become list-passing.
    - A JavaScript number is carried as an integer: the engine copies
      numbers and compares small integers, it never computes on fractions.
    - Objects and arrays inside a state blob ([upd]) carry the location
      they were allocated at, so that two references to one object can be
      told from two equal objects.
    - Debug-level logging ([logDebug], gated by [verboseLogging]) has no
      influence on control flow and is left out; warnings and errors are
      kept as events.
    - The text of the snapshot file is a JavaScript string in full, a
      sequence of UTF-16 code units: the engine looks at its length and
      at what follows its leading white space, and [trim] is modelled on
      every code unit.
    - Every other string (an id, a slot name, a version) is the sequence
      of its characters, one byte each: the characters below U+0100, on
      which [toLowerCase] and the white space of [parseInt] are modelled.
      The properties that depend on letter case are stated for ASCII
      slot names.
    - The fields of a snapshot and of a profile record that
      [validateSnapshot] does not inspect are read through the declared
      interfaces: a [slotId] is a string or absent, [includedSlots] a
      list of strings or absent, and so on.
    - A number of [config.json] is a rational, an infinity or [NaN]:
      [loadConfig] only compares and clamps it. *)

From Stdlib Require Import ZArith String Ascii List Bool Lia.
From Stdlib Require QArith Qminmax.
From stdpp Require Import gmap strings list fin_maps fin_sets pretty.

Set Warnings "-register-all,-clear-no-such-hyp".
Local Open Scope string_scope.

(* ===================================================================== *)
(** * Part I. The program                                                 *)
(* ===================================================================== *)

(** ** JavaScript values and completions *)

Module Js.

Definition loc := nat.

(** A value as [JSON.parse] produces it (plus [undefined]); objects and
    arrays are labelled with their location. *)
Inductive JsValue :=
| JUndefined
| JNull
| JBool (b : bool)
| JNum (n : Z)
| JStr (s : string)
| JArr (l : loc) (elems : list JsValue)
| JObj (l : loc) (props : gmap string JsValue).

Inductive JsError :=
| TypeError (msg : string)
| SyntaxError (msg : string)
| Error (msg : string).

(** The outcome of evaluating an expression: a value or a thrown error. *)
Inductive Completion (A : Type) :=
| Normal (a : A)
| Throw (e : JsError).
Arguments Normal {A} a.
Arguments Throw {A} e.

(** Computations that may allocate objects and may throw. *)
Definition Alloc (A : Type) : Type := loc -> Completion A * loc.

Definition ret {A} (a : A) : Alloc A := fun n => (Normal a, n).
Definition throw {A} (e : JsError) : Alloc A := fun n => (Throw e, n).
Definition bind {A B} (m : Alloc A) (k : A -> Alloc B) : Alloc B :=
  fun n => match m n with
           | (Normal a, n') => k a n'
           | (Throw e, n') => (Throw e, n')
           end.
Definition lift {A} (c : Completion A) : Alloc A := fun n => (c, n).
(** [{}] and [[]]: a fresh location. *)
Definition fresh : Alloc loc := fun n => (Normal n, S n).

Fixpoint mapA {A B} (f : A -> Alloc B) (xs : list A) : Alloc (list B) :=
  match xs with
  | [] => ret []
  | x :: xs' => bind (f x) (fun y => bind (mapA f xs') (fun ys => ret (y :: ys)))
  end.

Definition isUndefined (v : JsValue) : bool :=
  match v with JUndefined => true | _ => false end.

(** Truthiness, as used by [if (x)] and [!x]. *)
Definition truthy (v : JsValue) : bool :=
  match v with
  | JUndefined | JNull => false
  | JBool b => b
  | JNum n => negb (n =? 0)%Z
  | JStr s => negb (String.eqb s "")
  | JArr _ _ | JObj _ _ => true
  end.

Definition isPrimitive (v : JsValue) : bool :=
  match v with
  | JArr _ _ | JObj _ _ => false
  | _ => true
  end.

(** [o.k] for a property name [k] that no prototype defines. *)
Definition getProp (o : JsValue) (k : string) : Completion JsValue :=
  match o with
  | JUndefined | JNull =>
      Throw (TypeError "Cannot read properties of null or undefined")
  | JObj _ props => Normal (default JUndefined (props !! k))
  | _ => Normal JUndefined
  end.

(** The characters of a string, each as a one-character string. *)
Fixpoint chars (s : string) : list JsValue :=
  match s with
  | EmptyString => []
  | String c s' => JStr (String c EmptyString) :: chars s'
  end.

(** The own enumerable properties of an array-like: index to element. *)
Definition indexed (xs : list JsValue) : gmap string JsValue :=
  list_to_map (imap (fun i x => (pretty i, x)) xs).

(** [[...v]]: [v] must be iterable. *)
Definition spreadArray (v : JsValue) : Alloc JsValue :=
  match v with
  | JArr _ xs => bind fresh (fun l => ret (JArr l xs))
  | JStr s => bind fresh (fun l => ret (JArr l (chars s)))
  | _ => throw (TypeError "value is not iterable")
  end.

(** [{...v}]: copies the own enumerable properties; never throws. *)
Definition spreadObject (v : JsValue) : Alloc JsValue :=
  bind fresh (fun l =>
    ret (JObj l match v with
                | JObj _ props => props
                | JArr _ xs => indexed xs
                | JStr s => indexed (chars s)
                | _ => ∅
                end)).

(** The value without its locations: two values are deep-equal when
    they agree up to locations ([gmap] equality is extensional, so the
    order of the keys plays no role). *)
Fixpoint erase (v : JsValue) : JsValue :=
  match v with
  | JArr _ xs => JArr 0 (erase <$> xs)
  | JObj _ m => JObj 0 (erase <$> m)
  | _ => v
  end.

Definition deepEqual (a b : JsValue) : Prop := erase a = erase b.

(** The locations of all objects and arrays reachable from a value. *)
Fixpoint locations (v : JsValue) : gset loc :=
  match v with
  | JArr l xs => {[l]} ∪ ⋃ (locations <$> xs)
  | JObj l m => {[l]} ∪ map_fold (fun _ x acc => locations x ∪ acc) ∅ m
  | _ => ∅
  end.

End Js.
Export Js.

Notation "'let*' x ':=' m 'in' k" := (bind m (fun x => k))
  (at level 10, x name, m at level 100, k at level 200).

(** ** Models.ts *)

Module Models.

(** *** RestoreResult *)

(** The failure messages of the engine, one constructor per message
    template of the source (the interpolated data as arguments). *)
Inductive ValidationError :=
| SnapshotNotObject            (* "Snapshot is null or not an object" *)
| ItemsNotArray                (* "Snapshot items is not an array" *)
| SnapshotEmpty                (* "Snapshot is empty" *)
| ItemNotObject (i : nat)      (* "Item at index i is not an object" *)
| ItemInvalidId (i : nat)      (* "Item at index i has invalid _id" *)
| ItemInvalidTpl (i : nat).    (* "Item at index i has invalid _tpl" *)

Inductive ErrorMessage :=
| InvalidSessionIdFormat       (* "Invalid session ID format" *)
| RateLimitExceeded            (* "Rate limit exceeded - please wait before retrying" *)
| InventoryNotArray            (* "Inventory items array is null or not an array" *)
| InvalidSnapshotPath          (* "Invalid snapshot path" *)
| NoSnapshotFileFound          (* "No snapshot file found" *)
| FileTooLarge (size max : Z)  (* "Snapshot file too large: size bytes (max: max)" *)
| CouldNotReadFileStats        (* "Could not read file stats" *)
| FailedToReadAfterRetries     (* "Failed to read snapshot file after retries" *)
| JsonParseError (e : JsError)            (* "JSON parse error: e.message" *)
| ValidationFailed (e : ValidationError)  (* validation.error *)
| VersionIncompatible          (* "Snapshot version is incompatible" *)
| NoEquipmentInProfile         (* "Could not find Equipment container in profile" *)
| RolledBack (e : JsError)     (* "Restoration failed, rolled back: e" *)
| UnexpectedError (e : JsError).          (* "Unexpected error: e" *)

Record RestoreResult := mkRestoreResult {
  success : bool;
  itemsAdded : nat;
  duplicatesSkipped : nat;
  nonManagedSkipped : nat;
  errorMessage : option ErrorMessage
  }.

(** [RestoreResultFactory.succeeded] *)
Definition succeeded (itemsAdded duplicatesSkipped nonManagedSkipped : nat)
  : RestoreResult :=
  {| success := true;
     itemsAdded := itemsAdded;
     duplicatesSkipped := duplicatesSkipped;
     nonManagedSkipped := nonManagedSkipped;
     errorMessage := None |}.

(** [RestoreResultFactory.failed] *)
Definition failed (errorMessage : ErrorMessage) : RestoreResult :=
  {| success := false;
     itemsAdded := 0;
     duplicatesSkipped := 0;
     nonManagedSkipped := 0;
     errorMessage := Some errorMessage |}.

(** *** Items *)

(** [ItemLocation | number]: a grid position or a cartridge index. *)
Inductive Location :=
| LocGrid (x y r : Z) (isSearched : option bool)
| LocIndex (n : Z).

(** [ProfileItem] and [SnapshotItem] have the same shape. An absent
    optional string is [None]; the state blob [upd] is kept as the raw
    value ([JUndefined] when absent), since it is cloned field by field
    at run time. *)
Record Item := mkItem {
  _id : string;
  _tpl : string;
  parentId : option string;
  slotId : option string;
  location : option Location;
  upd : JsValue
  }.

(** *** deepCloneItemUpd *)

(** [if (upd.k !== undefined) clone.k = upd.k;] *)
Definition copyValue (upd : JsValue) (k : string)
    (clone : gmap string JsValue) : Alloc (gmap string JsValue) :=
  let* v := lift (getProp upd k) in
  if isUndefined v then ret clone else ret (<[k := v]> clone).

(** [if (upd.k !== undefined) clone.k = { f1: upd.k.f1, ..., fn: upd.k.fn };] *)
Definition copyFields (upd : JsValue) (k : string) (fields : list string)
    (clone : gmap string JsValue) : Alloc (gmap string JsValue) :=
  let* v := lift (getProp upd k) in
  if isUndefined v then ret clone else
    let* l := fresh in
    let* vals := mapA (fun f => let* x := lift (getProp v f) in ret (f, x)) fields in
    ret (<[k := JObj l (list_to_map vals)]> clone).

(** The [Sight] case: the two arrays are spread into new arrays. *)
Definition copySight (upd : JsValue) (clone : gmap string JsValue)
    : Alloc (gmap string JsValue) :=
  let* v := lift (getProp upd "Sight") in
  if isUndefined v then ret clone else
    let* l := fresh in
    let* a := lift (getProp v "ScopesCurrentCalibPointIndexes") in
    let* a' := spreadArray a in
    let* b := lift (getProp v "ScopesSelectedModes") in
    let* b' := spreadArray b in
    let* c := lift (getProp v "SelectedScope") in
    ret (<["Sight" := JObj l (<["ScopesCurrentCalibPointIndexes" := a']>
                              (<["ScopesSelectedModes" := b']>
                               (<["SelectedScope" := c]> ∅)))]> clone).

(** The [Dogtag] case: [clone.Dogtag = { ...upd.Dogtag }]. *)
Definition copyDogtag (upd : JsValue) (clone : gmap string JsValue)
    : Alloc (gmap string JsValue) :=
  let* v := lift (getProp upd "Dogtag") in
  if isUndefined v then ret clone else
    let* d := spreadObject v in
    ret (<["Dogtag" := d]> clone).

Definition deepCloneItemUpd (upd : JsValue) : Alloc JsValue :=
  if isUndefined upd then ret JUndefined else
  let* l := fresh in
  let clone : gmap string JsValue := ∅ in
  let* clone := copyValue upd "StackObjectsCount" clone in
  let* clone := copyValue upd "SpawnedInSession" clone in
  let* clone := copyFields upd "Foldable" ["Folded"] clone in
  let* clone := copyFields upd "MedKit" ["HpResource"] clone in
  let* clone := copyFields upd "Repairable" ["Durability"; "MaxDurability"] clone in
  let* clone := copyFields upd "Resource" ["Value"] clone in
  let* clone := copyFields upd "FoodDrink" ["HpPercent"] clone in
  let* clone := copyFields upd "Tag" ["Name"; "Color"] clone in
  let* clone := copyFields upd "Key" ["NumberOfUsages"] clone in
  let* clone := copyFields upd "Light" ["IsActive"; "SelectedMode"] clone in
  let* clone := copyFields upd "Togglable" ["On"] clone in
  let* clone := copyFields upd "FireMode" ["FireMode"] clone in
  let* clone := copySight upd clone in
  let* clone := copyDogtag upd clone in
  ret (JObj l clone).

(** *** isValidSessionId *)

Definition inRange (lo hi : nat) (c : ascii) : bool :=
  ((lo <=? nat_of_ascii c) && (nat_of_ascii c <=? hi))%nat.

(** One character of the class [[a-zA-Z0-9_-]]. *)
Definition safeChar (c : ascii) : bool :=
  inRange 97 122 c || inRange 65 90 c || inRange 48 57 c
  || Ascii.eqb c "_" || Ascii.eqb c "-".

(** [s.includes(sub)] *)
Fixpoint includes (sub s : string) : bool :=
  String.prefix sub s ||
  match s with
  | EmptyString => false
  | String _ s' => includes sub s'
  end.

Definition isValidSessionId (sessionId : string) : bool :=
  if (String.length sessionId =? 0)%nat then false
  else if negb (forallb safeChar (list_ascii_of_string sessionId)) then false
  else if includes ".." sessionId || includes "/" sessionId
          || includes (String (ascii_of_nat 92) EmptyString) sessionId
          || includes (String zero EmptyString) sessionId then false
  else if (128 <? String.length sessionId)%nat then false
  else true.

(** *** Snapshots *)

(** [InventorySnapshot], with the descriptive metadata the engine never
    reads left out. *)
Record InventorySnapshot := mkSnapshot {
  items : list Item;
  includedSlots : option (list string);
  emptySlots : option (list string);
  modVersion : option string
  }.

(** What [JSON.parse] hands to [validateSnapshot]: an untyped payload.
    The parts that [validateSnapshot] inspects are kept raw; the other
    fields are read through the declared interface. *)
Inductive RawItem :=
| RawItemNotObject
| RawItemObject (id tpl : JsValue) (parentId slotId : option string)
                (location : option Location) (upd : JsValue).

Inductive RawSnapshot :=
| RawNotObject
| RawObject (items : option (list RawItem))
            (includedSlots emptySlots : option (list string))
            (modVersion : option string).

(** [typeof v !== "string" || v.length === 0] *)
Definition notNonEmptyString (v : JsValue) : bool :=
  match v with
  | JStr s => (String.length s =? 0)%nat
  | _ => true
  end.

Fixpoint validateItems (i : nat) (items : list RawItem) : option ValidationError :=
  match items with
  | [] => None
  | RawItemNotObject :: _ => Some (ItemNotObject i)
  | RawItemObject id tpl _ _ _ _ :: rest =>
      if notNonEmptyString id then Some (ItemInvalidId i)
      else if notNonEmptyString tpl then Some (ItemInvalidTpl i)
      else validateItems (S i) rest
  end.

(** [validateSnapshot]: [None] is [{ valid: true }], [Some e] is
    [{ valid: false, error: e }]. *)
Definition validateSnapshot (snapshot : RawSnapshot) : option ValidationError :=
  match snapshot with
  | RawNotObject => Some SnapshotNotObject
  | RawObject None _ _ _ => Some ItemsNotArray
  | RawObject (Some []) _ _ _ => Some SnapshotEmpty
  | RawObject (Some items) _ _ _ => validateItems 0 items
  end.

Definition stringOf (v : JsValue) : string :=
  match v with JStr s => s | _ => "" end.

(** The cast of the payload to [InventorySnapshot] ([snapshot =
    JSON.parse(...)]). It is used on validated payloads only, where
    every item is an object with string [_id] and [_tpl]. *)
Definition castItem (raw : RawItem) : Item :=
  match raw with
  | RawItemNotObject => mkItem "" "" None None None JUndefined
  | RawItemObject id tpl parentId slotId location upd =>
      mkItem (stringOf id) (stringOf tpl) parentId slotId location upd
  end.

Definition castSnapshot (raw : RawSnapshot) : InventorySnapshot :=
  match raw with
  | RawNotObject => mkSnapshot [] None None None
  | RawObject items includedSlots emptySlots modVersion =>
      mkSnapshot (castItem <$> default [] items) includedSlots emptySlots modVersion
  end.

End Models.
Export Models.

(** ** Constants.js *)

Module Constants.

Record ModConfig := mkConfig {
  maxParentTraversalDepth : nat;
  maxFileReadRetries : nat;
  fileReadRetryDelayMs : Z;
  maxSnapshotFileSizeBytes : Z;
  verboseLogging : bool;
  minRestoreIntervalMs : Z
  }.

Definition DEFAULT_CONFIG : ModConfig :=
  {| maxParentTraversalDepth := 20;
     maxFileReadRetries := 5;
     fileReadRetryDelayMs := 150;
     maxSnapshotFileSizeBytes := 10 * 1024 * 1024;
     verboseLogging := false;
     minRestoreIntervalMs := 1000 |}.

Definition MOD_VERSION : string := "1.1.0".
Definition EQUIPMENT_TEMPLATE_ID : string := "55d7217a4bdc2d86028b456d".

End Constants.
Export Constants.

(** *** Loading the configuration *)

Module ConfigLoading.

(** A number as [JSON.parse] and the arithmetic of the language can
    produce it: a finite value, one of the infinities, or [NaN]. *)
Inductive JsNumber :=
| Finite (q : QArith_base.Q)
| PosInfinity
| NegInfinity
| NaN.

(** The value of a property of the parsed [config.json], as far as
    [loadConfig] distinguishes values. *)
Inductive ConfigValue :=
| CNumber (x : JsNumber)
| CBoolean (b : bool)
| COther.             (* undefined, null, a string, an object, an array *)

(** What [JSON.parse] returns: [null], or a value whose properties can be
    read ([undefined], here [COther], for those it does not have). *)
Inductive UserConfig :=
| UserNull
| UserValue (property : string -> ConfigValue).

(** [Math.min(a, x)] and [Math.max(a, x)] for a finite [a]. *)
Definition mathMin (a : QArith_base.Q) (x : JsNumber) : JsNumber :=
  match x with
  | Finite q => Finite (Qminmax.Qmin a q)
  | PosInfinity => Finite a
  | NegInfinity => NegInfinity
  | NaN => NaN
  end.

Definition mathMax (a : QArith_base.Q) (x : JsNumber) : JsNumber :=
  match x with
  | Finite q => Finite (Qminmax.Qmax a q)
  | PosInfinity => PosInfinity
  | NegInfinity => Finite a
  | NaN => NaN
  end.

Definition validateNumber (value : ConfigValue) (defaultValue min max : QArith_base.Q)
    : JsNumber :=
  match value with
  | CNumber NaN => Finite defaultValue
  | CNumber x => mathMax min (mathMin max x)
  | _ => Finite defaultValue
  end.

(** The configuration as [loadConfig] returns it. *)
Record LoadedConfig := mkLoaded {
  loadedMaxParentTraversalDepth : JsNumber;
  loadedMaxFileReadRetries : JsNumber;
  loadedFileReadRetryDelayMs : JsNumber;
  loadedMaxSnapshotFileSizeBytes : JsNumber;
  loadedVerboseLogging : bool;
  loadedMinRestoreIntervalMs : JsNumber
  }.

Definition ofZ (z : Z) : QArith_base.Q := QArith_base.inject_Z z.

(** [{ ...DEFAULT_CONFIG }] *)
Definition defaults : LoadedConfig :=
  {| loadedMaxParentTraversalDepth :=
       Finite (ofZ (Z.of_nat (maxParentTraversalDepth DEFAULT_CONFIG)));
     loadedMaxFileReadRetries :=
       Finite (ofZ (Z.of_nat (maxFileReadRetries DEFAULT_CONFIG)));
     loadedFileReadRetryDelayMs := Finite (ofZ (fileReadRetryDelayMs DEFAULT_CONFIG));
     loadedMaxSnapshotFileSizeBytes :=
       Finite (ofZ (maxSnapshotFileSizeBytes DEFAULT_CONFIG));
     loadedVerboseLogging := verboseLogging DEFAULT_CONFIG;
     loadedMinRestoreIntervalMs := Finite (ofZ (minRestoreIntervalMs DEFAULT_CONFIG)) |}.

(** What the file system and [JSON.parse] answer about [config.json]. *)
Record ConfigHost := mkConfigHost {
  configExists : bool;                          (* fs.existsSync(configPath) *)
  configRead : Completion string;               (* fs.readFileSync(configPath, "utf8") *)
  configParse : string -> Completion UserConfig (* JSON.parse(configJson) *)
  }.

Definition mergeWithDefaults (property : string -> ConfigValue) : LoadedConfig :=
  {| loadedMaxParentTraversalDepth :=
       validateNumber (property "maxParentTraversalDepth")
         (ofZ (Z.of_nat (maxParentTraversalDepth DEFAULT_CONFIG))) (ofZ 10) (ofZ 100);
     loadedMaxFileReadRetries :=
       validateNumber (property "maxFileReadRetries")
         (ofZ (Z.of_nat (maxFileReadRetries DEFAULT_CONFIG))) (ofZ 1) (ofZ 20);
     loadedFileReadRetryDelayMs :=
       validateNumber (property "fileReadRetryDelayMs")
         (ofZ (fileReadRetryDelayMs DEFAULT_CONFIG)) (ofZ 50) (ofZ 2000);
     loadedMaxSnapshotFileSizeBytes :=
       validateNumber (property "maxSnapshotFileSizeBytes")
         (ofZ (maxSnapshotFileSizeBytes DEFAULT_CONFIG)) (ofZ 1024)
         (ofZ (100 * 1024 * 1024));
     loadedVerboseLogging :=
       match property "verboseLogging" with
       | CBoolean b => b
       | _ => verboseLogging DEFAULT_CONFIG
       end;
     loadedMinRestoreIntervalMs :=
       validateNumber (property "minRestoreIntervalMs")
         (ofZ (minRestoreIntervalMs DEFAULT_CONFIG)) (ofZ 0) (ofZ 60000) |}.

(** [loadConfig]: every error inside the [try] falls through to the
    defaults; reading a property of [null] is one of them. *)
Definition loadConfig (host : ConfigHost) : LoadedConfig :=
  if configExists host then
    match configRead host with
    | Normal configJson =>
        match configParse host configJson with
        | Normal (UserValue property) => mergeWithDefaults property
        | Normal UserNull => defaults
        | Throw _ => defaults
        end
    | Throw _ => defaults
    end
  else defaults.

End ConfigLoading.

(** ** SnapshotRestorer.ts *)

Module Restorer.

(** *** Strings *)

Definition nonEmpty (s : string) : bool := negb (String.eqb s "").

(** Truthiness of an optional string: present and not empty. *)
Definition truthyStr (o : option string) : bool :=
  match o with
  | Some s => nonEmpty s
  | None => false
  end.

(** The lower case of a character: of the letters [A] to [Z], and of
    the capital letters U+00C0 to U+00DE (the multiplication sign U+00D7
    is none). *)
Definition lowerChar (c : ascii) : ascii :=
  if inRange 65 90 c || inRange 192 214 c || inRange 216 222 c
  then ascii_of_nat (nat_of_ascii c + 32) else c.

(** [s.toLowerCase()]. *)
Fixpoint toLowerCase (s : string) : string :=
  match s with
  | EmptyString => EmptyString
  | String c s' => String (lowerChar c) (toLowerCase s')
  end.

(** White space as [parseInt] skips it: the ASCII white space and the
    no-break space U+00A0. *)
Definition isWhiteSpace (c : ascii) : bool :=
  inRange 9 13 c || Ascii.eqb c " " || inRange 160 160 c.

Fixpoint trimStart (s : string) : string :=
  match s with
  | String c s' => if isWhiteSpace c then trimStart s' else s
  | EmptyString => EmptyString
  end.

(** [s.split(sep)] for a one-character separator. *)
Fixpoint split (sep : ascii) (s : string) : list string :=
  match s with
  | EmptyString => [EmptyString]
  | String c s' =>
      if Ascii.eqb c sep then EmptyString :: split sep s'
      else match split sep s' with
           | p :: ps => String c p :: ps
           | [] => [String c EmptyString]
           end
  end.

Definition digitOf (c : ascii) : option Z :=
  if inRange 48 57 c then Some (Z.of_nat (nat_of_ascii c) - 48)%Z else None.

(** The longest prefix of decimal digits; [acc] is [None] as long as no
    digit was read. *)
Fixpoint readDigits (s : string) (acc : option Z) : option Z :=
  match s with
  | String c s' =>
      match digitOf c with
      | Some d => readDigits s' (Some (10 * default 0%Z acc + d)%Z)
      | None => acc
      end
  | EmptyString => acc
  end.

(** [parseInt(s, 10)]; [None] is [NaN]. *)
Definition parseInt (s : string) : option Z :=
  match trimStart s with
  | String "-" s' => Z.opp <$> readDigits s' None
  | String "+" s' => readDigits s' None
  | s' => readDigits s' None
  end.

(** The text of the snapshot file as [fs.readFileSync(path, "utf8")]
    returns it: a JavaScript string in full, that is a sequence of UTF-16
    code units. *)
Module Text.

Definition t := list N.

(** The text of an ASCII string. *)
Definition ofString (s : string) : t :=
  (fun c => N.of_nat (nat_of_ascii c)) <$> list_ascii_of_string s.

(** The code units that [trim] strips: the white space (tab, vertical
    tab, form feed, the byte order mark U+FEFF and the space separators
    of Unicode) and the line terminators (line feed, carriage return,
    U+2028, U+2029). *)
Definition isWhiteSpace (u : N) : bool :=
  ((9 <=? u) && (u <=? 13)                 (* U+0009 .. U+000D *)
   || (u =? 32)                            (* U+0020 *)
   || (u =? 160)                           (* U+00A0 *)
   || (u =? 5760)                          (* U+1680 *)
   || (8192 <=? u) && (u <=? 8202)         (* U+2000 .. U+200A *)
   || (u =? 8232) || (u =? 8233)           (* U+2028, U+2029 *)
   || (u =? 8239)                          (* U+202F *)
   || (u =? 8287)                          (* U+205F *)
   || (u =? 12288)                         (* U+3000 *)
   || (u =? 65279))%N.                     (* U+FEFF *)

(** [trim], as far as the start of the text goes. *)
Fixpoint trimStart (text : t) : t :=
  match text with
  | u :: text' => if isWhiteSpace u then trimStart text' else text
  | [] => []
  end.

(** [text.startsWith("{") || text.startsWith("[")]. *)
Definition startsWithBraceOrBracket (text : t) : bool :=
  match text with
  | u :: _ => (u =? 123)%N || (u =? 91)%N
  | [] => false
  end.

End Text.

(** *** Events: log lines above debug level, and file deletion *)

Inductive LogMessage :=
| InvalidSessionId
| PathTraversalAttempt
| ErrorRestoring (e : JsError)
| FileSizeProblem (e : ErrorMessage)
| JsonParseProblem (e : JsError)
| SnapshotValidationFailed (e : ValidationError)
| VersionIncompatibleSkipping
| NoEquipmentContainerInProfile
| NoEquipmentContainerInSnapshot
| RollingBack
| RolledBackToPreRestoration
| FailedToReadSnapshot (attempts : nat)
| FailedToDeleteSnapshot (e : JsError)
| CouldNotParseCurrentVersion
| NoVersionInfo
| WillBeSkipped
| CouldNotParseSnapshotVersion
| MajorVersionMismatch (snap current : Z)
| SnapshotFromNewerVersion
| PleaseUpdate
| CycleDetected (itemId : string) (depth : nat)
| MaxTraversalDepthReached (itemId : string)
| MaxIterationsReached
| SkippingItemWithMissingData.

Inductive Event :=
| LogInfo (m : LogMessage)
| LogWarning (m : LogMessage)
| LogError (m : LogMessage)
| UnlinkSync (r : Completion unit).   (* fs.unlinkSync(snapshotPath) was called *)

(** *** The host: what the file system and the clock answer during
    one call *)

Record Env := mkEnv {
  now : Z;                                  (* Date.now() *)
  pathInsideSnapshots : bool;               (* resolvedPath.startsWith(resolvedSnapshotsPath) *)
  existsSync : bool;                        (* fs.existsSync(snapshotPath) *)
  statSync : Completion Z;                  (* fs.statSync(snapshotPath).size *)
  readFileSync : nat -> Completion Text.t;  (* fs.readFileSync at the given attempt *)
  JSON_parse : Text.t -> Completion RawSnapshot;
  unlinkSync : Completion unit
  }.

Record RateLimitEntry := mkEntry {
  lastAttempt : Z;
  attemptCount : nat
  }.

(** *** Rate limiting *)

Definition checkRateLimit (config : ModConfig) (env : Env) (sessionId : string)
    (rateLimitMap : gmap string RateLimitEntry)
    : bool * gmap string RateLimitEntry :=
  match rateLimitMap !! sessionId with
  | None => (true, <[sessionId := mkEntry (now env) 1]> rateLimitMap)
  | Some entry =>
      let timeSinceLastAttempt := (now env - lastAttempt entry)%Z in
      if (timeSinceLastAttempt <? minRestoreIntervalMs config)%Z then
        (false, <[sessionId := mkEntry (lastAttempt entry) (S (attemptCount entry))]> rateLimitMap)
      else
        (true, <[sessionId := mkEntry (now env) 1]> rateLimitMap)
  end.

(** *** File operations *)

(** [checkFileSize]: [None] is [{ valid: true }]. *)
Definition checkFileSize (config : ModConfig) (env : Env) : option ErrorMessage :=
  match statSync env with
  | Normal size =>
      if (maxSnapshotFileSizeBytes config <? size)%Z
      then Some (FileTooLarge size (maxSnapshotFileSizeBytes config))
      else None
  | Throw _ => Some CouldNotReadFileStats
  end.

(** The retry loop of [readSnapshotWithRetry]; [budget] is
    [maxFileReadRetries - attempt]. The delay between attempts only
    passes time. *)
Fixpoint readLoop (env : Env) (budget attempt : nat) : option Text.t :=
  match budget with
  | 0 => None
  | S budget' =>
      match readFileSync env attempt with
      | Normal content =>
          if (length content =? 0)%nat then readLoop env budget' (S attempt)
          else if negb (Text.startsWithBraceOrBracket (Text.trimStart content))
               then readLoop env budget' (S attempt)
          else Some content
      | Throw _ => readLoop env budget' (S attempt)
      end
  end.

Definition readSnapshotWithRetry (config : ModConfig) (env : Env)
    : option Text.t * list Event :=
  match readLoop env (maxFileReadRetries config) 0 with
  | Some content => (Some content, [])
  | None => (None, [LogError (FailedToReadSnapshot (maxFileReadRetries config))])
  end.

Definition deleteSnapshotFile (env : Env) : list Event :=
  if existsSync env then
    match unlinkSync env with
    | Normal _ => [UnlinkSync (Normal tt)]
    | Throw e => [UnlinkSync (Throw e); LogWarning (FailedToDeleteSnapshot e)]
    end
  else [].

(** *** Version validation *)

Record Version := mkVersion {
  major : Z;
  minor : Z;
  patch : Z
  }.

Definition parseVersion (version : string) : option Version :=
  if negb (nonEmpty version) then None
  else
    let parts := split "." version in
    if (length parts <? 2)%nat then None
    else
      let major := parseInt (nth 0 parts "") in
      let minor := parseInt (nth 1 parts "") in
      let patch := if (3 <=? length parts)%nat then parseInt (nth 2 parts "")
                   else Some 0%Z in
      match major, minor with
      | Some major, Some minor => Some (mkVersion major minor (default 0%Z patch))
      | _, _ => None
      end.

(** [validateSnapshotVersion], with [Constants.MOD_VERSION] as a
    parameter. *)
Definition validateSnapshotVersionAgainst (currentVersion : string)
    (snapshot : InventorySnapshot) : bool * list Event :=
  match parseVersion currentVersion with
  | None => (true, [LogWarning CouldNotParseCurrentVersion])
  | Some currentParts =>
      if negb (truthyStr (modVersion snapshot)) then
        (false, [LogWarning NoVersionInfo; LogWarning WillBeSkipped])
      else
        match parseVersion (default "" (modVersion snapshot)) with
        | None => (true, [LogWarning CouldNotParseSnapshotVersion])
        | Some snapParts =>
            if negb (major snapParts =? major currentParts)%Z then
              (false, [LogWarning (MajorVersionMismatch (major snapParts)
                                                        (major currentParts))])
            else if (minor currentParts <? minor snapParts)%Z then
              (true, [LogWarning SnapshotFromNewerVersion; LogWarning PleaseUpdate])
            else (true, [])
        end
  end.

Definition validateSnapshotVersion (snapshot : InventorySnapshot)
    : bool * list Event :=
  validateSnapshotVersionAgainst MOD_VERSION snapshot.

(** *** Equipment container discovery *)

Fixpoint findEquipmentId (items : list Item) : option string :=
  match items with
  | [] => None
  | item :: rest =>
      if String.eqb (_tpl item) EQUIPMENT_TEMPLATE_ID then Some (_id item)
      else findEquipmentId rest
  end.

(** *** Slot tracking *)

Definition lowerSet (slots : option (list string)) : gset string :=
  list_to_set (toLowerCase <$> default [] slots).

Definition snapshotSlotsOf (items : list Item) (snapshotEquipmentId : option string)
    : gset string :=
  fold_left
    (fun slots item =>
       if bool_decide (parentId item = snapshotEquipmentId) && truthyStr (slotId item)
       then {[ toLowerCase (default "" (slotId item)) ]} ∪ slots
       else slots)
    items ∅.

(** [buildSlotSets]: (includedSlots, snapshotSlots, emptySlots). *)
Definition buildSlotSets (snapshot : InventorySnapshot)
    (snapshotEquipmentId : option string)
    : gset string * gset string * gset string :=
  (lowerSet (includedSlots snapshot),
   snapshotSlotsOf (items snapshot) snapshotEquipmentId,
   lowerSet (emptySlots snapshot)).

Definition isSlotManaged (slotId : string)
    (includedSlots snapshotSlots emptySlots : gset string) : bool :=
  let slotLower := toLowerCase slotId in
  if (0 <? size includedSlots)%nat then
    bool_decide (slotLower ∈ includedSlots)
  else
    bool_decide (slotLower ∈ snapshotSlots) || bool_decide (slotLower ∈ emptySlots).

(** *** Item lookup and parent traversal *)

Definition buildItemLookup (items : list Item) : gmap string Item :=
  fold_left
    (fun lookup item =>
       if nonEmpty (_id item) then <[_id item := item]> lookup else lookup)
    items ∅.

(** The statements after the [while] loop of [traceRootSlot]. *)
Definition traceExit (config : ModConfig) (item : Item) (depth : nat)
    : option string * list Event :=
  (None,
   if (maxParentTraversalDepth config <=? depth)%nat
   then [LogWarning (MaxTraversalDepthReached (_id item))]
   else []).

(** The [while] loop of [traceRootSlot]. [budget] is
    [maxParentTraversalDepth - depth], so that the guard
    [depth < maxParentTraversalDepth] reads [budget = S _]. *)
Fixpoint traceLoop (config : ModConfig) (item : Item)
    (equipmentId : option string) (itemLookup : gmap string Item)
    (budget : nat) (current : option Item) (depth : nat)
    (visited : gset string) : option string * list Event :=
  match current, budget with
  | Some cur, S budget' =>
      if nonEmpty (_id cur) && bool_decide (_id cur ∈ visited) then
        (None, [LogWarning (CycleDetected (_id item) depth)])
      else
        let visited := if nonEmpty (_id cur) then {[ _id cur ]} ∪ visited
                       else visited in
        if bool_decide (parentId cur = equipmentId) then (slotId cur, [])
        else if negb (truthyStr (parentId cur)) then traceExit config item depth
        else traceLoop config item equipmentId itemLookup budget'
               (itemLookup !! default "" (parentId cur)) (S depth) visited
  | _, _ => traceExit config item depth
  end.

Definition traceRootSlot (config : ModConfig) (item : Item)
    (equipmentId : option string) (itemLookup : gmap string Item)
    : option string * list Event :=
  traceLoop config item equipmentId itemLookup
    (maxParentTraversalDepth config) (Some item) 0 ∅.

(** The body of the loop of [buildRootSlotMap], on the map and the
    warnings of the traces. *)
Definition recordRootSlot (config : ModConfig)
    (snapshotEquipmentId : option string) (itemLookup : gmap string Item)
    (acc : gmap string string * list Event) (item : Item)
    : gmap string string * list Event :=
  let '(slotMap, log) := acc in
  if negb (nonEmpty (_id item)) then (slotMap, log)
  else
    let '(rootSlot, warnings) :=
      traceRootSlot config item snapshotEquipmentId itemLookup in
    if truthyStr rootSlot
    then (<[_id item := toLowerCase (default "" rootSlot)]> slotMap,
          (log ++ warnings)%list)
    else (slotMap, (log ++ warnings)%list).

Definition buildRootSlotMap (config : ModConfig) (items : list Item)
    (snapshotEquipmentId : option string) (itemLookup : gmap string Item)
    : gmap string string * list Event :=
  fold_left (recordRootSlot config snapshotEquipmentId itemLookup) items (∅, []).

(** *** Backup and rollback *)

(** One element of [createInventoryBackup]: the fields are copied, the
    location by value, the state blob through [deepCloneItemUpd]. *)
Definition backupItem (item : Item) : Alloc Item :=
  let* u := deepCloneItemUpd (upd item) in
  ret (mkItem (_id item) (_tpl item) (parentId item) (slotId item)
              (location item) u).

Definition createInventoryBackup (items : list Item) : Alloc (list Item) :=
  mapA backupItem items.

(** [restoreFromBackup]: [items.length = 0; items.push(...backup)]. *)
Definition restoreFromBackup (items backup : list Item) : list Item * list Event :=
  (([] ++ backup)%list, [LogInfo RolledBackToPreRestoration]).

(** *** Item removal *)

(** The body of the first loop of [removeManagedSlotItems]: the direct
    children of the equipment container that sit in a managed slot are
    marked. *)
Definition markDirectChild (profileEquipmentId : string)
    (includedSlots snapshotSlots emptySlots : gset string)
    (itemsToRemove : gset string) (item : Item) : gset string :=
  if negb (bool_decide (parentId item = Some profileEquipmentId))
  then itemsToRemove
  else
    let slotId := default "" (slotId item) in
    if negb (isSlotManaged slotId includedSlots snapshotSlots emptySlots)
    then itemsToRemove
    else {[ _id item ]} ∪ itemsToRemove.

Definition markDirectChildren (items : list Item) (profileEquipmentId : string)
    (includedSlots snapshotSlots emptySlots : gset string) : gset string :=
  fold_left (markDirectChild profileEquipmentId includedSlots snapshotSlots emptySlots)
            items ∅.

(** The body of the inner [for] loop, on (itemsToRemove, foundMore). *)
Definition markNested (acc : gset string * bool) (item : Item) : gset string * bool :=
  let '(itemsToRemove, foundMore) := acc in
  if truthyStr (parentId item)
     && bool_decide (default "" (parentId item) ∈ itemsToRemove)
     && negb (bool_decide (_id item ∈ itemsToRemove))
  then ({[ _id item ]} ∪ itemsToRemove, true)
  else (itemsToRemove, foundMore).

(** One pass of the inner [for] loop ([foundMore = false] before it). *)
Definition markNestedPass (items : list Item) (itemsToRemove : gset string)
    : gset string * bool :=
  fold_left markNested items (itemsToRemove, false).

(** The [while (foundMore && iterations < max)] loop; [budget] is
    [maxParentTraversalDepth - iterations]. *)
Fixpoint markNestedLoop (items : list Item) (budget : nat)
    (itemsToRemove : gset string) (foundMore : bool) (iterations : nat)
    : gset string * nat :=
  match budget with
  | S budget' =>
      if foundMore then
        let '(itemsToRemove, foundMore) := markNestedPass items itemsToRemove in
        markNestedLoop items budget' itemsToRemove foundMore (S iterations)
      else (itemsToRemove, iterations)
  | 0 => (itemsToRemove, iterations)
  end.

(** The in-place filter: [items[writeIndex] = items[readIndex]] for
    every kept element; [budget] is [items.length - readIndex]. *)
Fixpoint compactLoop (keep : Item -> bool) (budget readIndex writeIndex : nat)
    (items : list Item) : list Item * nat :=
  match budget with
  | 0 => (items, writeIndex)
  | S budget' =>
      match items !! readIndex with
      | Some item =>
          if keep item
          then compactLoop keep budget' (S readIndex) (S writeIndex)
                 (<[writeIndex := item]> items)
          else compactLoop keep budget' (S readIndex) writeIndex items
      | None => (items, writeIndex)
      end
  end.

(** The set of ids that [removeManagedSlotItems] decides to remove, and
    the number of passes it took. *)
Definition idsToRemove (config : ModConfig) (items : list Item)
    (profileEquipmentId : string)
    (includedSlots snapshotSlots emptySlots : gset string) : gset string * nat :=
  markNestedLoop items (maxParentTraversalDepth config)
    (markDirectChildren items profileEquipmentId includedSlots snapshotSlots emptySlots)
    true 0.

(** [removeManagedSlotItems]: the rewritten array, the number of
    removed items, and the warning. *)
Definition removeManagedSlotItems (config : ModConfig) (items : list Item)
    (profileEquipmentId : string)
    (includedSlots snapshotSlots emptySlots : gset string)
    : list Item * nat * list Event :=
  let '(itemsToRemove, iterations) :=
    idsToRemove config items profileEquipmentId includedSlots snapshotSlots emptySlots in
  let warning :=
    if (maxParentTraversalDepth config <=? iterations)%nat
    then [LogWarning MaxIterationsReached] else [] in
  let originalLength := length items in
  let '(rewritten, writeIndex) :=
    compactLoop (fun item => negb (bool_decide (_id item ∈ itemsToRemove)))
                (length items) 0 0 items in
  let items := take writeIndex rewritten in
  (items, originalLength - length items, warning).

(** *** Item addition *)

Definition createItemFromSnapshot (snapshotItem : Item)
    (profileEquipmentId : string) (snapshotEquipmentId : option string)
    : Alloc Item :=
  let newParent :=
    if truthyStr snapshotEquipmentId
       && bool_decide (parentId snapshotItem = snapshotEquipmentId)
    then Some profileEquipmentId
    else parentId snapshotItem in
  let newItem := mkItem (_id snapshotItem) (_tpl snapshotItem) newParent
                        (slotId snapshotItem) (location snapshotItem) JUndefined in
  if truthy (upd snapshotItem) then
    let* u := deepCloneItemUpd (upd snapshotItem) in
    ret (mkItem (_id newItem) (_tpl newItem) (parentId newItem)
                (slotId newItem) (location newItem) u)
  else ret newItem.

(** The variables of the loop of [addSnapshotItems]. *)
Record AddState := mkAddState {
  inventory : list Item;
  existingItemIds : gset string;
  added : nat;
  duplicates : nat;
  nonManaged : nat;
  warnings : list Event
  }.

(** One iteration of the loop of [addSnapshotItems]. *)
Definition addSnapshotItem (profileEquipmentId : string)
    (snapshotEquipmentId : option string) (includedSlots : gset string)
    (itemRootSlots : gmap string string) (st : AddState) (snapshotItem : Item)
    : Alloc AddState :=
  if String.eqb (_tpl snapshotItem) EQUIPMENT_TEMPLATE_ID then ret st
  else if negb (nonEmpty (_id snapshotItem)) || negb (nonEmpty (_tpl snapshotItem)) then
    ret (mkAddState (inventory st) (existingItemIds st) (added st) (duplicates st)
           (nonManaged st)
           (warnings st ++ [LogWarning SkippingItemWithMissingData])%list)
  else
    let rootSlot := itemRootSlots !! _id snapshotItem in
    if truthyStr rootSlot && (0 <? size includedSlots)%nat
       && negb (bool_decide (default "" rootSlot ∈ includedSlots)) then
      ret (mkAddState (inventory st) (existingItemIds st) (added st) (duplicates st)
             (S (nonManaged st)) (warnings st))
    else if bool_decide (_id snapshotItem ∈ existingItemIds st) then
      ret (mkAddState (inventory st) (existingItemIds st) (added st)
             (S (duplicates st)) (nonManaged st) (warnings st))
    else
      let* newItem := createItemFromSnapshot snapshotItem profileEquipmentId
                        snapshotEquipmentId in
      ret (mkAddState (inventory st ++ [newItem])%list
             ({[ _id newItem ]} ∪ existingItemIds st)
             (S (added st)) (duplicates st) (nonManaged st) (warnings st)).

(** The loop of [addSnapshotItems]: the variables when the loop is
    left, and the error if it is left by a throw. *)
Fixpoint addLoop (profileEquipmentId : string)
    (snapshotEquipmentId : option string) (includedSlots : gset string)
    (itemRootSlots : gmap string string) (snapshotItems : list Item)
    (st : AddState) (n : loc) : AddState * option JsError * loc :=
  match snapshotItems with
  | [] => (st, None, n)
  | snapshotItem :: rest =>
      match addSnapshotItem profileEquipmentId snapshotEquipmentId includedSlots
              itemRootSlots st snapshotItem n with
      | (Normal st', n') =>
          addLoop profileEquipmentId snapshotEquipmentId includedSlots
            itemRootSlots rest st' n'
      | (Throw e, n') => (st, Some e, n')
      end
  end.

Definition addSnapshotItems (inventoryItems snapshotItems : list Item)
    (profileEquipmentId : string) (snapshotEquipmentId : option string)
    (includedSlots : gset string) (itemRootSlots : gmap string string)
    (existingItemIds : gset string) (n : loc)
    : AddState * option JsError * loc :=
  addLoop profileEquipmentId snapshotEquipmentId includedSlots itemRootSlots
    snapshotItems (mkAddState inventoryItems existingItemIds 0 0 0 []) n.

(** [existingItemIds] as [restoreFromFile] builds it. *)
Definition collectItemId (ids : gset string) (item : Item) : gset string :=
  if nonEmpty (_id item) then {[ _id item ]} ∪ ids else ids.

Definition collectItemIds (inventoryItems : list Item) : gset string :=
  fold_left collectItemId inventoryItems ∅.

(** *** Core restoration logic *)

(** [restoreFromFile]: the result (or the error it throws), the
    caller's array, the events, and the allocator. *)
Definition restoreFromFile (config : ModConfig) (env : Env)
    (inventoryItems : list Item) (n : loc)
    : Completion RestoreResult * list Item * list Event * loc :=
  match checkFileSize config env with
  | Some err =>
      (Normal (failed err), inventoryItems,
       [LogWarning (FileSizeProblem err)] ++ deleteSnapshotFile env, n)%list
  | None =>
  let '(snapshotJson, readLog) := readSnapshotWithRetry config env in
  match snapshotJson with
  | None => (Normal (failed FailedToReadAfterRetries), inventoryItems, readLog, n)
  | Some snapshotJson =>
  match JSON_parse env snapshotJson with
  | Throw e =>
      (Normal (failed (JsonParseError e)), inventoryItems,
       [LogError (JsonParseProblem e)] ++ deleteSnapshotFile env, n)%list
  | Normal raw =>
  match validateSnapshot raw with
  | Some err =>
      (Normal (failed (ValidationFailed err)), inventoryItems,
       [LogWarning (SnapshotValidationFailed err)] ++ deleteSnapshotFile env, n)%list
  | None =>
  let snapshot := castSnapshot raw in
  let '(compatible, versionLog) := validateSnapshotVersion snapshot in
  if negb compatible then
    (Normal (failed VersionIncompatible), inventoryItems,
     versionLog ++ [LogWarning VersionIncompatibleSkipping]
                ++ deleteSnapshotFile env, n)%list
  else
  let profileEquipmentId := findEquipmentId inventoryItems in
  let snapshotEquipmentId := findEquipmentId (items snapshot) in
  if negb (truthyStr profileEquipmentId) then
    (Normal (failed NoEquipmentInProfile), inventoryItems,
     versionLog ++ [LogError NoEquipmentContainerInProfile], n)%list
  else
  let profileEquipmentId := default "" profileEquipmentId in
  let equipmentLog :=
    if negb (truthyStr snapshotEquipmentId)
    then [LogWarning NoEquipmentContainerInSnapshot] else [] in
  let '(includedSlots, snapshotSlots, emptySlots) :=
    buildSlotSets snapshot snapshotEquipmentId in
  let snapshotItemLookup := buildItemLookup (items snapshot) in
  let '(itemRootSlots, traceLog) :=
    buildRootSlotMap config (items snapshot) snapshotEquipmentId snapshotItemLookup in
  let log := (versionLog ++ equipmentLog ++ traceLog)%list in
(* TRANSACTION START *)
  match createInventoryBackup inventoryItems n with
  | (Throw e, n) => (Throw e, inventoryItems, log, n)
  | (Normal backupItems, n) =>
  let '(inventoryItems, removedCount, removalLog) :=
    removeManagedSlotItems config inventoryItems profileEquipmentId
      includedSlots snapshotSlots emptySlots in
  let existingItemIds := collectItemIds inventoryItems in
  match addSnapshotItems inventoryItems (items snapshot) profileEquipmentId
          snapshotEquipmentId includedSlots itemRootSlots existingItemIds n with
  | (st, None, n) =>
      (* TRANSACTION SUCCESS *)
      (Normal (succeeded (added st) (duplicates st) (nonManaged st)),
       inventory st,
       log ++ removalLog ++ warnings st ++ deleteSnapshotFile env, n)%list
  | (st, Some e, n) =>
      (* TRANSACTION ROLLBACK *)
      let '(inventoryItems, rollbackLog) :=
        restoreFromBackup (inventory st) backupItems in
      (Normal (failed (RolledBack e)), inventoryItems,
       log ++ removalLog ++ warnings st ++ [LogError RollingBack] ++ rollbackLog,
       n)%list
  end end end end end end.

(** *** Public API *)

(** What one call of [tryRestore] leaves behind. [inventoryItems] is
    the caller's array after the call ([None] when the caller passed
    [null] or something that is not an array). *)
Record Outcome := mkOutcome {
  result : RestoreResult;
  inventoryItems : option (list Item);
  rateLimitMap : gmap string RateLimitEntry;
  events : list Event;
  nextLoc : loc
  }.

Definition tryRestore (config : ModConfig) (env : Env)
    (rateLimitMap : gmap string RateLimitEntry) (n : loc)
    (sessionId : string) (inventoryItems : option (list Item)) : Outcome :=
  if negb (isValidSessionId sessionId) then
    mkOutcome (failed InvalidSessionIdFormat) inventoryItems rateLimitMap
              [LogWarning InvalidSessionId] n
  else
  let '(allowed, rateLimitMap) := checkRateLimit config env sessionId rateLimitMap in
  if negb allowed then
    mkOutcome (failed RateLimitExceeded) inventoryItems rateLimitMap [] n
  else
  match inventoryItems with
  | None => mkOutcome (failed InventoryNotArray) None rateLimitMap [] n
  | Some items =>
  if negb (pathInsideSnapshots env) then
    mkOutcome (failed InvalidSnapshotPath) (Some items) rateLimitMap
              [LogError PathTraversalAttempt] n
  else if negb (existsSync env) then
    mkOutcome (failed NoSnapshotFileFound) (Some items) rateLimitMap [] n
  else
  match restoreFromFile config env items n with
  | (Normal r, items, log, n) => mkOutcome r (Some items) rateLimitMap log n
  | (Throw e, items, log, n) =>
      mkOutcome (failed (UnexpectedError e)) (Some items) rateLimitMap
                (log ++ [LogError (ErrorRestoring e)])%list n
  end end.

End Restorer.
Export Restorer.

(** ** SnapshotRestorer.ts: clearing a snapshot, and sanitizing for the log *)

Module Clearing.

(** A character of the range [\x20-\x7E]. *)
Definition isPrintable (c : ascii) : bool := inRange 32 126 c.

Fixpoint replaceUnprintable (s : string) : string :=
  match s with
  | EmptyString => EmptyString
  | String c s' => String (if isPrintable c then c else "?"%char) (replaceUnprintable s')
  end.

(** [sanitizeForLog]: [input.replace(/[^\x20-\x7E]/g, "?").substring(0, 64)]. *)
Definition sanitizeForLog (input : JsValue) : string :=
  match input with
  | JStr s => String.substring 0 64 (replaceUnprintable s)
  | _ => "[non-string]"
  end.

(** What [clearSnapshot] logs itself, and what [deleteSnapshotFile] does
    on its behalf. *)
Inductive ClearEvent :=
| InvalidSessionIdInClearSnapshot (sanitized : string)   (* warning *)
| PathTraversalInClearSnapshot                           (* error *)
| Deletion (e : Event).

Definition clearSnapshot (env : Env) (sessionId : string) : list ClearEvent :=
  if negb (isValidSessionId sessionId) then
    [InvalidSessionIdInClearSnapshot (sanitizeForLog (JStr sessionId))]
  else if negb (pathInsideSnapshots env) then [PathTraversalInClearSnapshot]
  else Deletion <$> deleteSnapshotFile env.

End Clearing.
Export Clearing.

(** ** mod.js *)

Module Mod.

(** [info.profile.Inventory.items], as far as [handlePlayerDeath] can
    follow it. *)
Inductive InventoryAccess :=
| ProfileMissing          (* !info.profile *)
| InventoryMissing        (* !info.profile.Inventory *)
| ItemsMissing            (* items is not an array *)
| ItemsArray (items : list Item).

(** The raid-end request. *)
Record RaidInfo := mkRaidInfo {
  exit : JsValue;
  isPlayerScav : JsValue;
  profile : InventoryAccess
  }.

Inductive ModMessage :=
| InvalidSessionIdSkipping      (* "Invalid session ID format - skipping" *)
| ErrorInOnRaidEnd (e : JsError)
| ProfileIsNull                 (* "Cannot access profile - profile is null" *)
| InventoryIsNull               (* "Cannot access profile inventory - Inventory is null" *)
| CannotAccessInventoryItems    (* "Cannot access profile inventory items" *)
| ProfileInventoryEmpty         (* "Profile inventory is empty" *)
| InventoryRestored             (* "Inventory restored from snapshot!" *)
| RestoredItems (n : nat)       (* "Restored n items" *)
| RestorationFailed (e : ErrorMessage).

(** Log lines above debug level, and what the restorer did. *)
Inductive ModEvent :=
| ModInfo (m : ModMessage)
| ModWarning (m : ModMessage)
| ModError (m : ModMessage)
| Restoring (e : Event)
| Clearing (e : ClearEvent).

(** What one raid end leaves behind; [raidProfile] is the inventory of
    the request after the call ([None] when the request is [null]). *)
Record RaidOutcome := mkRaidOutcome {
  raidEvents : list ModEvent;
  raidProfile : option InventoryAccess;
  raidRateLimitMap : gmap string RateLimitEntry;
  raidNextLoc : loc
  }.

(** [isSurvivalExit]: [SURVIVAL_STATUSES.has(exitStatus)]. *)
Definition isSurvivalExit (exitStatus : JsValue) : bool :=
  match exitStatus with
  | JStr s => String.eqb s "Survived" || String.eqb s "Runner"
  | _ => false
  end.

Definition handlePlayerDeath (config : ModConfig) (env : Env)
    (rateLimitMap : gmap string RateLimitEntry) (n : loc) (sessionID : string)
    (info : RaidInfo) : RaidOutcome :=
  match profile info with
  | ProfileMissing =>
      mkRaidOutcome [ModError ProfileIsNull] (Some (profile info)) rateLimitMap n
  | InventoryMissing =>
      mkRaidOutcome [ModError InventoryIsNull] (Some (profile info)) rateLimitMap n
  | ItemsMissing =>
      mkRaidOutcome [ModError CannotAccessInventoryItems] (Some (profile info))
                    rateLimitMap n
  | ItemsArray [] =>
      mkRaidOutcome [ModWarning ProfileInventoryEmpty] (Some (profile info))
                    rateLimitMap n
  | ItemsArray inventoryItems =>
      let out := tryRestore config env rateLimitMap n sessionID (Some inventoryItems) in
      let report :=
        if success (result out) then
          [ModInfo InventoryRestored; ModInfo (RestoredItems (itemsAdded (result out)))]
        else
          match errorMessage (result out) with
          | Some NoSnapshotFileFound | None => []
          | Some e => [ModWarning (RestorationFailed e)]
          end in
      mkRaidOutcome ((Restoring <$> events out) ++ report)
        (Some (from_option ItemsArray ItemsMissing (Restorer.inventoryItems out)))
        (Restorer.rateLimitMap out) (nextLoc out)
  end.

Definition handlePlayerSurvival (env : Env) (sessionID : string) : list ModEvent :=
  Clearing <$> clearSnapshot env sessionID.

(** [onRaidEnd]. [ready] is [this.initialized && this.logger &&
    this.restorer && this.config]; a request that is [null] makes the
    read of [info.exit] throw, which the [catch] logs. *)
Definition onRaidEnd (ready : bool) (config : ModConfig) (env : Env)
    (rateLimitMap : gmap string RateLimitEntry) (n : loc) (sessionID : string)
    (info : option RaidInfo) : RaidOutcome :=
  if negb ready then mkRaidOutcome [] (profile <$> info) rateLimitMap n
  else if negb (isValidSessionId sessionID) then
    mkRaidOutcome [ModWarning InvalidSessionIdSkipping] (profile <$> info) rateLimitMap n
  else
    match info with
    | None =>
        mkRaidOutcome
          [ModError (ErrorInOnRaidEnd
                       (TypeError "Cannot read properties of null or undefined"))]
          None rateLimitMap n
    | Some info =>
        if truthy (isPlayerScav info) then
          mkRaidOutcome [] (Some (profile info)) rateLimitMap n
        else if isSurvivalExit (exit info) then
          mkRaidOutcome (handlePlayerSurvival env sessionID) (Some (profile info))
                        rateLimitMap n
        else handlePlayerDeath config env rateLimitMap n sessionID info
    end.

End Mod.
Export Mod.

(* ===================================================================== *)
(** * Part II. Vocabulary of the properties                               *)
(* ===================================================================== *)

Local Open Scope list_scope.

(** ** Results *)

(** A result as one of the two factory methods builds it. *)
Definition fromFactory (r : RestoreResult) : Prop :=
  (exists e, r = failed e) \/ (exists a d n, r = succeeded a d n).

(** ** Version compatibility *)

(** A snapshot whose [modVersion] is present but empty. *)
Definition snapshotWithEmptyVersion : InventorySnapshot :=
  mkSnapshot [mkItem "equip1" EQUIPMENT_TEMPLATE_ID None None None JUndefined]
             None None (Some "").

(** A snapshot written by version 1.3.0 of the mod. *)
Definition snapshotFromNewerMinor : InventorySnapshot :=
  mkSnapshot [mkItem "equip1" EQUIPMENT_TEMPLATE_ID None None None JUndefined]
             None None (Some "1.3.0").

(** ** Parent chains *)

(** [parentChain itemLookup path]: every record of [path] names the next
    one as its parent, and the lookup map resolves that name to it. *)
Fixpoint parentChain (itemLookup : gmap string Item) (path : list Item) : Prop :=
  match path with
  | a :: (b :: _) as rest =>
      parentId a = Some (_id b) /\ itemLookup !! _id b = Some b
      /\ parentChain itemLookup rest
  | _ => True
  end.

(** The records of [path] can be walked one after the other: their ids
    are present and pairwise distinct, and none of them is a direct child
    of the equipment container. *)
Definition walkable (equipmentId : option string) (path : list Item) : Prop :=
  NoDup (_id <$> path)
  /\ forall x, x ∈ path -> nonEmpty (_id x) = true /\ parentId x <> equipmentId.

(** The two records of the cyclic snapshot of the test suite. *)
Definition cycleItem1 : Item :=
  mkItem "item1" "tpl1" (Some "item2") (Some "slot1") None JUndefined.
Definition cycleItem2 : Item :=
  mkItem "item2" "tpl2" (Some "item1") (Some "slot2") None JUndefined.
Definition cycleLookup : gmap string Item :=
  buildItemLookup [mkItem "equip1" EQUIPMENT_TEMPLATE_ID None None None JUndefined;
                   cycleItem1; cycleItem2].

(** A record without parent, in a snapshot without equipment container. *)
Definition orphanItem : Item :=
  mkItem "item1" "tpl1" None (Some "Holster") None JUndefined.

(** The untyped payload of a snapshot item without location and state. *)
Definition rawItem (id tpl : string) (parentId slotId : option string) : RawItem :=
  RawItemObject (JStr id) (JStr tpl) parentId slotId None JUndefined.

(** A host where the snapshot file exists, is small and readable, parses
    to [raw], and can be deleted. *)
Definition hostWith (raw : RawSnapshot) : Env :=
  mkEnv 0 true true (Normal 1000%Z) (fun _ => Normal (Text.ofString "{ }"))
        (fun _ => Normal raw) (Normal tt).

Definition profileEquipment : Item :=
  mkItem "profile_equip" EQUIPMENT_TEMPLATE_ID None None None JUndefined.

(** The cyclic snapshot of the test suite. *)
Definition cycleSnapshot : RawSnapshot :=
  RawObject (Some [rawItem "equip1" EQUIPMENT_TEMPLATE_ID None None;
                   rawItem "item1" "tpl1" (Some "item2") (Some "slot1");
                   rawItem "item2" "tpl2" (Some "item1") (Some "slot2")])
            (Some ["slot1"; "slot2"]) None (Some MOD_VERSION).

(** A snapshot without equipment container: one parentless record that
    names a slot, while only the backpack is managed. *)
Definition orphanSnapshot : RawSnapshot :=
  RawObject (Some [rawItem "item1" "tpl1" None (Some "Holster")])
            (Some ["backpack"]) None (Some MOD_VERSION).

(** ** Removal *)

(** The ids that ought to be removed: those of the direct children of the
    equipment container in a managed slot, and of every record whose
    parent is to be removed. *)
Inductive Removable (items : list Item) (profileEquipmentId : string)
    (includedSlots snapshotSlots emptySlots : gset string) : string -> Prop :=
| removable_direct item :
    item ∈ items ->
    parentId item = Some profileEquipmentId ->
    isSlotManaged (default "" (slotId item)) includedSlots snapshotSlots emptySlots
    = true ->
    Removable items profileEquipmentId includedSlots snapshotSlots emptySlots
      (_id item)
| removable_nested item p :
    item ∈ items ->
    parentId item = Some p -> p <> "" ->
    Removable items profileEquipmentId includedSlots snapshotSlots emptySlots p ->
    Removable items profileEquipmentId includedSlots snapshotSlots emptySlots
      (_id item).

(** The ids that ought to be removed, by the number of levels below the
    equipment container: a direct child in a managed slot is at level 0,
    a record whose parent is at level [k] at level [k + 1]. [RemovableWithin
    k] holds of the ids at level [k] or less. *)
Inductive RemovableWithin (items : list Item) (profileEquipmentId : string)
    (includedSlots snapshotSlots emptySlots : gset string)
    : nat -> string -> Prop :=
| within_direct k item :
    item ∈ items ->
    parentId item = Some profileEquipmentId ->
    isSlotManaged (default "" (slotId item)) includedSlots snapshotSlots emptySlots
    = true ->
    RemovableWithin items profileEquipmentId includedSlots snapshotSlots emptySlots
      k (_id item)
| within_nested k item p :
    item ∈ items ->
    parentId item = Some p -> p <> "" ->
    RemovableWithin items profileEquipmentId includedSlots snapshotSlots emptySlots
      k p ->
    RemovableWithin items profileEquipmentId includedSlots snapshotSlots emptySlots
      (S k) (_id item).

(** A set of ids that holds, with an id, the ids of the records below. *)
Definition closedUnderParent (items : list Item) (ids : gset string) : Prop :=
  forall item,
    item ∈ items -> truthyStr (parentId item) = true ->
    default "" (parentId item) ∈ ids -> _id item ∈ ids.

(** Every id of [ids] ought to be removed. *)
Definition soundIds (items : list Item) (profileEquipmentId : string)
    (includedSlots snapshotSlots emptySlots : gset string) (ids : gset string) : Prop :=
  forall x, x ∈ ids ->
    Removable items profileEquipmentId includedSlots snapshotSlots emptySlots x.

(** A nest of [n + 1] containers in the holster, innermost first:
    "c0" sits in the slot, "c1" in "c0", and so on. *)
Definition nestId (k : nat) : string := "c" +:+ pretty k.

Definition nestItem (k : nat) : Item :=
  match k with
  | 0 => mkItem (nestId 0) "container" (Some "profile_equip") (Some "Holster")
                None JUndefined
  | S k' => mkItem (nestId k) "container" (Some (nestId k')) (Some "main")
                   None JUndefined
  end.

Definition deepNest (n : nat) : list Item :=
  profileEquipment :: (nestItem <$> reverse (seq 0 (S n))).

(** ** Addition *)

(** The record passes the first two checks of the loop of
    [addSnapshotItems]: it is not of the equipment-container type, and
    its id and type are present. *)
Definition reachesSlotCheck (snapshotItem : Item) : bool :=
  negb (String.eqb (_tpl snapshotItem) EQUIPMENT_TEMPLATE_ID)
  && nonEmpty (_id snapshotItem) && nonEmpty (_tpl snapshotItem).

(** The root slot of the record is known and lies outside a non-empty
    [includedSlots]. *)
Definition outsideIncludedSlots (includedSlots : gset string)
    (itemRootSlots : gmap string string) (snapshotItem : Item) : bool :=
  truthyStr (itemRootSlots !! _id snapshotItem)
  && (0 <? size includedSlots)%nat
  && negb (bool_decide (default "" (itemRootSlots !! _id snapshotItem) ∈ includedSlots)).

(** The ids of the collection are registered in [existingItemIds]. *)
Definition idsRegistered (st : AddState) : Prop :=
  forall item, item ∈ inventory st -> nonEmpty (_id item) = true ->
    _id item ∈ existingItemIds st.

(** What one turn of the loop of [addSnapshotItems] does to its
    variables when it does not throw. *)
Inductive AddStep (includedSlots : gset string) (itemRootSlots : gmap string string)
    (st : AddState) (x : Item) : AddState -> Prop :=
| step_equipment :
    String.eqb (_tpl x) EQUIPMENT_TEMPLATE_ID = true ->
    AddStep includedSlots itemRootSlots st x st
| step_missing :
    String.eqb (_tpl x) EQUIPMENT_TEMPLATE_ID = false ->
    reachesSlotCheck x = false ->
    AddStep includedSlots itemRootSlots st x
      (mkAddState (inventory st) (existingItemIds st) (added st)
         (duplicates st) (nonManaged st)
         (warnings st ++ [LogWarning SkippingItemWithMissingData]))
| step_nonManaged :
    reachesSlotCheck x = true ->
    outsideIncludedSlots includedSlots itemRootSlots x = true ->
    AddStep includedSlots itemRootSlots st x
      (mkAddState (inventory st) (existingItemIds st) (added st)
         (duplicates st) (S (nonManaged st)) (warnings st))
| step_duplicate :
    reachesSlotCheck x = true ->
    outsideIncludedSlots includedSlots itemRootSlots x = false ->
    _id x ∈ existingItemIds st ->
    AddStep includedSlots itemRootSlots st x
      (mkAddState (inventory st) (existingItemIds st) (added st)
         (S (duplicates st)) (nonManaged st) (warnings st))
| step_added newItem :
    reachesSlotCheck x = true ->
    outsideIncludedSlots includedSlots itemRootSlots x = false ->
    _id x ∉ existingItemIds st ->
    _id newItem = _id x ->
    AddStep includedSlots itemRootSlots st x
      (mkAddState (inventory st ++ [newItem])
         ({[ _id x ]} ∪ existingItemIds st) (S (added st))
         (duplicates st) (nonManaged st) (warnings st)).

(** A backpack that is in the profile and in the snapshot, while only
    the holster is managed. *)
Definition packSnapshot : RawSnapshot :=
  RawObject (Some [rawItem "equip1" EQUIPMENT_TEMPLATE_ID None None;
                   rawItem "pack1" "backpack_tpl" (Some "equip1") (Some "Backpack")])
            (Some ["holster"]) None (Some MOD_VERSION).

Definition packProfile : list Item :=
  [profileEquipment;
   mkItem "pack1" "backpack_tpl" (Some "profile_equip") (Some "Backpack") None
          JUndefined].

(** The duplicate of the test suite: the weapon of the snapshot is in the
    profile already, in an unmanaged slot. *)
Definition weaponProfile : list Item :=
  [profileEquipment;
   mkItem "weapon1" "weapon_tpl" (Some "profile_equip") (Some "Scabbard") None
          JUndefined].

Definition snapshotEquipment : Item :=
  mkItem "equip1" EQUIPMENT_TEMPLATE_ID None None None JUndefined.

Definition snapshotWeapon : Item :=
  mkItem "weapon1" "weapon_tpl" (Some "equip1") (Some "FirstPrimaryWeapon") None
         JUndefined.

Definition snapshotPack : Item :=
  mkItem "backpack1" "backpack_tpl" (Some "equip1") (Some "Backpack") None JUndefined.

Definition weaponRootSlots : gmap string string :=
  {[ "weapon1" := "firstprimaryweapon" ]}.

(** The loop variables before and after the weapon is processed. *)
Definition weaponStateBefore : AddState :=
  mkAddState weaponProfile (collectItemIds weaponProfile) 0 0 0 [].
Definition weaponStateAfter : AddState :=
  mkAddState weaponProfile (collectItemIds weaponProfile) 0 1 0 [].

(** A snapshot with a second record of the equipment-container type, in
    the backpack slot of the first, while only the holster is managed. *)
Definition nestedEquipmentSnapshot : RawSnapshot :=
  RawObject (Some [rawItem "equip1" EQUIPMENT_TEMPLATE_ID None None;
                   rawItem "equip2" EQUIPMENT_TEMPLATE_ID (Some "equip1")
                           (Some "Backpack")])
            (Some ["holster"]) None (Some MOD_VERSION).

(** ** Deletion of the snapshot file *)

Definition isUnlink (e : Event) : bool :=
  match e with
  | UnlinkSync _ => true
  | _ => false
  end.

(** [fs.unlinkSync] was called on the snapshot file. *)
Definition deletionRequested (events : list Event) : bool := existsb isUnlink events.

(** The failures after which the snapshot file is deleted. *)
Definition discardsSnapshot (e : ErrorMessage) : bool :=
  match e with
  | FileTooLarge _ _ | CouldNotReadFileStats | JsonParseError _
  | ValidationFailed _ | VersionIncompatible => true
  | _ => false
  end.

(** The cases in which the snapshot file is deleted: success, and the
    failures above. *)
Definition deletionExpected (r : RestoreResult) : bool :=
  success r || match errorMessage r with
               | Some e => discardsSnapshot e
               | None => false
               end.

(** The call gets as far as the snapshot file: the session id is valid,
    the rate limiter admits the call, the resolved path lies inside the
    snapshots directory and the file exists. *)
Definition reachesSnapshotFile (config : ModConfig) (env : Env)
    (rateLimitMap : gmap string RateLimitEntry) (sessionId : string) : bool :=
  isValidSessionId sessionId
  && (checkRateLimit config env sessionId rateLimitMap).1
  && pathInsideSnapshots env
  && existsSync env.

(** The mutation phase on the records of the profile, once the backup is
    taken: the removal of the managed slots, then the addition of the
    records of the snapshot. [None] when the phase completes, the error
    when it raises. *)
Definition mutationError (config : ModConfig) (snapshot : InventorySnapshot)
    (profileItems : list Item) (n : loc) : option JsError :=
  let profileEquipmentId := default "" (findEquipmentId profileItems) in
  let snapshotEquipmentId := findEquipmentId (items snapshot) in
  let '(includedSlots, snapshotSlots, emptySlots) :=
    buildSlotSets snapshot snapshotEquipmentId in
  let itemRootSlots :=
    (buildRootSlotMap config (items snapshot) snapshotEquipmentId
       (buildItemLookup (items snapshot))).1 in
  let kept :=
    (removeManagedSlotItems config profileItems profileEquipmentId
       includedSlots snapshotSlots emptySlots).1.1 in
  (addSnapshotItems kept (items snapshot) profileEquipmentId snapshotEquipmentId
     includedSlots itemRootSlots (collectItemIds kept) n).1.2.

(** A host where the size of the snapshot file cannot be read. *)
Definition hostWithoutStats : Env :=
  mkEnv 0 true true (Throw (Error "EACCES: permission denied, stat"))
        (fun _ => Normal (Text.ofString "{ }")) (fun _ => Normal packSnapshot) (Normal tt).

(** ** State blobs *)

(** The sub-fields that [deepCloneItemUpd] knows, in the order in which
    it copies them. *)
Definition knownSubFields : list string :=
  ["StackObjectsCount"; "SpawnedInSession"; "Foldable"; "MedKit"; "Repairable";
   "Resource"; "FoodDrink"; "Tag"; "Key"; "Light"; "Togglable"; "FireMode";
   "Sight"; "Dogtag"].

(** The state blob without the sub-fields outside the known list. *)
Definition restrictToKnown (u : JsValue) : JsValue :=
  match u with
  | JObj l props => JObj l (filter (fun kv => kv.1 ∈ knownSubFields) props)
  | _ => u
  end.

(** The declared shapes of the interface [ItemUpd]. *)
Definition definedPrimitive (v : JsValue) : bool :=
  isPrimitive v && negb (isUndefined v).

Definition allValues (check : JsValue -> bool) (props : gmap string JsValue) : bool :=
  bool_decide (map_Forall (fun _ v => check v = true) props).

(** An object with exactly the given properties, all primitive. *)
Definition isRecordOf (fields : list string) (v : JsValue) : bool :=
  match v with
  | JObj _ props =>
      bool_decide (dom props = list_to_set fields) && allValues definedPrimitive props
  | _ => false
  end.

Definition isPrimitiveArray (v : JsValue) : bool :=
  match v with
  | JArr _ xs => forallb definedPrimitive xs
  | _ => false
  end.

(** [UpdSight]: two arrays of numbers and a number. *)
Definition isSight (v : JsValue) : bool :=
  match v with
  | JObj _ props =>
      bool_decide (dom props = list_to_set ["ScopesCurrentCalibPointIndexes";
                                            "ScopesSelectedModes"; "SelectedScope"])
      && isPrimitiveArray (default JUndefined (props !! "ScopesCurrentCalibPointIndexes"))
      && isPrimitiveArray (default JUndefined (props !! "ScopesSelectedModes"))
      && definedPrimitive (default JUndefined (props !! "SelectedScope"))
  | _ => false
  end.

(** [UpdDogtag]: optional properties, all primitive. *)
Definition isDogtag (v : JsValue) : bool :=
  match v with
  | JObj _ props => allValues definedPrimitive props
  | _ => false
  end.

(** The sub-field is absent, or has the given shape. *)
Definition optionalField (check : JsValue -> bool) (props : gmap string JsValue)
    (k : string) : bool :=
  match props !! k with
  | None => true
  | Some v => check v
  end.

(** The state blob is an object whose known sub-fields, where present,
    have the shapes that the interface [ItemUpd] declares. Sub-fields
    outside the known list are not constrained. *)
Definition conformsItemUpd (u : JsValue) : bool :=
  match u with
  | JObj _ props =>
      optionalField definedPrimitive props "StackObjectsCount"
      && optionalField definedPrimitive props "SpawnedInSession"
      && optionalField (isRecordOf ["Folded"]) props "Foldable"
      && optionalField (isRecordOf ["HpResource"]) props "MedKit"
      && optionalField (isRecordOf ["Durability"; "MaxDurability"]) props "Repairable"
      && optionalField (isRecordOf ["Value"]) props "Resource"
      && optionalField (isRecordOf ["HpPercent"]) props "FoodDrink"
      && optionalField (isRecordOf ["Name"; "Color"]) props "Tag"
      && optionalField (isRecordOf ["NumberOfUsages"]) props "Key"
      && optionalField (isRecordOf ["IsActive"; "SelectedMode"]) props "Light"
      && optionalField (isRecordOf ["On"]) props "Togglable"
      && optionalField (isRecordOf ["FireMode"]) props "FireMode"
      && optionalField isSight props "Sight"
      && optionalField isDogtag props "Dogtag"
  | _ => false
  end.

(** What holds of the clone under construction once the sub-fields
    [copied] have been handled: it agrees with [props] up to locations on
    these sub-fields and has no other, and its objects and arrays were all
    allocated at or after [n0]. *)
Definition cloneInv (props : gmap string JsValue) (n0 : loc) (copied : list string)
    (clone : gmap string JsValue) : Prop :=
  (forall k, erase <$> (clone !! k)
             = if bool_decide (k ∈ copied) then erase <$> (props !! k) else None)
  /\ (forall k v l, clone !! k = Some v -> l ∈ locations v -> n0 <= l).

(** A repair kit as the profile holds it: its state has a sub-field that
    is not in the known list. *)
Definition repairKitUpd : JsValue :=
  JObj 1 {[ "RepairKit" := JObj 2 {[ "Resource" := JNum 50 ]} ]}.

(** A weapon sight with its calibration arrays, and a stack count. *)
Definition sightUpd : JsValue :=
  JObj 3 {[ "StackObjectsCount" := JNum 1;
            "Sight" := JObj 4 {[ "ScopesCurrentCalibPointIndexes" := JArr 5 [JNum 0; JNum 2];
                                 "ScopesSelectedModes" := JArr 6 [JNum 0];
                                 "SelectedScope" := JNum 0 ]} ]}.

(** ** Rollback *)

(** The record without the locations of its state blob. *)
Definition eraseItem (item : Item) : Item :=
  mkItem (_id item) (_tpl item) (parentId item) (slotId item) (location item)
         (erase (upd item)).

(** Deep equality of two collections: the same records in the same
    order, with the same ids, parents, slots, placements and state. *)
Definition itemsDeepEqual (a b : list Item) : Prop :=
  eraseItem <$> a = eraseItem <$> b.

(** A snapshot of a pistol in the holster with its magazine; the state
    of the magazine holds [Foldable: null]. *)
Definition magazineUpd : JsValue :=
  JObj 7 {[ "StackObjectsCount" := JNum 30; "Foldable" := JNull ]}.

Definition rollbackSnapshot : RawSnapshot :=
  RawObject (Some [rawItem "equip1" EQUIPMENT_TEMPLATE_ID None None;
                   rawItem "pistol1" "pistol_tpl" (Some "equip1") (Some "Holster");
                   RawItemObject (JStr "mag1") (JStr "mag_tpl") (Some "pistol1")
                                 (Some "mod_magazine") None magazineUpd])
            (Some ["holster"]) None (Some MOD_VERSION).

(** A profile with a looted pistol in the holster and a repair kit in
    the pockets. *)
Definition lootedPistol : Item :=
  mkItem "looted1" "pistol_tpl" (Some "profile_equip") (Some "Holster") None JUndefined.

Definition pockets : Item :=
  mkItem "pockets1" "pockets_tpl" (Some "profile_equip") (Some "Pockets") None
         JUndefined.

Definition repairKit : Item :=
  mkItem "kit1" "repairkit_tpl" (Some "pockets1") (Some "pocket1")
         (Some (LocGrid 0 0 0 None)) repairKitUpd.

Definition rollbackProfile : list Item :=
  [profileEquipment; lootedPistol; pockets; repairKit].

(** The call of [tryRestore] on this profile and this snapshot. *)
Definition rollbackOutcome : Outcome :=
  tryRestore DEFAULT_CONFIG (hostWith rollbackSnapshot) ∅ 10 "session1"
             (Some rollbackProfile).

(** ** Session ids and snapshot payloads *)

(** An item of the payload that [validateSnapshot] accepts: an object
    whose [_id] and [_tpl] are non-empty strings. *)
Definition wellFormedItem (raw : RawItem) : bool :=
  match raw with
  | RawItemObject id tpl _ _ _ _ =>
      negb (notNonEmptyString id) && negb (notNonEmptyString tpl)
  | RawItemNotObject => false
  end.

(** The error that [validateSnapshot] reports for an item that is not
    well formed, at index [i]: the object test comes first, then [_id],
    then [_tpl]. *)
Definition itemError (i : nat) (raw : RawItem) : ValidationError :=
  match raw with
  | RawItemNotObject => ItemNotObject i
  | RawItemObject id _ _ _ _ _ =>
      if notNonEmptyString id then ItemInvalidId i else ItemInvalidTpl i
  end.

(** ** State blobs that cannot be cloned *)

(** The sub-fields that [deepCloneItemUpd] rebuilds property by property,
    in the order of the source. *)
Definition recordSubFields : list string :=
  ["Foldable"; "MedKit"; "Repairable"; "Resource"; "FoodDrink"; "Tag"; "Key";
   "Light"; "Togglable"; "FireMode"].

Definition isNull (v : JsValue) : bool :=
  match v with JNull => true | _ => false end.

(** What [[...v]] accepts. *)
Definition isIterable (v : JsValue) : bool :=
  match v with JArr _ _ | JStr _ => true | _ => false end.

(** A value of the sub-field [Sight] that is not [undefined] and makes
    the clone throw: [null], or a value whose two calibration properties
    are not both iterable. *)
Definition sightThrows (v : JsValue) : bool :=
  match v with
  | JUndefined => false
  | JNull => true
  | _ =>
      match getProp v "ScopesCurrentCalibPointIndexes",
            getProp v "ScopesSelectedModes" with
      | Normal a, Normal b => negb (isIterable a) || negb (isIterable b)
      | _, _ => true
      end
  end.

(** The state blobs on which [deepCloneItemUpd] throws. *)
Definition cloneThrows (upd : JsValue) : bool :=
  match upd with
  | JUndefined => false
  | JNull => true
  | JObj _ props =>
      existsb (fun k => isNull (default JUndefined (props !! k))) recordSubFields
      || sightThrows (default JUndefined (props !! "Sight"))
  | _ => false
  end.

(** ** Rate limiting *)

(** The rate-limit table after a series of attempts of one session, each
    with its own clock reading. *)
Definition afterAttempts (config : ModConfig) (sessionId : string)
    (rateLimitMap : gmap string RateLimitEntry) (envs : list Env)
    : gmap string RateLimitEntry :=
  fold_left (fun m env => (checkRateLimit config env sessionId m).2) envs rateLimitMap.

(** ** Reading the snapshot file *)

(** What one read attempt is worth: the content, when the read succeeds
    with a non-empty content that starts, after white space, with a brace
    or a bracket. *)
Definition usableContent (attempt : Completion Text.t) : option Text.t :=
  match attempt with
  | Normal content =>
      if (length content =? 0)%nat then None
      else if Text.startsWithBraceOrBracket (Text.trimStart content) then Some content
      else None
  | Throw _ => None
  end.

(** ** Version strings *)

Definition isDigit (c : ascii) : bool := inRange 48 57 c.

Definition startsWithDigit (s : string) : bool :=
  match s with
  | String c _ => isDigit c
  | EmptyString => false
  end.

(** [major.minor.patch] in decimal. *)
Definition formatVersion (major minor patch : N) : string :=
  pretty major +:+ "." +:+ pretty minor +:+ "." +:+ pretty patch.

(** ** Slots and root slots *)

(** The strings of ASCII characters. *)
Definition isAscii (s : string) : bool :=
  forallb (fun c => (nat_of_ascii c <? 128)%nat) (list_ascii_of_string s).

(** Every slot name that the snapshot holds is an ASCII string: the
    names of [includedSlots] and [emptySlots], and the [slotId] of every
    record. *)
Definition asciiSlotNames (snapshot : InventorySnapshot) : bool :=
  forallb isAscii (default [] (includedSlots snapshot))
  && forallb isAscii (default [] (emptySlots snapshot))
  && forallb (fun item => isAscii (default "" (slotId item))) (items snapshot).

(** Two ASCII slot names that differ in the case of their letters
    only. *)
Definition sameSlot (a b : string) : Prop := toLowerCase a = toLowerCase b.

(** The root slot that [buildRootSlotMap] records for a record: the slot
    that [traceRootSlot] finds, in lower case, unless there is none or it
    is empty. *)
Definition recordedRootSlot (config : ModConfig) (item : Item)
    (snapshotEquipmentId : option string) (itemLookup : gmap string Item)
    : option string :=
  let rootSlot := (traceRootSlot config item snapshotEquipmentId itemLookup).1 in
  if truthyStr rootSlot then Some (toLowerCase (default "" rootSlot)) else None.

(** ** Successful restorations *)

(** The snapshot that [restoreFromFile] works with: what [JSON.parse]
    makes of the content that [readSnapshotWithRetry] returns. *)
Definition parsedSnapshot (config : ModConfig) (env : Env) : option InventorySnapshot :=
  match (readSnapshotWithRetry config env).1 with
  | Some content =>
      match JSON_parse env content with
      | Normal raw => Some (castSnapshot raw)
      | Throw _ => None
      end
  | None => None
  end.

(** [restored] is the profile record made from the snapshot record
    [source]: the same id, type, slot and placement; the parent remapped
    to the profile's equipment container when it was the snapshot's; the
    state cloned, when there is one. *)
Definition restoredFrom (profileEquipmentId : string)
    (snapshotEquipmentId : option string) (source restored : Item) : Prop :=
  _id restored = _id source
  /\ _tpl restored = _tpl source
  /\ slotId restored = slotId source
  /\ location restored = location source
  /\ parentId restored
     = (if truthyStr snapshotEquipmentId
           && bool_decide (parentId source = snapshotEquipmentId)
        then Some profileEquipmentId
        else parentId source)
  /\ (if truthy (upd source)
      then exists n, (deepCloneItemUpd (upd source) n).1 = Normal (upd restored)
      else upd restored = JUndefined).

Definition isEquipmentRecord (item : Item) : bool :=
  String.eqb (_tpl item) EQUIPMENT_TEMPLATE_ID.

(** ** What the removal keeps *)

(** Each record of [path] is stored in the next one. *)
Fixpoint storedIn (path : list Item) : Prop :=
  match path with
  | a :: (b :: _) as rest => parentId a = Some (_id b) /\ storedIn rest
  | _ => True
  end.

(** A backpack in the profile with a case in it and a key in the case,
    while only the holster is managed. *)
Definition backpack : Item :=
  mkItem "pack1" "backpack_tpl" (Some "profile_equip") (Some "Backpack") None JUndefined.
Definition keyCase : Item :=
  mkItem "case1" "case_tpl" (Some "pack1") (Some "main") (Some (LocGrid 0 0 0 None))
         JUndefined.
Definition doorKey : Item :=
  mkItem "key1" "key_tpl" (Some "case1") (Some "main") (Some (LocGrid 1 0 0 None))
         JUndefined.
Definition packedProfile : list Item :=
  [profileEquipment; lootedPistol; backpack; keyCase; doorKey].

(** ** State that a backup preserves *)

(** The state blob is absent, or it conforms to the interface [ItemUpd]
    and has no sub-field outside the known list. *)
Definition declaredState (u : JsValue) : bool :=
  match u with
  | JUndefined => true
  | JObj _ props =>
      conformsItemUpd u && bool_decide (dom props ⊆ list_to_set knownSubFields)
  | _ => false
  end.

(** A profile whose records all have declared state: a looted pistol
    with a scope that carries its calibration. *)
Definition declaredProfile : list Item :=
  [profileEquipment;
   lootedPistol;
   mkItem "scope1" "scope_tpl" (Some "looted1") (Some "mod_scope") None sightUpd].

(** ** Configuration ranges *)

(** A finite number between [lo] and [hi]. *)
Definition withinRange (lo hi : Z) (x : ConfigLoading.JsNumber) : Prop :=
  match x with
  | ConfigLoading.Finite q =>
      QArith_base.Qle (ConfigLoading.ofZ lo) q /\ QArith_base.Qle q (ConfigLoading.ofZ hi)
  | _ => False
  end.

(** A [config.json] that asks for a traversal depth of 1000 and a retry
    delay of 0.5 ms, and gives a string for the interval. *)
Definition greedyConfig : ConfigLoading.ConfigHost :=
  ConfigLoading.mkConfigHost true (Normal "{ }")
    (fun _ => Normal (ConfigLoading.UserValue
       (fun k => if String.eqb k "maxParentTraversalDepth"
                 then ConfigLoading.CNumber (ConfigLoading.Finite (ConfigLoading.ofZ 1000))
                 else if String.eqb k "fileReadRetryDelayMs"
                 then ConfigLoading.CNumber
                        (ConfigLoading.Finite (QArith_base.Qmake 1 2))
                 else ConfigLoading.COther))).

(** ** Raid ends *)

(** [fs.unlinkSync] was called on the snapshot file during a raid end. *)
Definition raidDeletionRequested (events : list ModEvent) : bool :=
  existsb (fun e => match e with
                    | Restoring (UnlinkSync _) => true
                    | Clearing (Deletion (UnlinkSync _)) => true
                    | _ => false
                    end) events.

(** A death of a player character with the looted pistol in the
    holster. *)
Definition deathInfo : RaidInfo :=
  mkRaidInfo (JStr "Killed") (JBool false) (ItemsArray [profileEquipment; lootedPistol]).

(** ** Clearing a snapshot *)

Definition isClearUnlink (e : ClearEvent) : bool :=
  match e with
  | Deletion (UnlinkSync _) => true
  | _ => false
  end.

(* ===================================================================== *)
(** * Part III. Properties                                                *)
(* ===================================================================== *)

(** ** Results of a restoration *)

Lemma restoreFromFile_fromFactory config env inventoryItems n r items' log n' :
  restoreFromFile config env inventoryItems n = (Normal r, items', log, n') ->
  fromFactory r.
Proof.
  unfold restoreFromFile, fromFactory.
  intros H.
  repeat case_match; simplify_eq; eauto 6.
Qed.

Lemma tryRestore_fromFactory config env rateLimitMap n sessionId inventoryItems :
  fromFactory (result (tryRestore config env rateLimitMap n sessionId inventoryItems)).
Proof.
  unfold tryRestore.
  repeat case_match; simpl;
    try (left; eexists; reflexivity).
  eapply restoreFromFile_fromFactory; eassumption.
Qed.

(** C10. Every failed result carries zero counts: whatever part of the
    removal and addition had been carried out before an error, the
    failure outcome reports [itemsAdded = 0], [duplicatesSkipped = 0]
    and [nonManagedSkipped = 0]. *)
Theorem failed_result_counts_zero config env rateLimitMap n sessionId inventoryItems :
  let r := result (tryRestore config env rateLimitMap n sessionId inventoryItems) in
  success r = false ->
  itemsAdded r = 0 /\ duplicatesSkipped r = 0 /\ nonManagedSkipped r = 0.
Proof.
  intros r Hfail.
  destruct (tryRestore_fromFactory config env rateLimitMap n sessionId inventoryItems)
    as [[e He] | (a & d & m & Hs)]; fold r in He || fold r in Hs.
  - rewrite He. auto.
  - rewrite Hs in Hfail. discriminate.
Qed.

(** The theorem at the restoration that is rolled back after the pistol of
    the snapshot had been added. *)
Lemma failed_result_counts_zero_witness :
  itemsAdded (result rollbackOutcome) = 0
  /\ duplicatesSkipped (result rollbackOutcome) = 0
  /\ nonManagedSkipped (result rollbackOutcome) = 0.
Proof.
  apply (failed_result_counts_zero DEFAULT_CONFIG (hostWith rollbackSnapshot) ∅ 10
           "session1" (Some rollbackProfile)).
  vm_compute. reflexivity.
Defined.

(** ** Version compatibility *)

Lemma parseVersion_current : parseVersion MOD_VERSION = Some (mkVersion 1 1 0).
Proof. reflexivity. Qed.

Lemma parseVersion_empty : parseVersion "" = None.
Proof. reflexivity. Qed.

Lemma truthyStr_false (o : option string) :
  truthyStr o = false <-> o = None \/ o = Some "".
Proof.
  destruct o as [s|]; simpl; [|intuition].
  unfold nonEmpty. destruct (String.eqb_spec s "") as [->|Hne]; simpl.
  - intuition.
  - split; [discriminate|]. intros [[=]|[=]]. congruence.
Qed.

(** The check against an arbitrary running version. *)
Lemma validateSnapshotVersionAgainst_spec currentVersion snapshot :
  let r := validateSnapshotVersionAgainst currentVersion snapshot in
  match parseVersion currentVersion with
  | None => r = (true, [LogWarning CouldNotParseCurrentVersion])
  | Some cur =>
      match modVersion snapshot with
      | None | Some "" => r = (false, [LogWarning NoVersionInfo; LogWarning WillBeSkipped])
      | Some v =>
          match parseVersion v with
          | None => r = (true, [LogWarning CouldNotParseSnapshotVersion])
          | Some snap =>
              if decide (major snap = major cur) then
                if decide (minor cur < minor snap)%Z
                then r = (true, [LogWarning SnapshotFromNewerVersion; LogWarning PleaseUpdate])
                else r = (true, [])
              else r = (false, [LogWarning (MajorVersionMismatch (major snap) (major cur))])
          end
      end
  end.
Proof.
  unfold validateSnapshotVersionAgainst. simpl.
  destruct (parseVersion currentVersion) as [cur|]; [|reflexivity].
  destruct (modVersion snapshot) as [v|]; [|reflexivity].
  destruct v as [|c v]; [reflexivity|]. simpl.
  destruct (parseVersion (String c v)) as [snap|]; [|reflexivity].
  destruct (Z.eqb_spec (major snap) (major cur)); simpl.
  - rewrite decide_True by done.
    destruct (Z.ltb_spec (minor cur) (minor snap)).
    + rewrite decide_True by done. reflexivity.
    + rewrite decide_False by lia. reflexivity.
  - rewrite decide_False by done. reflexivity.
Qed.

(** C7, as stated, fails for a [modVersion] that is present but empty:
    the field is not absent and the string does not parse, so the
    statement asks for acceptance, but the snapshot is rejected. *)
Lemma version_check_rejects_empty_version :
  ~ (fst (validateSnapshotVersion snapshotWithEmptyVersion) = false <->
     (modVersion snapshotWithEmptyVersion = None \/
      exists v cur snap,
        modVersion snapshotWithEmptyVersion = Some v /\
        parseVersion MOD_VERSION = Some cur /\ parseVersion v = Some snap /\
        major snap <> major cur)).
Proof.
  intros [Hreject _].
  destruct (Hreject eq_refl) as [Habsent | (v & cur & snap & Hv & _ & Hsnap & _)].
  - discriminate Habsent.
  - injection Hv as <-. discriminate Hsnap.
Qed.

(** C7 (amended). The version check rejects a snapshot if and only if
    its [modVersion] is absent or empty, or it parses and its major
    component differs from the major component of the running version
    (1.1.0). A non-empty [modVersion] that does not parse is accepted with
    a diagnostic, and so is every snapshot should the running version not
    parse; a snapshot minor greater than the running minor is accepted
    with the two upgrade warnings, a lower or equal one silently. *)
Theorem version_check_spec (snapshot : InventorySnapshot) :
  (fst (validateSnapshotVersion snapshot) = false <->
     (modVersion snapshot = None \/ modVersion snapshot = Some "") \/
     (exists v snap, modVersion snapshot = Some v /\ parseVersion v = Some snap /\
                     major snap <> 1%Z))
  /\ (forall v, modVersion snapshot = Some v -> v <> "" -> parseVersion v = None ->
        validateSnapshotVersion snapshot
        = (true, [LogWarning CouldNotParseSnapshotVersion]))
  /\ (forall currentVersion, parseVersion currentVersion = None ->
        validateSnapshotVersionAgainst currentVersion snapshot
        = (true, [LogWarning CouldNotParseCurrentVersion]))
  /\ (forall v snap, modVersion snapshot = Some v -> parseVersion v = Some snap ->
        major snap = 1%Z -> (1 < minor snap)%Z ->
        validateSnapshotVersion snapshot
        = (true, [LogWarning SnapshotFromNewerVersion; LogWarning PleaseUpdate]))
  /\ (forall v snap, modVersion snapshot = Some v -> parseVersion v = Some snap ->
        major snap = 1%Z -> (minor snap <= 1)%Z ->
        validateSnapshotVersion snapshot = (true, [])).
Proof.
  pose proof (validateSnapshotVersionAgainst_spec MOD_VERSION snapshot) as Hspec.
  rewrite parseVersion_current in Hspec. simpl in Hspec.
  fold (validateSnapshotVersion snapshot) in Hspec.
  repeat split.
  - intros Hreject.
    destruct (modVersion snapshot) as [v|] eqn:Hv; [|auto].
    destruct v as [|c v]; [auto|].
    destruct (parseVersion (String c v)) as [snap|] eqn:Hsnap.
    + destruct (decide (major snap = 1%Z)) as [Hmaj|Hmaj].
      * destruct (decide (1 < minor snap)%Z);
          rewrite Hspec in Hreject; discriminate.
      * right. eauto.
    + rewrite Hspec in Hreject. discriminate.
  - intros [[Hv | Hv] | (v & snap & Hv & Hsnap & Hmaj)]; rewrite Hv in Hspec.
    + rewrite Hspec. reflexivity.
    + rewrite Hspec. reflexivity.
    + destruct v as [|c v]; [discriminate Hsnap|].
      rewrite Hsnap in Hspec. rewrite decide_False in Hspec by done.
      rewrite Hspec. reflexivity.
  - intros v Hv Hne Hsnap. rewrite Hv in Hspec.
    destruct v as [|c v]; [done|]. rewrite Hsnap in Hspec. exact Hspec.
  - intros currentVersion Hcur.
    pose proof (validateSnapshotVersionAgainst_spec currentVersion snapshot) as H.
    rewrite Hcur in H. exact H.
  - intros v snap Hv Hsnap Hmaj Hmin. rewrite Hv in Hspec.
    destruct v as [|c v]; [discriminate Hsnap|]. rewrite Hsnap in Hspec.
    rewrite decide_True in Hspec by done. rewrite decide_True in Hspec by done.
    exact Hspec.
  - intros v snap Hv Hsnap Hmaj Hmin. rewrite Hv in Hspec.
    destruct v as [|c v]; [discriminate Hsnap|]. rewrite Hsnap in Hspec.
    rewrite decide_True in Hspec by done. rewrite decide_False in Hspec by lia.
    exact Hspec.
Qed.

(** The theorem at a snapshot written by version 1.3.0. *)
Lemma version_check_spec_witness :
  validateSnapshotVersion snapshotFromNewerMinor
  = (true, [LogWarning SnapshotFromNewerVersion; LogWarning PleaseUpdate]).
Proof.
  apply (proj1 (proj2 (proj2 (proj2 (version_check_spec snapshotFromNewerMinor))))
           "1.3.0" (mkVersion 1 3 0)); try reflexivity.
Defined.

(** ** Tracing the root slot *)

Lemma traceExit_shape config item depth r log :
  traceExit config item depth = (r, log) ->
  r = None /\ (log = [] \/ log = [LogWarning (MaxTraversalDepthReached (_id item))]).
Proof.
  unfold traceExit. intros [= <- <-]. case_match; auto.
Qed.

(** Whenever the walk logs something it is one warning, and the root
    slot is unresolved. *)
Lemma traceLoop_shape config item equipmentId itemLookup budget :
  forall current depth visited r log,
    traceLoop config item equipmentId itemLookup budget current depth visited
    = (r, log) ->
    log = [] \/ (r = None /\ exists w, log = [LogWarning w]).
Proof.
  induction budget as [|budget IH]; intros current depth visited r log H.
  - destruct current; simpl in H;
      apply traceExit_shape in H as [-> [->| ->]]; eauto.
  - destruct current as [cur|]; simpl in H;
      [|apply traceExit_shape in H as [-> [->| ->]]; eauto].
    repeat case_match; simplify_eq; eauto.
    + apply traceExit_shape in H as [-> [->| ->]]; eauto.
Qed.

(** A record whose id was already visited ends the walk. *)
Lemma traceLoop_revisit config item equipmentId itemLookup budget cur depth visited :
  nonEmpty (_id cur) = true -> _id cur ∈ visited ->
  traceLoop config item equipmentId itemLookup (S budget) (Some cur) depth visited
  = (None, [LogWarning (CycleDetected (_id item) depth)]).
Proof.
  intros Hid Hin. simpl. rewrite Hid, bool_decide_eq_true_2 by done. reflexivity.
Qed.

(** One turn of the loop on a fresh record that is not a direct child of
    the equipment container and has a parent. *)
Lemma traceLoop_step config item equipmentId itemLookup budget cur p depth visited :
  nonEmpty (_id cur) = true -> _id cur ∉ visited ->
  parentId cur = Some p -> nonEmpty p = true -> parentId cur <> equipmentId ->
  traceLoop config item equipmentId itemLookup (S budget) (Some cur) depth visited
  = traceLoop config item equipmentId itemLookup budget (itemLookup !! p) (S depth)
      ({[ _id cur ]} ∪ visited).
Proof.
  intros Hid Hin Hp Hpne Hneq. simpl.
  rewrite Hid, bool_decide_eq_false_2 by done. simpl.
  rewrite bool_decide_eq_false_2 by done.
  rewrite Hp. simpl. rewrite Hpne. reflexivity.
Qed.

Lemma walkable_cons equipmentId c path :
  walkable equipmentId (c :: path) ->
  nonEmpty (_id c) = true /\ parentId c <> equipmentId
  /\ (forall x, x ∈ path -> _id x <> _id c) /\ walkable equipmentId path.
Proof.
  intros [Hnd Hall]. rewrite fmap_cons in Hnd. apply NoDup_cons in Hnd as [Hc Hnd].
  destruct (Hall c) as [Hne Hpar]; [left|].
  split; [exact Hne|]. split; [exact Hpar|]. split; [|split; [exact Hnd|]].
  - intros y Hy Heq. apply Hc. rewrite <- Heq. by apply list_elem_of_fmap_2.
  - intros y Hy. apply Hall. by right.
Qed.

(** A walk along a chain that leads back to a record already seen. *)
Lemma traceLoop_cycle config item equipmentId itemLookup back :
  nonEmpty (_id back) = true -> itemLookup !! _id back = Some back ->
  forall path c budget depth visited l,
    parentChain itemLookup (c :: path) ->
    walkable equipmentId (c :: path) ->
    (forall x, x ∈ c :: path -> _id x ∉ visited) ->
    last (c :: path) = Some l -> parentId l = Some (_id back) ->
    _id back ∈ visited \/ back ∈ c :: path ->
    length (c :: path) < budget ->
    traceLoop config item equipmentId itemLookup budget (Some c) depth visited
    = (None, [LogWarning (CycleDetected (_id item) (depth + length (c :: path)))]).
Proof.
  intros Hback Hlookup path.
  induction path as [|d path IH];
    intros c budget depth visited l Hchain Hwalk Hfresh Hlast Hparent Hin Hlen;
    apply walkable_cons in Hwalk as (Hid & Hneq & Hdistinct & Hwalk);
    destruct budget as [|budget]; simpl in Hlen; try lia.
  - injection Hlast as <-.
    rewrite (traceLoop_step _ _ _ _ _ _ (_id back)); auto;
      [|apply Hfresh; left].
    rewrite Hlookup. destruct budget as [|budget]; [lia|].
    rewrite traceLoop_revisit; auto.
    + simpl. repeat f_equal. lia.
    + destruct Hin as [Hin|Hin]; [set_solver|].
      apply list_elem_of_singleton in Hin as ->. set_solver.
  - destruct Hchain as (Hp & Hd & Hchain).
    assert (nonEmpty (_id d) = true) as Hdne.
    { destruct Hwalk as [_ Hall]. apply Hall. left. }
    rewrite (traceLoop_step _ _ _ _ _ _ (_id d)); auto; [|apply Hfresh; left].
    rewrite Hd.
    rewrite (IH d budget (S depth) _ l); auto.
    + simpl. repeat f_equal. lia.
    + intros x Hx. pose proof (Hfresh x (list_elem_of_further _ _ _ Hx)).
      pose proof (Hdistinct x Hx). set_solver.
    + destruct Hin as [Hin|Hin]; [left; set_solver|].
      apply elem_of_cons in Hin as [->|Hin]; [left; set_solver|by right].
    + simpl. lia.
Qed.

(** A walk along a chain that is at least as long as the remaining
    budget, every record of which has a parent. *)
Lemma traceLoop_overrun config item equipmentId itemLookup :
  forall budget path c depth visited,
    parentChain itemLookup (c :: path) ->
    walkable equipmentId (c :: path) ->
    (forall x, x ∈ c :: path -> truthyStr (parentId x) = true) ->
    (forall x, x ∈ c :: path -> _id x ∉ visited) ->
    budget <= length (c :: path) ->
    budget + depth = maxParentTraversalDepth config ->
    traceLoop config item equipmentId itemLookup budget (Some c) depth visited
    = (None, [LogWarning (MaxTraversalDepthReached (_id item))]).
Proof.
  assert (forall current depth visited,
             maxParentTraversalDepth config <= depth ->
             traceLoop config item equipmentId itemLookup 0 current depth visited
             = (None, [LogWarning (MaxTraversalDepthReached (_id item))])) as Hexit.
  { intros current depth visited Hle.
    assert (traceLoop config item equipmentId itemLookup 0 current depth visited
            = traceExit config item depth) as -> by (by destruct current).
    unfold traceExit.
    by rewrite (proj2 (Nat.leb_le _ _) Hle). }
  induction budget as [|budget IH];
    intros path c depth visited Hchain Hwalk Hparents Hfresh Hlen Hmax.
  - apply Hexit. lia.
  - apply walkable_cons in Hwalk as (Hid & Hneq & Hdistinct & Hwalk).
    destruct (parentId c) as [p|] eqn:Hp;
      [|by specialize (Hparents c (list_elem_of_here _ _)); rewrite Hp in Hparents].
    assert (nonEmpty p = true) as Hpne.
    { pose proof (Hparents c (list_elem_of_here _ _)) as H. by rewrite Hp in H. }
    rewrite (traceLoop_step _ _ _ _ _ _ p); auto;
      [|apply Hfresh; left|by rewrite Hp].
    destruct budget as [|budget]; [apply Hexit; lia|].
    destruct path as [|d path]; simpl in Hlen; [lia|].
    destruct Hchain as (Hpd & Hd & Hchain).
    rewrite Hp in Hpd. injection Hpd as ->. rewrite Hd.
    apply (IH path); auto; [| |simpl; lia|lia].
    + intros x Hx. apply Hparents. by right.
    + intros x Hx. pose proof (Hfresh x (list_elem_of_further _ _ _ Hx)).
      pose proof (Hdistinct x Hx). set_solver.
Qed.

(** C9. The root-slot trace is a total function of the snapshot item set:
    it returns after at most [maxParentTraversalDepth] turns and never
    throws. Whenever it logs, it logs one warning and leaves the root slot
    unresolved. A parent chain that leads back to one of its own records
    within the depth limit ends the walk with the cycle warning; a chain
    of at least [maxParentTraversalDepth] records, each with a parent
    (an over-long chain or a longer cycle), ends it with the depth
    warning. The enclosing [tryRestore] returns a result built by one of
    the two factory methods whatever the snapshot contains. *)
Theorem traceRootSlot_cycle_and_depth_safe config item equipmentId itemLookup :
  (forall r log,
      traceRootSlot config item equipmentId itemLookup = (r, log) ->
      log = [] \/ (r = None /\ exists w, log = [LogWarning w]))
  /\ (forall path l back,
        parentChain itemLookup (item :: path) ->
        walkable equipmentId (item :: path) ->
        last (item :: path) = Some l -> parentId l = Some (_id back) ->
        back ∈ item :: path -> itemLookup !! _id back = Some back ->
        length (item :: path) < maxParentTraversalDepth config ->
        traceRootSlot config item equipmentId itemLookup
        = (None, [LogWarning (CycleDetected (_id item) (length (item :: path)))]))
  /\ (forall path,
        parentChain itemLookup (item :: path) ->
        walkable equipmentId (item :: path) ->
        (forall x, x ∈ item :: path -> truthyStr (parentId x) = true) ->
        maxParentTraversalDepth config <= length (item :: path) ->
        traceRootSlot config item equipmentId itemLookup
        = (None, [LogWarning (MaxTraversalDepthReached (_id item))]))
  /\ (forall env rateLimitMap n sessionId inventoryItems,
        fromFactory
          (result (tryRestore config env rateLimitMap n sessionId inventoryItems))).
Proof.
  unfold traceRootSlot. repeat split.
  - intros r log. apply traceLoop_shape.
  - intros path l back Hchain Hwalk Hlast Hparent Hin Hlookup Hlen.
    assert (nonEmpty (_id back) = true) as Hne.
    { destruct Hwalk as [_ Hall]. by apply Hall. }
    apply (traceLoop_cycle config item equipmentId itemLookup back Hne Hlookup
             path item (maxParentTraversalDepth config) 0 ∅ l); auto.
    intros x _. apply not_elem_of_empty.
  - intros path Hchain Hwalk Hparents Hlen.
    apply (traceLoop_overrun _ _ _ _ _ path); auto.
    intros x _. apply not_elem_of_empty.
  - intros. apply tryRestore_fromFactory.
Qed.

(** The theorem at the two-record cycle of the test suite. *)
Lemma traceRootSlot_cycle_and_depth_safe_witness :
  traceRootSlot DEFAULT_CONFIG cycleItem1 (Some "equip1") cycleLookup
  = (None, [LogWarning (CycleDetected "item1" 2)]).
Proof.
  apply (proj1 (proj2 (traceRootSlot_cycle_and_depth_safe
                         DEFAULT_CONFIG cycleItem1 (Some "equip1") cycleLookup))
           [cycleItem2] cycleItem2 cycleItem1).
  - repeat split.
  - split.
    + apply (bool_decide_unpack _). vm_compute. exact I.
    + intros x Hx. apply elem_of_cons in Hx as [->|Hx];
        [|apply list_elem_of_singleton in Hx as ->]; by split.
  - reflexivity.
  - reflexivity.
  - left.
  - reflexivity.
  - simpl. lia.
Defined.

(** The cyclic snapshot of the test suite is restored: both records are
    added, and both traces log the cycle. *)
Example tryRestore_cycle_snapshot :
  let out := tryRestore DEFAULT_CONFIG (hostWith cycleSnapshot) ∅ 0 "session123"
               (Some [profileEquipment]) in
  result out = succeeded 2 0 0
  /\ events out = [LogWarning (CycleDetected "item1" 2);
                   LogWarning (CycleDetected "item2" 2);
                   UnlinkSync (Normal tt)].
Proof. vm_compute. split; reflexivity. Qed.

(** With an equipment container, a direct child resolves to its own slot
    and a parentless record to nothing. *)
Lemma traceRootSlot_with_equipment config item equipmentId itemLookup :
  0 < maxParentTraversalDepth config ->
  (parentId item = Some equipmentId ->
   traceRootSlot config item (Some equipmentId) itemLookup = (slotId item, []))
  /\ (parentId item = None ->
      traceRootSlot config item (Some equipmentId) itemLookup = (None, [])).
Proof.
  intros Hmax. unfold traceRootSlot.
  destruct (maxParentTraversalDepth config) as [|budget] eqn:Hbudget; [lia|].
  split; intros Hp; simpl; rewrite bool_decide_eq_false_2 by set_solver;
    rewrite andb_false_r, Hp.
  - rewrite bool_decide_eq_true_2 by done. reflexivity.
  - rewrite bool_decide_eq_false_2 by done. simpl.
    unfold traceExit. rewrite Hbudget. reflexivity.
Qed.

(** C6: the code at the failing input. No equipment container was found
    in the snapshot ([equipmentId] is [undefined]) and the record has no
    [parentId]: [current.parentId === equipmentId] holds, and the trace
    answers the record's own slot name instead of "no root slot found". *)
Theorem traceRootSlot_orphan_without_equipment :
  parentId orphanItem = None
  /\ traceRootSlot DEFAULT_CONFIG orphanItem None (buildItemLookup [orphanItem])
     = (Some "Holster", []).
Proof. split; reflexivity. Qed.

(** The consequence for a restoration: the parentless record is taken for
    the content of the unmanaged slot "holster" and is not restored. *)
Example tryRestore_orphan_snapshot :
  result (tryRestore DEFAULT_CONFIG (hostWith orphanSnapshot) ∅ 0 "session123"
            (Some [profileEquipment]))
  = succeeded 0 0 1.
Proof. vm_compute. reflexivity. Qed.

(** ** Removing the managed slots *)

(** The in-place rewrite is a stable filter. *)
Lemma compactLoop_filter (keep : Item -> bool) (original : list Item) :
  forall budget readIndex writeIndex current,
    budget + readIndex = length original ->
    writeIndex <= readIndex ->
    length current = length original ->
    take writeIndex current = filter (fun item => keep item) (take readIndex original) ->
    drop readIndex current = drop readIndex original ->
    forall final writeIndex',
      compactLoop keep budget readIndex writeIndex current = (final, writeIndex') ->
      take writeIndex' final = filter (fun item => keep item) original.
Proof.
  induction budget as [|budget IH];
    intros readIndex writeIndex current Hsum Hle Hlen Htake Hdrop final w' Hrun;
    simpl in Hrun.
  - injection Hrun as <- <-. rewrite Htake, take_ge by lia. reflexivity.
  - assert (current !! readIndex = original !! readIndex) as Hsame.
    { pose proof (lookup_drop current readIndex 0) as H1.
      pose proof (lookup_drop original readIndex 0) as H2.
      rewrite Nat.add_0_r in H1, H2. rewrite <- H1, <- H2, Hdrop. reflexivity. }
    destruct (lookup_lt_is_Some_2 original readIndex) as [item Hitem]; [lia|].
    rewrite Hsame, Hitem in Hrun.
    assert (take (S readIndex) original = take readIndex original ++ [item]) as Hnext
      by (by apply take_S_r).
    destruct (keep item) eqn:Hkeep.
    + eapply IH in Hrun; eauto; try lia.
      * rewrite length_insert. exact Hlen.
      * rewrite (take_S_r _ _ item) by (apply list_lookup_insert_eq; lia).
        rewrite take_insert_ge by lia.
        rewrite Hnext, filter_app, Htake. f_equal.
        rewrite filter_cons_True; [by rewrite filter_nil|]. by rewrite Hkeep.
      * rewrite drop_insert_lt by lia.
        rewrite <- (Nat.add_1_r readIndex), <- !drop_drop, Hdrop. reflexivity.
    + eapply IH in Hrun; eauto; try lia.
      * rewrite Hnext, filter_app, Htake.
        rewrite filter_cons_False; [|rewrite Hkeep; intros []].
        by rewrite filter_nil, app_nil_r.
      * rewrite <- (Nat.add_1_r readIndex), <- !drop_drop, Hdrop. reflexivity.
Qed.

Lemma markDirectChildren_fold items profileEquipmentId includedSlots snapshotSlots
    emptySlots : forall (acc : gset string) x,
  x ∈ fold_left
        (markDirectChild profileEquipmentId includedSlots snapshotSlots emptySlots)
        items acc
  <-> x ∈ acc \/
      exists item, item ∈ items /\ _id item = x /\
        parentId item = Some profileEquipmentId /\
        isSlotManaged (default "" (slotId item)) includedSlots snapshotSlots emptySlots
        = true.
Proof.
  induction items as [|item items IH]; intros acc x; simpl.
  - split; [auto|]. intros [H|(item & Hin & _)]; [done|]. by apply elem_of_nil in Hin.
  - rewrite IH. clear IH. unfold markDirectChild.
    destruct (decide (parentId item = Some profileEquipmentId)) as [Hp|Hp].
    + rewrite bool_decide_eq_true_2 by done. simpl.
      destruct (isSlotManaged _ _ _ _) eqn:Hm; simpl.
      * rewrite elem_of_union, elem_of_singleton. split.
        -- intros [[->|H]|(i & Hin & ?)]; [right|left|right]; auto.
           ++ exists item. split; [left|]; auto.
           ++ exists i. split; [by right|]; auto.
        -- intros [H|(i & Hin & Hid & H)]; [auto|].
           apply elem_of_cons in Hin as [->|Hin]; [auto|]. right. eauto.
      * split.
        -- intros [H|(i & Hin & ?)]; [auto|]. right. exists i. split; [by right|]; auto.
        -- intros [H|(i & Hin & Hid & Hpi & Hmi)]; [auto|].
           apply elem_of_cons in Hin as [->|Hin]; [congruence|]. right. eauto.
    + rewrite bool_decide_eq_false_2 by done. simpl. split.
      * intros [H|(i & Hin & ?)]; [auto|]. right. exists i. split; [by right|]; auto.
      * intros [H|(i & Hin & Hid & Hpi & Hmi)]; [auto|].
        apply elem_of_cons in Hin as [->|Hin]; [congruence|]. right. eauto.
Qed.

Lemma markDirectChildren_spec items profileEquipmentId includedSlots snapshotSlots
    emptySlots x :
  x ∈ markDirectChildren items profileEquipmentId includedSlots snapshotSlots emptySlots
  <-> exists item, item ∈ items /\ _id item = x /\
        parentId item = Some profileEquipmentId /\
        isSlotManaged (default "" (slotId item)) includedSlots snapshotSlots emptySlots
        = true.
Proof.
  unfold markDirectChildren. rewrite markDirectChildren_fold.
  split; [intros [H|H]; [by apply not_elem_of_empty in H|done]|auto].
Qed.

Lemma truthyStr_true (o : option string) :
  truthyStr o = true <-> exists p, o = Some p /\ p <> "".
Proof.
  destruct o as [s|]; simpl.
  - unfold nonEmpty. destruct (String.eqb_spec s "") as [->|Hne]; simpl.
    + split; [discriminate|]. intros (p & [= <-] & Hp). done.
    + split; eauto.
  - split; [discriminate|]. intros (p & [=] & _).
Qed.

Lemma markNested_cases (ids : gset string) foundMore item :
  (markNested (ids, foundMore) item = (ids, foundMore)
   /\ (truthyStr (parentId item) = true ->
       default "" (parentId item) ∈ ids -> _id item ∈ ids))
  \/ (markNested (ids, foundMore) item = ({[ _id item ]} ∪ ids, true)
      /\ exists p, parentId item = Some p /\ p <> "" /\ p ∈ ids).
Proof.
  unfold markNested.
  destruct (truthyStr (parentId item)) eqn:Hp; simpl; [|left; split; [done|discriminate]].
  destruct (bool_decide (default "" (parentId item) ∈ ids)) eqn:Hin; simpl.
  - destruct (bool_decide (_id item ∈ ids)) eqn:Hid; simpl.
    + left. split; [done|]. intros _ _. by apply bool_decide_eq_true in Hid.
    + right. split; [done|]. apply truthyStr_true in Hp as (p & Hp & Hpne).
      exists p. repeat split; auto. apply bool_decide_eq_true in Hin.
      by rewrite Hp in Hin.
  - left. split; [done|]. intros _ H. apply bool_decide_eq_false in Hin. done.
Qed.

Section Closure.
Variables (items : list Item) (root : string) (inc snap empty : gset string).

Lemma markNested_fold_sound : forall (l : list Item) ids foundMore,
  (forall item, item ∈ l -> item ∈ items) ->
  soundIds items root inc snap empty ids ->
  soundIds items root inc snap empty (fold_left markNested l (ids, foundMore)).1.
Proof.
  induction l as [|item l IH]; intros ids foundMore Hsub Hsound; [done|].
  cbn [fold_left].
  destruct (markNested_cases ids foundMore item) as [[-> _]|[-> (p & Hp & Hpne & Hin)]];
    (apply IH; [set_solver|]); [done|].
  intros x Hx. apply elem_of_union in Hx as [Hx|Hx]; [|auto].
  apply elem_of_singleton in Hx as ->.
  apply (removable_nested _ _ _ _ _ item p); auto.
  apply Hsub. left.
Qed.

Lemma markNested_fold_grows : forall (l : list Item) (ids : gset string) foundMore,
  ids ⊆ (fold_left markNested l (ids, foundMore)).1.
Proof.
  induction l as [|item l IH]; intros ids foundMore; [done|].
  cbn [fold_left].
  destruct (markNested_cases ids foundMore item) as [[-> _]|[-> _]]; [apply IH|].
  etrans; [|apply IH]. set_solver.
Qed.

(** A pass that finds nothing leaves the set as it is, and the set is
    closed over the records it scanned. *)
Lemma markNested_fold_nothing : forall (l : list Item) ids foundMore ids',
  fold_left markNested l (ids, foundMore) = (ids', false) ->
  foundMore = false /\ ids' = ids /\ closedUnderParent l ids.
Proof.
  induction l as [|item l IH]; intros ids foundMore ids' Hrun.
  - injection Hrun as <- <-. repeat split. intros item Hin. by apply elem_of_nil in Hin.
  - cbn [fold_left] in Hrun.
    destruct (markNested_cases ids foundMore item) as [[Heq Hitem]|[Heq _]];
      rewrite Heq in Hrun.
    + apply IH in Hrun as (-> & -> & Hclosed). repeat split.
      intros i Hin Htruthy Hparent.
      apply elem_of_cons in Hin as [->|Hin]; [by apply Hitem|by apply Hclosed].
    + apply IH in Hrun as ([=] & _).
Qed.

Lemma markNestedLoop_spec : forall budget ids foundMore iterations ids' iterations',
  markNestedLoop items budget ids foundMore iterations = (ids', iterations') ->
  soundIds items root inc snap empty ids ->
  (foundMore = false -> closedUnderParent items ids) ->
  ids ⊆ ids'
  /\ soundIds items root inc snap empty ids'
  /\ (iterations' < iterations + budget -> closedUnderParent items ids').
Proof.
  induction budget as [|budget IH];
    intros ids foundMore iterations ids' iterations' Hrun Hsound Hclosed;
    simpl in Hrun.
  - injection Hrun as <- <-. repeat split; auto. lia.
  - destruct foundMore.
    + destruct (markNestedPass items ids) as [ids1 found1] eqn:Hpass.
      unfold markNestedPass in Hpass.
      apply IH in Hrun as (Hsub & Hsound' & Hclosed').
      * repeat split; auto; [|intros; apply Hclosed'; lia].
        etrans; [|exact Hsub].
        pose proof (markNested_fold_grows items ids false) as H.
        by rewrite Hpass in H.
      * pose proof (markNested_fold_sound items ids false) as H.
        rewrite Hpass in H. apply H; auto.
      * intros ->. apply markNested_fold_nothing in Hpass as (_ & -> & H). exact H.
    + injection Hrun as <- <-. repeat split; auto.
Qed.

Lemma closed_complete (ids : gset string) :
  markDirectChildren items root inc snap empty ⊆ ids ->
  closedUnderParent items ids ->
  forall x, Removable items root inc snap empty x -> x ∈ ids.
Proof.
  intros Hdirect Hclosed x Hx.
  induction Hx as [item Hin Hp Hm | item p Hin Hp Hpne _ IH].
  - apply Hdirect, markDirectChildren_spec. eauto.
  - apply Hclosed; auto.
    + apply truthyStr_true. eauto.
    + by rewrite Hp.
Qed.

Lemma idsToRemove_spec config ids iterations :
  idsToRemove config items root inc snap empty = (ids, iterations) ->
  soundIds items root inc snap empty ids
  /\ (iterations < maxParentTraversalDepth config ->
      forall x, Removable items root inc snap empty x -> x ∈ ids).
Proof.
  unfold idsToRemove. intros Hrun.
  apply markNestedLoop_spec in Hrun as (Hsub & Hsound & Hclosed).
  - split; [exact Hsound|]. intros Hlt. apply closed_complete; auto.
  - intros x Hx. apply markDirectChildren_spec in Hx as (item & Hin & <- & Hp & Hm).
    by apply removable_direct.
  - discriminate.
Qed.

Lemma RemovableWithin_Removable k x :
  RemovableWithin items root inc snap empty k x ->
  Removable items root inc snap empty x.
Proof.
  induction 1 as [k item Hin Hp Hm | k item p Hin Hp Hpne _ IH].
  - by apply removable_direct.
  - by apply (removable_nested _ _ _ _ _ item p).
Qed.

Lemma RemovableWithin_mono k k' x :
  k <= k' ->
  RemovableWithin items root inc snap empty k x ->
  RemovableWithin items root inc snap empty k' x.
Proof.
  intros Hle H. revert k' Hle.
  induction H as [k item Hin Hp Hm | k item p Hin Hp Hpne _ IH]; intros k' Hle.
  - by apply within_direct.
  - destruct k' as [|k']; [lia|].
    apply (within_nested _ _ _ _ _ k' item p); auto. apply IH. lia.
Qed.

(** A pass marks every record whose parent was marked before the pass. *)
Lemma markNested_fold_children : forall (l : list Item) (ids : gset string) foundMore
    item,
  item ∈ l -> truthyStr (parentId item) = true ->
  default "" (parentId item) ∈ ids ->
  _id item ∈ (fold_left markNested l (ids, foundMore)).1.
Proof.
  induction l as [|x l IH]; intros ids foundMore item Hin Htruthy Hparent.
  - by apply elem_of_nil in Hin.
  - cbn [fold_left]. apply elem_of_cons in Hin as [->|Hin].
    + destruct (markNested_cases ids foundMore x) as [[-> Hid]|[-> _]].
      * apply markNested_fold_grows. by apply Hid.
      * apply markNested_fold_grows. set_solver.
    + destruct (markNested_cases ids foundMore x) as [[-> _]|[-> _]].
      * by apply IH.
      * apply IH; auto. set_solver.
Qed.

(** A pass over a set that holds every id to remove, and only such ids,
    finds nothing. *)
Lemma markNested_fold_complete : forall (l : list Item) (ids : gset string) foundMore,
  (forall item, item ∈ l -> item ∈ items) ->
  soundIds items root inc snap empty ids ->
  (forall x, Removable items root inc snap empty x -> x ∈ ids) ->
  fold_left markNested l (ids, foundMore) = (ids, foundMore).
Proof.
  induction l as [|x l IH]; intros ids foundMore Hsub Hsound Hcomplete; [done|].
  cbn [fold_left].
  assert (markNested (ids, foundMore) x = (ids, foundMore)) as ->.
  { unfold markNested.
    destruct (truthyStr (parentId x)) eqn:Htruthy; [|done].
    destruct (bool_decide (default "" (parentId x) ∈ ids)) eqn:Hparent; [|done].
    apply bool_decide_eq_true in Hparent.
    apply truthyStr_true in Htruthy as (p & Hp & Hpne). rewrite Hp in Hparent.
    rewrite bool_decide_eq_true_2; [done|].
    apply Hcomplete, (removable_nested _ _ _ _ _ x p); auto.
    apply Hsub. left. }
  apply IH; auto. intros item Hin. apply Hsub. by right.
Qed.

(** After the passes, the ids of the first levels are marked: one level
    per pass at least, and all of them when a pass found nothing. *)
Lemma markNestedLoop_levels : forall budget ids foundMore iterations ids' iterations',
  markNestedLoop items budget ids foundMore iterations = (ids', iterations') ->
  (forall x, RemovableWithin items root inc snap empty iterations x -> x ∈ ids) ->
  (foundMore = false -> closedUnderParent items ids) ->
  forall x, RemovableWithin items root inc snap empty (iterations + budget) x -> x ∈ ids'.
Proof.
  induction budget as [|budget IH];
    intros ids foundMore iterations ids' iterations' Hrun Hlevels Hclosed;
    simpl in Hrun.
  - injection Hrun as <- <-. by rewrite Nat.add_0_r.
  - destruct foundMore.
    + destruct (markNestedPass items ids) as [ids1 found1] eqn:Hpass.
      unfold markNestedPass in Hpass.
      replace (iterations + S budget) with (S iterations + budget) by lia.
      apply (IH _ _ _ _ _ Hrun).
      * intros x Hx.
        assert (ids ⊆ ids1) as Hgrows.
        { pose proof (markNested_fold_grows items ids false)
            as H. by rewrite Hpass in H. }
        inversion Hx as [k item Hin Hp Hm | k item p Hin Hp Hpne Hbelow]; subst.
        -- apply Hgrows, Hlevels. by apply within_direct.
        -- pose proof (markNested_fold_children items ids false item Hin) as H.
           rewrite Hpass in H. apply H.
           ++ apply truthyStr_true. eauto.
           ++ rewrite Hp. by apply Hlevels.
      * intros ->. apply markNested_fold_nothing in Hpass as (_ & -> & H). exact H.
    + injection Hrun as <- <-. intros x Hx.
      apply closed_complete; auto.
      * intros y Hy. apply markDirectChildren_spec in Hy as (item & Hin & <- & Hp & Hm).
        apply Hlevels. by apply within_direct.
      * by apply RemovableWithin_Removable in Hx.
Qed.

(** When every id to remove is at level [d] or less, the loop is left
    after [d + 1] passes at most. *)
Lemma markNestedLoop_iterations d :
  (forall x, Removable items root inc snap empty x ->
             RemovableWithin items root inc snap empty d x) ->
  forall budget ids foundMore iterations ids' iterations',
    markNestedLoop items budget ids foundMore iterations = (ids', iterations') ->
    soundIds items root inc snap empty ids ->
    (forall x, RemovableWithin items root inc snap empty iterations x -> x ∈ ids) ->
    (foundMore = true -> iterations <= d) ->
    iterations' <= Nat.max iterations (S d).
Proof.
  intros Hdepth.
  induction budget as [|budget IH];
    intros ids foundMore iterations ids' iterations' Hrun Hsound Hlevels Hfound;
    simpl in Hrun.
  - injection Hrun as <- <-. lia.
  - destruct foundMore; [|injection Hrun as <- <-; lia].
    specialize (Hfound eq_refl).
    destruct (markNestedPass items ids) as [ids1 found1] eqn:Hpass.
    unfold markNestedPass in Hpass.
    assert (ids ⊆ ids1) as Hgrows.
    { pose proof (markNested_fold_grows items ids false)
        as H. by rewrite Hpass in H. }
    apply IH in Hrun; [lia| | |].
    + pose proof (markNested_fold_sound items ids false)
        as H. rewrite Hpass in H. apply H; auto.
    + intros x Hx.
      inversion Hx as [k item Hin Hp Hm | k item p Hin Hp Hpne Hbelow]; subst.
      * apply Hgrows, Hlevels. by apply within_direct.
      * pose proof (markNested_fold_children items ids false item Hin) as H.
        rewrite Hpass in H. apply H.
        -- apply truthyStr_true. eauto.
        -- rewrite Hp. by apply Hlevels.
    + intros ->. destruct (decide (iterations = d)) as [->|]; [|lia].
      rewrite markNested_fold_complete in Hpass; [by injection Hpass| | |]; auto.
Qed.

Lemma idsToRemove_levels config ids iterations :
  idsToRemove config items root inc snap empty = (ids, iterations) ->
  (forall x, RemovableWithin items root inc snap empty
               (maxParentTraversalDepth config) x -> x ∈ ids)
  /\ forall d,
       (forall x, Removable items root inc snap empty x ->
                  RemovableWithin items root inc snap empty d x) ->
       iterations <= S d.
Proof.
  unfold idsToRemove. intros Hrun.
  assert (forall x, RemovableWithin items root inc snap empty 0 x ->
                    x ∈ markDirectChildren items root inc snap empty) as Hdirect.
  { intros x Hx. inversion Hx; subst. apply markDirectChildren_spec. eauto. }
  split.
  - apply (markNestedLoop_levels _ _ _ _ _ _ Hrun); [done|discriminate].
  - intros d Hdepth.
    apply (markNestedLoop_iterations d Hdepth) in Hrun; [lia| |done|lia].
    intros x Hx. apply markDirectChildren_spec in Hx as (item & Hin & <- & Hp & Hm).
    by apply removable_direct.
Qed.

End Closure.

Lemma filter_length_complement {A} (P : A -> Prop) `{forall x, Decision (P x)}
    (l : list A) :
  length l - length (filter (fun x => ~ P x) l) = length (filter P l).
Proof.
  assert (length (filter P l) + length (filter (fun x => ~ P x) l) = length l); [|lia].
  induction l as [|x l IH]; [done|].
  rewrite !filter_cons. destruct (decide (P x)).
  - rewrite decide_False by tauto. simpl. lia.
  - rewrite decide_True by tauto. simpl. lia.
Qed.

(** C2 (amended). [removeManagedSlotItems] drops exactly the records
    whose id is in the set [ids] it has marked, keeps the other records in
    their order, and returns the number of dropped records. Every marked id
    is the id of a direct child of the equipment container in a managed
    slot or of a record below a marked one. Whatever the order of the
    records, the direct children in a managed slot are marked, and so is
    every record at most [maxParentTraversalDepth] levels below one of
    them. When the loop ends because a pass adds nothing (no warning is
    logged), the marked ids are all of those: every transitive descendant
    is dropped; this is so whenever the records to drop lie [d] levels
    deep at most with [d + 1 < maxParentTraversalDepth]. When the
    iteration cap is hit, one warning is logged, the call still returns,
    and only the descendants found so far are dropped. *)
Theorem removeManagedSlotItems_spec config items profileEquipmentId
    includedSlots snapshotSlots emptySlots :
  let '(items', removedCount, log) :=
    removeManagedSlotItems config items profileEquipmentId
      includedSlots snapshotSlots emptySlots in
  exists ids : gset string,
    items' = filter (fun item => _id item ∉ ids) items
    /\ removedCount = length (filter (fun item => _id item ∈ ids) items)
    /\ (forall x, x ∈ ids ->
          Removable items profileEquipmentId includedSlots snapshotSlots emptySlots x)
    /\ (forall item,
          item ∈ items -> parentId item = Some profileEquipmentId ->
          isSlotManaged (default "" (slotId item)) includedSlots snapshotSlots
            emptySlots = true ->
          _id item ∈ ids)
    /\ (forall x,
          RemovableWithin items profileEquipmentId includedSlots snapshotSlots
            emptySlots (maxParentTraversalDepth config) x ->
          x ∈ ids)
    /\ (log = [] ->
        forall x,
          Removable items profileEquipmentId includedSlots snapshotSlots emptySlots x ->
          x ∈ ids)
    /\ (forall d,
          (forall x,
             Removable items profileEquipmentId includedSlots snapshotSlots
               emptySlots x ->
             RemovableWithin items profileEquipmentId includedSlots snapshotSlots
               emptySlots d x) ->
          S d < maxParentTraversalDepth config -> log = [])
    /\ (log = [] \/ log = [LogWarning MaxIterationsReached]).
Proof.
  unfold removeManagedSlotItems.
  destruct (idsToRemove _ _ _ _ _ _) as [ids iterations] eqn:Hids.
  destruct (compactLoop _ _ _ _ _) as [rewritten writeIndex] eqn:Hcompact.
  exists ids.
  pose proof (idsToRemove_levels _ _ _ _ _ _ _ _ Hids) as [Hlevels Hpasses].
  apply idsToRemove_spec in Hids as [Hsound Hcomplete].
  apply (compactLoop_filter _ items) in Hcompact; try done.
  assert (take writeIndex rewritten = filter (fun item => _id item ∉ ids) items) as ->.
  { rewrite Hcompact. apply list_filter_iff. intros item.
    rewrite negb_True, bool_decide_spec. done. }
  split_and!; auto.
  - apply (filter_length_complement (fun item => _id item ∈ ids)).
  - intros item Hin Hparent Hmanaged. apply Hlevels. by apply within_direct.
  - intros Hlog. apply Hcomplete.
    destruct (Nat.leb_spec (maxParentTraversalDepth config) iterations); [done|lia].
  - intros d Hdepth Hlt. apply Hpasses in Hdepth.
    destruct (Nat.leb_spec (maxParentTraversalDepth config) iterations); [lia|done].
  - case_match; auto.
Qed.

Lemma nestItem_in_deepNest n k : k <= n -> nestItem k ∈ deepNest n.
Proof.
  intros Hle. unfold deepNest. right.
  apply list_elem_of_fmap_2, elem_of_reverse, elem_of_seq. lia.
Qed.

Lemma nestId_nonEmpty k : nestId k <> "".
Proof. unfold nestId. discriminate. Qed.

(** Every container of the nest is below the holster. *)
Lemma deepNest_removable n k :
  k <= n ->
  Removable (deepNest n) "profile_equip" {[ "holster" ]} ∅ ∅ (nestId k).
Proof.
  induction k as [|k IH]; intros Hle.
  - apply (removable_direct _ _ _ _ _ (nestItem 0)); [|done|done].
    by apply nestItem_in_deepNest.
  - apply (removable_nested _ _ _ _ _ (nestItem (S k)) (nestId k)); [|done| |].
    + by apply nestItem_in_deepNest.
    + apply nestId_nonEmpty.
    + apply IH. lia.
Qed.

(** C2, as stated, fails when the iteration cap is hit. With the default
    cap of 20 passes and a nest of 22 containers in the holster, stored
    innermost first, every pass finds one more level; the innermost
    container "c21" is a transitive descendant of the removed "c0" and
    survives. *)
Lemma removeManagedSlotItems_cap_leaves_descendant :
  Removable (deepNest 21) "profile_equip" {[ "holster" ]} ∅ ∅ (nestId 21)
  /\ removeManagedSlotItems DEFAULT_CONFIG (deepNest 21) "profile_equip"
       {[ "holster" ]} ∅ ∅
     = ([profileEquipment; nestItem 21], 21, [LogWarning MaxIterationsReached]).
Proof.
  split.
  - by apply deepNest_removable.
  - vm_compute. reflexivity.
Qed.

(** ** Adding the snapshot items *)

Lemma createItemFromSnapshot_id snapshotItem profileEquipmentId snapshotEquipmentId
    n newItem n' :
  createItemFromSnapshot snapshotItem profileEquipmentId snapshotEquipmentId n
  = (Normal newItem, n') ->
  _id newItem = _id snapshotItem /\ _tpl newItem = _tpl snapshotItem
  /\ slotId newItem = slotId snapshotItem /\ location newItem = location snapshotItem.
Proof.
  unfold createItemFromSnapshot, bind, ret.
  destruct (truthy (upd snapshotItem)).
  - destruct (deepCloneItemUpd (upd snapshotItem) n) as [[u|e] n1]; intros [= <- <-]; done.
  - intros [= <- <-]. done.
Qed.

Lemma length_filter_cons_bool {A} (f : A -> bool) (x : A) (l : list A) :
  length (filter (fun y => f y) (x :: l))
  = (if f x then 1 else 0) + length (filter (fun y => f y) l).
Proof.
  rewrite filter_cons. destruct (decide (f x)) as [H|H]; destruct (f x); simpl; done.
Qed.

Section Addition.
Variables (profileEquipmentId : string) (snapshotEquipmentId : option string)
          (includedSlots : gset string) (itemRootSlots : gmap string string).

Lemma addSnapshotItem_step st x n st' n' :
  addSnapshotItem profileEquipmentId snapshotEquipmentId includedSlots
    itemRootSlots st x n = (Normal st', n') ->
  AddStep includedSlots itemRootSlots st x st'.
Proof.
  unfold addSnapshotItem.
  destruct (String.eqb (_tpl x) EQUIPMENT_TEMPLATE_ID) eqn:Htpl; simpl.
  { intros [= <- <-]. by apply step_equipment. }
  destruct (nonEmpty (_id x)) eqn:Hid; simpl;
    [|intros [= <- <-]; apply step_missing; [done|];
      unfold reachesSlotCheck; by rewrite Htpl, Hid].
  destruct (nonEmpty (_tpl x)) eqn:Htplne; simpl;
    [|intros [= <- <-]; apply step_missing; [done|];
      unfold reachesSlotCheck; by rewrite Htpl, Hid, Htplne].
  assert (reachesSlotCheck x = true) as Hreach
    by (unfold reachesSlotCheck; by rewrite Htpl, Hid, Htplne).
  fold (outsideIncludedSlots includedSlots itemRootSlots x).
  destruct (outsideIncludedSlots includedSlots itemRootSlots x) eqn:Hout.
  { intros [= <- <-]. by apply step_nonManaged. }
  destruct (bool_decide (_id x ∈ existingItemIds st)) eqn:Hdup.
  { intros [= <- <-]. apply bool_decide_eq_true in Hdup. by apply step_duplicate. }
  apply bool_decide_eq_false in Hdup.
  unfold bind, ret.
  destruct (createItemFromSnapshot x profileEquipmentId snapshotEquipmentId n)
    as [[newItem|e] n1] eqn:Hcreate; [|discriminate].
  intros [= <- <-].
  apply createItemFromSnapshot_id in Hcreate as (Hnew & _).
  rewrite Hnew. by apply step_added.
Qed.

(** The effect of one turn on the variables of the loop. *)
Lemma AddStep_frame st x st1 :
  AddStep includedSlots itemRootSlots st x st1 ->
  exists a0,
    inventory st1 = inventory st ++ a0
    /\ existingItemIds st1 = list_to_set (_id <$> a0) ∪ existingItemIds st
    /\ added st1 = added st + length a0
    /\ (duplicates st <= duplicates st1)
    /\ nonManaged st1
       = nonManaged st
         + (if reachesSlotCheck x && outsideIncludedSlots includedSlots itemRootSlots x
            then 1 else 0)
    /\ (a0 = [] \/
        exists newItem, a0 = [newItem] /\ _id newItem = _id x
          /\ (_id x ∉ existingItemIds st) /\ reachesSlotCheck x = true
          /\ outsideIncludedSlots includedSlots itemRootSlots x = false).
Proof.
  intros Hstep.
  destruct Hstep as [Htpl|Htpl Hreach|Hreach Hout|Hreach Hout Hdup
                     |newItem Hreach Hout Hnew Hid].
  - exists []. rewrite app_nil_r.
    assert (reachesSlotCheck x = false) as ->
      by (unfold reachesSlotCheck; by rewrite Htpl).
    simpl. repeat split; auto with lia. set_solver.
  - exists []. simpl. rewrite app_nil_r, Hreach. simpl.
    repeat split; auto with lia. set_solver.
  - exists []. simpl. rewrite app_nil_r, Hreach, Hout. simpl.
    repeat split; auto with lia. set_solver.
  - exists []. simpl. rewrite app_nil_r, Hreach, Hout. simpl.
    repeat split; auto with lia. set_solver.
  - exists [newItem]. simpl. rewrite Hreach, Hout, Hid. simpl.
    repeat split; auto with lia; [set_solver|]. right. eauto 10.
Qed.

Lemma addLoop_spec : forall snapshotItems st n final err n',
  addLoop profileEquipmentId snapshotEquipmentId includedSlots itemRootSlots
    snapshotItems st n = (final, err, n') ->
  exists appended,
    inventory final = inventory st ++ appended
    /\ existingItemIds final
       = list_to_set (_id <$> appended) ∪ existingItemIds st
    /\ NoDup (_id <$> appended)
    /\ (forall a, a ∈ appended ->
          (_id a ∉ existingItemIds st)
          /\ exists x, x ∈ snapshotItems /\ _id a = _id x /\ reachesSlotCheck x = true
               /\ outsideIncludedSlots includedSlots itemRootSlots x = false)
    /\ added final = added st + length appended
    /\ (duplicates st <= duplicates final)
    /\ (nonManaged st <= nonManaged final)
    /\ (err = None ->
        nonManaged final
        = nonManaged st
          + length (filter (fun x => reachesSlotCheck x
                              && outsideIncludedSlots includedSlots itemRootSlots x)
                      snapshotItems)).
Proof.
  induction snapshotItems as [|x snapshotItems IH]; intros st n final err n' Hrun; simpl in Hrun.
  - injection Hrun as <- <- <-. exists []. rewrite app_nil_r. simpl.
    split_and!; auto with lia; try apply NoDup_nil_2; set_solver.
  - destruct (addSnapshotItem _ _ _ _ st x n) as [[st1|e] n1] eqn:Hstep.
    + apply addSnapshotItem_step, AddStep_frame in Hstep
        as (a0 & Hinv0 & Hex0 & Hadd0 & Hdup0 & Hnm0 & Ha0).
      apply IH in Hrun
        as (app1 & Hinv1 & Hex1 & Hnd1 & Happ1 & Hadd1 & Hdup1 & Hnm1 & Hcount1).
      exists (a0 ++ app1).
      rewrite Hinv1, Hinv0, Hex1, Hex0, Hadd1, Hadd0, fmap_app, length_app.
      rewrite list_to_set_app_L, <- !app_assoc.
      assert (forall a, a ∈ app1 -> _id a ∉ (_id <$> a0)) as Hdisj.
      { intros a Ha Hin. destruct (Happ1 a Ha) as [Hfresh _].
        apply Hfresh. rewrite Hex0. apply elem_of_union_l.
        by apply elem_of_list_to_set. }
      split_and!; try lia.
      * done.
      * set_solver.
      * apply NoDup_app. split_and!; [|intros i Hi Hi'|done].
        -- destruct Ha0 as [->|(newItem & -> & _)]; [constructor|].
           apply NoDup_singleton.
        -- apply list_elem_of_fmap in Hi' as (a & -> & Ha). by apply (Hdisj a).
      * intros a Ha. apply elem_of_app in Ha as [Ha|Ha].
        -- destruct Ha0 as [->|(newItem & -> & Hid & Hfresh & Hreach & Hout)];
             [by apply elem_of_nil in Ha|].
           apply list_elem_of_singleton in Ha as ->. rewrite Hid.
           split; [done|]. exists x. split; [left|]; auto.
        -- destruct (Happ1 a Ha) as [Hfresh (y & Hy & ?)]. split.
           ++ rewrite Hex0 in Hfresh. set_solver.
           ++ exists y. split; [by right|]; auto.
      * intros Herr.
        rewrite (length_filter_cons_bool
                   (fun x => reachesSlotCheck x
                             && outsideIncludedSlots includedSlots itemRootSlots x)).
        rewrite (Hcount1 Herr), Hnm0. lia.
    + injection Hrun as <- <- <-. exists []. rewrite app_nil_r. simpl.
      split_and!; auto with lia; try apply NoDup_nil_2; try discriminate;
        set_solver.
Qed.

End Addition.

Lemma collectItemIds_fold : forall (l : list Item) (ids : gset string) x,
  x ∈ fold_left collectItemId l ids
  <-> x ∈ ids \/ exists item, item ∈ l /\ _id item = x /\ nonEmpty x = true.
Proof.
  induction l as [|item l IH]; intros ids x; cbn [fold_left].
  - split; [auto|]. intros [H|(item & Hin & _)]; [done|]. by apply elem_of_nil in Hin.
  - rewrite IH. unfold collectItemId. split.
    + intros [H|(i & Hin & Hid & Hne)].
      * destruct (nonEmpty (_id item)) eqn:Hitem; [|auto].
        apply elem_of_union in H as [H|H]; [|auto].
        apply elem_of_singleton in H as ->. right. exists item. split; [left|]; auto.
      * right. exists i. split; [by right|]; auto.
    + intros [H|(i & Hin & Hid & Hne)].
      * left. destruct (nonEmpty (_id item)); set_solver.
      * apply elem_of_cons in Hin as [->|Hin]; [|right; eauto].
        left. rewrite Hid, Hne. set_solver.
Qed.

Lemma collectItemIds_spec inventoryItems x :
  x ∈ collectItemIds inventoryItems
  <-> exists item, item ∈ inventoryItems /\ _id item = x /\ nonEmpty x = true.
Proof.
  unfold collectItemIds. rewrite collectItemIds_fold. set_solver.
Qed.

Lemma addLoop_app profileEquipmentId snapshotEquipmentId includedSlots itemRootSlots :
  forall l1 l2 st n,
    addLoop profileEquipmentId snapshotEquipmentId includedSlots itemRootSlots
      (l1 ++ l2) st n
    = match addLoop profileEquipmentId snapshotEquipmentId includedSlots
              itemRootSlots l1 st n with
      | (st1, None, n1) =>
          addLoop profileEquipmentId snapshotEquipmentId includedSlots
            itemRootSlots l2 st1 n1
      | thrown => thrown
      end.
Proof.
  induction l1 as [|x l1 IH]; intros l2 st n; simpl; [done|].
  destruct (addSnapshotItem _ _ _ _ st x n) as [[st1|e] n1]; [apply IH|done].
Qed.

(** After any number of turns, the ids of the collection are registered
    in [existingItemIds]. *)
Lemma addSnapshotItems_idsRegistered inventoryItems snapshotItems
    profileEquipmentId snapshotEquipmentId includedSlots itemRootSlots n st err n' :
  addSnapshotItems inventoryItems snapshotItems profileEquipmentId
    snapshotEquipmentId includedSlots itemRootSlots
    (collectItemIds inventoryItems) n = (st, err, n') ->
  idsRegistered st.
Proof.
  unfold addSnapshotItems. intros Hrun.
  apply addLoop_spec in Hrun as (appended & Hinv & Hex & _). simpl in Hinv, Hex.
  intros item Hin Hne. rewrite Hex. rewrite Hinv in Hin.
  apply elem_of_app in Hin as [Hin|Hin].
  - apply elem_of_union_r, collectItemIds_spec. eauto.
  - apply elem_of_union_l, elem_of_list_to_set. by apply list_elem_of_fmap_2.
Qed.

Lemma reachesSlotCheck_nonEmpty x :
  reachesSlotCheck x = true ->
  nonEmpty (_id x) = true /\ String.eqb (_tpl x) EQUIPMENT_TEMPLATE_ID = false.
Proof.
  unfold reachesSlotCheck. intros H.
  apply andb_true_iff in H as [H _]. apply andb_true_iff in H as [H1 H2].
  apply negb_true_iff in H1. done.
Qed.

(** C3 (amended). When [addSnapshotItems] comes to a snapshot record
    whose id is already in the collection (from the profile, or appended
    earlier in the same run), the record is not appended, and no record
    with that id is appended later: the collection grows by records with
    other ids only. In a run that completes, the record is counted in
    [duplicates] provided it reaches the duplicate check, that is, unless
    an earlier check has skipped it (the equipment-container type, a
    missing id or type, or a known root slot outside a non-empty
    [includedSlots], which counts it in [nonManaged] instead). *)
Theorem addSnapshotItems_never_duplicates inventoryItems before snapshotItem after
    profileEquipmentId snapshotEquipmentId includedSlots itemRootSlots
    n st n1 final err n' :
  addSnapshotItems inventoryItems before profileEquipmentId snapshotEquipmentId
    includedSlots itemRootSlots (collectItemIds inventoryItems) n = (st, None, n1) ->
  (exists item, item ∈ inventory st /\ _id item = _id snapshotItem) ->
  addSnapshotItems inventoryItems (before ++ snapshotItem :: after)
    profileEquipmentId snapshotEquipmentId includedSlots itemRootSlots
    (collectItemIds inventoryItems) n = (final, err, n') ->
  (exists appended,
      inventory final = inventory st ++ appended
      /\ forall item, item ∈ appended -> _id item <> _id snapshotItem)
  /\ (err = None ->
      reachesSlotCheck snapshotItem = true ->
      outsideIncludedSlots includedSlots itemRootSlots snapshotItem = false ->
      duplicates st < duplicates final).
Proof.
  intros Hbefore (item & Hitem & Hid) Hrun.
  pose proof (addSnapshotItems_idsRegistered _ _ _ _ _ _ _ _ _ _ Hbefore) as Hreg.
  unfold addSnapshotItems in Hbefore, Hrun.
  rewrite addLoop_app, Hbefore in Hrun.
  split.
  - apply addLoop_spec in Hrun as (appended & Hinv & _ & _ & Happ & _).
    exists appended. split; [done|].
    intros a Ha Heq. destruct (Happ a Ha) as [Hfresh (y & _ & Hy & Hreach & _)].
    apply reachesSlotCheck_nonEmpty in Hreach as [Hne _].
    apply Hfresh. rewrite Heq, <- Hid. apply Hreg; [done|].
    by rewrite Hid, <- Heq, Hy.
  - intros -> Hreach Hout. simpl in Hrun.
    destruct (addSnapshotItem _ _ _ _ st snapshotItem n1) as [[st1|e] n2] eqn:Hstep.
    + apply addLoop_spec in Hrun as (_ & _ & _ & _ & _ & _ & Hdup & _).
      apply addSnapshotItem_step in Hstep.
      destruct (reachesSlotCheck_nonEmpty _ Hreach) as [Hne Htpl].
      destruct Hstep as [Htpl'|_ Hreach'|_ Hout'|_ _ _|newItem _ _ Hfresh _];
        simpl in Hdup; try congruence; [lia|].
      exfalso. apply Hfresh. rewrite <- Hid. apply Hreg; [done|]. by rewrite Hid.
    + discriminate Hrun.
Qed.

(** C3, as stated, fails for a record that an earlier check skips. The
    backpack of the snapshot has the id of a record of the profile, but
    its root slot is outside [includedSlots]: it is counted in
    [nonManagedSkipped], and [duplicatesSkipped] stays 0. *)
Lemma duplicate_in_unmanaged_slot_not_counted :
  (exists item, item ∈ packProfile /\ _id item = "pack1")
  /\ (exists x, x ∈ items (castSnapshot packSnapshot) /\ _id x = "pack1")
  /\ result (tryRestore DEFAULT_CONFIG (hostWith packSnapshot) ∅ 0 "session123"
               (Some packProfile))
     = succeeded 0 0 1.
Proof.
  split_and!.
  - eexists. split; [right; left|reflexivity].
  - eexists. split; [right; left|reflexivity].
  - vm_compute. reflexivity.
Qed.

(** The theorem at the duplicate of the test suite. *)
Lemma addSnapshotItems_never_duplicates_witness :
  duplicates weaponStateBefore < duplicates weaponStateAfter.
Proof.
  apply (addSnapshotItems_never_duplicates weaponProfile [snapshotEquipment]
           snapshotWeapon [] "profile_equip" (Some "equip1")
           {[ "firstprimaryweapon" ]} weaponRootSlots 0
           weaponStateBefore 0 weaponStateAfter None 0).
  - vm_compute. reflexivity.
  - eexists. split; [right; left|reflexivity].
  - vm_compute. reflexivity.
  - reflexivity.
  - vm_compute. reflexivity.
  - vm_compute. reflexivity.
Defined.

Lemma outsideIncludedSlots_spec includedSlots itemRootSlots x :
  0 < size includedSlots ->
  outsideIncludedSlots includedSlots itemRootSlots x = true
  <-> exists slot, itemRootSlots !! _id x = Some slot /\ slot <> ""
                   /\ slot ∉ includedSlots.
Proof.
  intros Hsize. unfold outsideIncludedSlots.
  rewrite (proj2 (Nat.ltb_lt _ _) Hsize), andb_true_r, andb_true_iff, truthyStr_true.
  rewrite negb_true_iff, bool_decide_eq_false. split.
  - intros [(slot & Hslot & Hne) Hout]. rewrite Hslot in Hout. eauto.
  - intros (slot & Hslot & Hne & Hout). rewrite Hslot. eauto.
Qed.

(** C5 (amended). In a run of [addSnapshotItems] with a non-empty
    [includedSlots], every record that is appended has no known root slot
    or a root slot in [includedSlots]. No record that passes the first two
    checks (not of the equipment-container type, id and type present) and
    whose root slot is known and outside [includedSlots] is appended, and
    in a run that completes [nonManaged] is the number of these records. *)
Theorem addSnapshotItems_respects_includedSlots inventoryItems snapshotItems
    profileEquipmentId snapshotEquipmentId includedSlots itemRootSlots
    existingItemIds n final err n' :
  addSnapshotItems inventoryItems snapshotItems profileEquipmentId
    snapshotEquipmentId includedSlots itemRootSlots existingItemIds n
  = (final, err, n') ->
  0 < size includedSlots ->
  exists appended,
    inventory final = inventoryItems ++ appended
    /\ (forall item slot,
          item ∈ appended -> itemRootSlots !! _id item = Some slot -> slot <> "" ->
          slot ∈ includedSlots)
    /\ (forall x slot,
          x ∈ snapshotItems -> reachesSlotCheck x = true ->
          itemRootSlots !! _id x = Some slot -> slot <> "" -> slot ∉ includedSlots ->
          forall item, item ∈ appended -> _id item <> _id x)
    /\ (err = None ->
        nonManaged final
        = length (filter (fun x => reachesSlotCheck x
                            && outsideIncludedSlots includedSlots itemRootSlots x)
                    snapshotItems)).
Proof.
  unfold addSnapshotItems. intros Hrun Hsize.
  apply addLoop_spec in Hrun as (appended & Hinv & _ & _ & Happ & _ & _ & _ & Hcount).
  simpl in Hinv, Hcount.
  assert (forall a, a ∈ appended ->
            forall slot, itemRootSlots !! _id a = Some slot -> slot <> "" ->
                         slot ∈ includedSlots) as Hslots.
  { intros a Ha slot Hslot Hne.
    destruct (Happ a Ha) as [_ (y & _ & Hid & _ & Hout)].
    destruct (decide (slot ∈ includedSlots)) as [|Hnotin]; [done|].
    assert (outsideIncludedSlots includedSlots itemRootSlots y = true) as Hout'
      by (apply outsideIncludedSlots_spec; [done|]; rewrite <- Hid; eauto).
    congruence. }
  exists appended. split_and!; [done| | |done].
  - intros item slot Ha. by apply Hslots.
  - intros x slot _ _ Hslot Hne Hout item Ha Hid.
    apply Hout, (Hslots item Ha); [|done]. by rewrite Hid.
Qed.

(** The theorem at the snapshot of the test suite that holds a weapon for
    the managed slot and a backpack for an unmanaged one. *)
Lemma addSnapshotItems_respects_includedSlots_witness :
  exists appended,
    [profileEquipment;
     mkItem "weapon1" "weapon_tpl" (Some "profile_equip") (Some "FirstPrimaryWeapon")
            None JUndefined]
    = [profileEquipment] ++ appended.
Proof.
  destruct (addSnapshotItems_respects_includedSlots [profileEquipment]
              [snapshotEquipment; snapshotWeapon; snapshotPack]
              "profile_equip" (Some "equip1") {[ "firstprimaryweapon" ]}
              {[ "weapon1" := "firstprimaryweapon"; "backpack1" := "backpack" ]}
              (collectItemIds [profileEquipment]) 0
              (mkAddState
                 [profileEquipment;
                  mkItem "weapon1" "weapon_tpl" (Some "profile_equip")
                         (Some "FirstPrimaryWeapon") None JUndefined]
                 {[ "weapon1"; "profile_equip" ]} 1 0 1 [])
              None 0) as (appended & Hinv & _).
  - vm_compute. reflexivity.
  - vm_compute. lia.
  - exists appended. exact Hinv.
Defined.

(** C5, as stated, fails for a record of the equipment-container type.
    The second container of the snapshot has the known root slot
    "backpack", which is outside [includedSlots]; the loop skips it with
    its first check and does not count it. *)
Lemma equipment_record_outside_slots_not_counted :
  (buildRootSlotMap DEFAULT_CONFIG
     (items (castSnapshot nestedEquipmentSnapshot)) (Some "equip1")
     (buildItemLookup (items (castSnapshot nestedEquipmentSnapshot)))).1
    !! "equip2" = Some "backpack"
  /\ ("backpack" ∉ lowerSet (includedSlots (castSnapshot nestedEquipmentSnapshot)))
  /\ result (tryRestore DEFAULT_CONFIG (hostWith nestedEquipmentSnapshot) ∅ 0
               "session123" (Some [profileEquipment]))
     = succeeded 0 0 0.
Proof.
  split_and!.
  - vm_compute. reflexivity.
  - apply (bool_decide_unpack _). vm_compute. exact I.
  - vm_compute. reflexivity.
Qed.

(** ** Deletion of the snapshot file *)

Lemma deletionRequested_app (a b : list Event) :
  deletionRequested (a ++ b) = deletionRequested a || deletionRequested b.
Proof. apply existsb_app. Qed.

Lemma deleteSnapshotFile_requested env :
  existsSync env = true -> deletionRequested (deleteSnapshotFile env) = true.
Proof.
  unfold deleteSnapshotFile. intros ->. by destruct (unlinkSync env).
Qed.

Lemma validateSnapshotVersion_log snapshot :
  deletionRequested (validateSnapshotVersion snapshot).2 = false.
Proof.
  unfold validateSnapshotVersion, validateSnapshotVersionAgainst.
  repeat case_match; reflexivity.
Qed.

Lemma traceRootSlot_log config item equipmentId itemLookup :
  deletionRequested (traceRootSlot config item equipmentId itemLookup).2 = false.
Proof.
  destruct (traceRootSlot config item equipmentId itemLookup) as [r log] eqn:Htrace.
  apply traceLoop_shape in Htrace as [->|[_ [w ->]]]; reflexivity.
Qed.

Lemma buildRootSlotMap_log config snapshotItems snapshotEquipmentId itemLookup :
  deletionRequested
    (buildRootSlotMap config snapshotItems snapshotEquipmentId itemLookup).2 = false.
Proof.
  unfold buildRootSlotMap.
  assert (forall l (acc : gmap string string * list Event),
             deletionRequested acc.2 = false ->
             deletionRequested
               (fold_left (recordRootSlot config snapshotEquipmentId itemLookup) l acc).2
             = false) as Hfold; [|by apply Hfold].
  induction l as [|item l IH]; intros [slotMap log] Hacc; cbn [fold_left]; [done|].
  apply IH. unfold recordRootSlot.
  destruct (negb (nonEmpty (_id item))); [done|].
  pose proof (traceRootSlot_log config item snapshotEquipmentId itemLookup) as Htrace.
  destruct (traceRootSlot config item snapshotEquipmentId itemLookup) as [r warnings].
  simpl in Hacc, Htrace.
  destruct (truthyStr r); simpl; by rewrite deletionRequested_app, Hacc, Htrace.
Qed.

Lemma removeManagedSlotItems_log config inventoryItems profileEquipmentId
    includedSlots snapshotSlots emptySlots :
  deletionRequested
    (removeManagedSlotItems config inventoryItems profileEquipmentId
       includedSlots snapshotSlots emptySlots).2 = false.
Proof.
  unfold removeManagedSlotItems.
  destruct (idsToRemove _ _ _ _ _ _) as [ids iterations].
  destruct (compactLoop _ _ _ _ _) as [rewritten writeIndex].
  cbn [snd]. by case_match.
Qed.

Lemma addLoop_log profileEquipmentId snapshotEquipmentId includedSlots itemRootSlots :
  forall snapshotItems st n final err n',
    addLoop profileEquipmentId snapshotEquipmentId includedSlots itemRootSlots
      snapshotItems st n = (final, err, n') ->
    deletionRequested (warnings st) = false ->
    deletionRequested (warnings final) = false.
Proof.
  induction snapshotItems as [|x snapshotItems IH]; intros st n final err n' Hrun Hst;
    simpl in Hrun.
  - by injection Hrun as <- <- <-.
  - destruct (addSnapshotItem _ _ _ _ st x n) as [[st1|e] n1] eqn:Hstep.
    + apply IH in Hrun; [done|].
      apply addSnapshotItem_step in Hstep. destruct Hstep; simpl; try done.
      by rewrite deletionRequested_app, Hst.
    + by injection Hrun as <- <- <-.
Qed.

Lemma readSnapshotWithRetry_log config env :
  deletionRequested (readSnapshotWithRetry config env).2 = false.
Proof.
  unfold readSnapshotWithRetry. by destruct (readLoop _ _ _).
Qed.

(** Decides a goal on [deletionRequested] of a concatenation of logs from
    the facts on its parts. *)
Ltac deletion :=
  unfold deletionRequested in *; simpl in *;
  rewrite ?existsb_app; simpl;
  repeat match goal with
         | H : existsb isUnlink _ = _ |- _ => rewrite H
         end;
  simpl; rewrite ?orb_true_r, ?orb_false_r; try reflexivity.

(** The snapshot file is deleted by [restoreFromFile] exactly when it
    returns a success or one of the discarding failures. *)
Lemma restoreFromFile_deletion config env inventoryItems n c items' log n' :
  existsSync env = true ->
  restoreFromFile config env inventoryItems n = (c, items', log, n') ->
  deletionRequested log
  = match c with
    | Normal r => deletionExpected r
    | Throw _ => false
    end.
Proof.
  intros Hexists. unfold restoreFromFile.
  pose proof (deleteSnapshotFile_requested env Hexists) as Hdelete.
  destruct (checkFileSize config env) as [err|] eqn:Hsize.
  { intros [= <- <- <- <-]. deletion.
    unfold checkFileSize in Hsize. repeat case_match; by simplify_eq. }
  pose proof (readSnapshotWithRetry_log config env) as Hread.
  destruct (readSnapshotWithRetry config env) as [[snapshotJson|] readLog];
    [|intros [= <- <- <- <-]; exact Hread].
  destruct (JSON_parse env snapshotJson) as [raw|e].
  2: { intros [= <- <- <- <-]. deletion. }
  destruct (validateSnapshot raw) as [err|].
  { intros [= <- <- <- <-]. deletion. }
  pose proof (validateSnapshotVersion_log (castSnapshot raw)) as Hversion.
  destruct (validateSnapshotVersion (castSnapshot raw)) as [compatible versionLog].
  destruct compatible; cbn [negb].
  2: { intros [= <- <- <- <-]. deletion. }
  destruct (negb (truthyStr (findEquipmentId inventoryItems))).
  { intros [= <- <- <- <-]. deletion. }
  destruct (buildSlotSets _ _) as [[included snapSlots] empty].
  pose proof (buildRootSlotMap_log config (items (castSnapshot raw))
                (findEquipmentId (items (castSnapshot raw)))
                (buildItemLookup (items (castSnapshot raw)))) as Htrace.
  destruct (buildRootSlotMap _ _ _ _) as [itemRootSlots traceLog].
  destruct (createInventoryBackup inventoryItems n) as [[backupItems|e] n1].
  2: { intros [= <- <- <- <-]. deletion. by case_match. }
  pose proof (removeManagedSlotItems_log config inventoryItems
                (default "" (findEquipmentId inventoryItems))
                included snapSlots empty) as Hremove.
  destruct (removeManagedSlotItems _ _ _ _ _ _) as [[kept removedCount] removalLog].
  destruct (addSnapshotItems _ _ _ _ _ _ _ _) as [[st err] n2] eqn:Hadd.
  apply addLoop_log in Hadd; [|done].
  destruct err as [e|]; intros [= <- <- <- <-]; deletion; by case_match.
Qed.

(** What [restoreFromFile] returns, stage by stage. *)
Lemma restoreFromFile_stages config env profileItems n :
  let c := (restoreFromFile config env profileItems n).1.1.1 in
  match checkFileSize config env with
  | Some err => c = Normal (failed err)
  | None =>
  match (readSnapshotWithRetry config env).1 with
  | None => c = Normal (failed FailedToReadAfterRetries)
  | Some content =>
  match JSON_parse env content with
  | Throw e => c = Normal (failed (JsonParseError e))
  | Normal raw =>
  match validateSnapshot raw with
  | Some err => c = Normal (failed (ValidationFailed err))
  | None =>
  if negb (validateSnapshotVersion (castSnapshot raw)).1
  then c = Normal (failed VersionIncompatible)
  else if negb (truthyStr (findEquipmentId profileItems))
  then c = Normal (failed NoEquipmentInProfile)
  else
  match createInventoryBackup profileItems n with
  | (Throw e, _) => c = Throw e
  | (Normal _, n1) =>
  match mutationError config (castSnapshot raw) profileItems n1 with
  | Some e => c = Normal (failed (RolledBack e))
  | None => exists r, c = Normal r /\ success r = true
  end end end end end end.
Proof.
  cbv zeta. unfold restoreFromFile, mutationError, restoreFromBackup.
  destruct (checkFileSize config env) as [err|]; [done|].
  destruct (readSnapshotWithRetry config env) as [[content|] readLog]; [|done].
  cbn [fst].
  destruct (JSON_parse env content) as [raw|e]; [|done].
  destruct (validateSnapshot raw); [done|].
  destruct (validateSnapshotVersion (castSnapshot raw)) as [compatible versionLog].
  destruct compatible; cbn [negb fst]; [|done].
  destruct (negb (truthyStr (findEquipmentId profileItems))); [done|].
  destruct (buildSlotSets _ _) as [[included inSnapshot] empty].
  destruct (buildRootSlotMap _ _ _ _) as [rootSlots traceLog].
  destruct (createInventoryBackup profileItems n) as [[backup|e] n1]; [|done].
  cbn [fst].
  destruct (removeManagedSlotItems _ _ _ _ _ _) as [[kept removed] removalLog].
  cbn [fst].
  destruct (addSnapshotItems _ _ _ _ _ _ _ _) as [[st [e|]] n2]; cbn [fst snd]; [done|].
  by eexists.
Qed.

(** C8 (amended). [tryRestore] calls [fs.unlinkSync] on the snapshot file
    exactly in these cases: after a restoration whose mutation phase
    completes (success), and after the size check fails (the file is
    oversized, or its size cannot be read), the content does not parse as
    JSON, the snapshot is structurally invalid, or its version is
    incompatible. In every other case the file is left alone: when the
    call ends before the file is examined, when the file cannot be read
    after all retries, when the profile has no equipment container, when
    the backup cannot be taken, and when an error in the mutation phase
    triggers the rollback. The cases are told apart by what the host
    answers and what the file holds, in the order of the checks; each
    comes with its result. *)
Theorem snapshot_deleted_exactly_when config env rateLimitMap n sessionId inventoryItems :
  let out := tryRestore config env rateLimitMap n sessionId inventoryItems in
  let deleted := deletionRequested (events out) in
  match inventoryItems with
  | None => deleted = false
  | Some profileItems =>
  if negb (reachesSnapshotFile config env rateLimitMap sessionId) then deleted = false
  else
  match checkFileSize config env with
  | Some err => deleted = true /\ result out = failed err
  | None =>
  match (readSnapshotWithRetry config env).1 with
  | None => deleted = false /\ result out = failed FailedToReadAfterRetries
  | Some content =>
  match JSON_parse env content with
  | Throw e => deleted = true /\ result out = failed (JsonParseError e)
  | Normal raw =>
  match validateSnapshot raw with
  | Some err => deleted = true /\ result out = failed (ValidationFailed err)
  | None =>
  if negb (validateSnapshotVersion (castSnapshot raw)).1
  then deleted = true /\ result out = failed VersionIncompatible
  else if negb (truthyStr (findEquipmentId profileItems))
  then deleted = false /\ result out = failed NoEquipmentInProfile
  else
  match createInventoryBackup profileItems n with
  | (Throw e, _) => deleted = false /\ result out = failed (UnexpectedError e)
  | (Normal _, n1) =>
  match mutationError config (castSnapshot raw) profileItems n1 with
  | Some e => deleted = false /\ result out = failed (RolledBack e)
  | None => deleted = true /\ success (result out) = true
  end end end end end end end.
Proof.
  cbv zeta. unfold tryRestore, reachesSnapshotFile.
  destruct (isValidSessionId sessionId); cbn [negb andb]; [|by destruct inventoryItems].
  destruct (checkRateLimit config env sessionId rateLimitMap) as [allowed rateLimitMap'].
  cbn [fst].
  destruct allowed; cbn [negb andb]; [|by destruct inventoryItems].
  destruct inventoryItems as [profileItems|]; [|done].
  destruct (pathInsideSnapshots env); cbn [negb andb]; [|done].
  destruct (existsSync env) eqn:Hexists; cbn [negb]; [|done].
  pose proof (restoreFromFile_stages config env profileItems n) as Hstages.
  cbv zeta in Hstages.
  destruct (restoreFromFile config env profileItems n) as [[[c items'] log] n'] eqn:Hrun.
  apply restoreFromFile_deletion in Hrun; [|done].
  cbn [fst] in Hstages.
  destruct (checkFileSize config env) as [err|] eqn:Hsize.
  { subst c. cbn [events result]. split; [|done]. rewrite Hrun.
    unfold checkFileSize in Hsize. repeat case_match; by simplify_eq. }
  destruct (readSnapshotWithRetry config env).1 as [content|]; [|by subst c].
  destruct (JSON_parse env content) as [raw|e]; [|by subst c].
  destruct (validateSnapshot raw); [by subst c|].
  destruct (negb (validateSnapshotVersion (castSnapshot raw)).1); [by subst c|].
  destruct (negb (truthyStr (findEquipmentId profileItems))); [by subst c|].
  destruct (createInventoryBackup profileItems n) as [[backup|e] n1].
  2: { subst c. cbn [events result]. by rewrite deletionRequested_app, Hrun. }
  destruct (mutationError config (castSnapshot raw) profileItems n1) as [e|];
    [by subst c|].
  destruct Hstages as (r & -> & Hok). cbn [events result].
  split; [|done]. rewrite Hrun. unfold deletionExpected. by rewrite Hok.
Qed.

(** C8, as stated, fails when the size of the snapshot file cannot be
    read: the file is deleted, although it was not judged oversized,
    unparseable, invalid or incompatible, and nothing was restored. *)
Lemma snapshot_deleted_when_stats_unreadable :
  let out := tryRestore DEFAULT_CONFIG hostWithoutStats ∅ 0 "session123"
               (Some packProfile) in
  deletionRequested (events out) = true
  /\ result out = failed CouldNotReadFileStats.
Proof. vm_compute. split; reflexivity. Qed.

(** ** Cloning a state blob *)

Lemma definedPrimitive_spec v :
  definedPrimitive v = true ->
  isUndefined v = false /\ erase v = v /\ locations v = ∅.
Proof. destruct v; simpl; try discriminate; auto. Qed.

Lemma locations_flat_object l (props : gmap string JsValue) :
  map_Forall (fun _ v => definedPrimitive v = true) props ->
  locations (JObj l props) = {[ l ]}.
Proof.
  intros Hprim. simpl.
  assert (map_fold (fun (_ : string) x (acc : gset loc) => locations x ∪ acc) ∅ props
          = ∅) as ->; [|set_solver].
  revert Hprim.
  apply (map_fold_weak_ind
           (fun (r : gset loc) (m : gmap string JsValue) =>
              map_Forall (fun _ v => definedPrimitive v = true) m -> r = ∅)).
  - done.
  - intros k v m r Hk IH Hall.
    apply map_Forall_insert in Hall as [Hv Hall]; [|done].
    apply definedPrimitive_spec in Hv as (_ & _ & ->). rewrite IH by done. set_solver.
Qed.

Lemma erase_flat_object (props : gmap string JsValue) :
  map_Forall (fun _ v => definedPrimitive v = true) props ->
  erase <$> props = props.
Proof.
  intros Hprim. apply map_eq. intros k. rewrite lookup_fmap.
  destruct (props !! k) as [v|] eqn:Hk; [|done]. simpl.
  apply Hprim in Hk. apply definedPrimitive_spec in Hk as (_ & -> & _). done.
Qed.

Lemma lookup_list_to_map_fields {A} (g : string -> A) (fields : list string) k :
  (list_to_map ((fun f => (f, g f)) <$> fields) : gmap string A) !! k
  = if bool_decide (k ∈ fields) then Some (g k) else None.
Proof.
  induction fields as [|f fields IH]; [done|].
  rewrite fmap_cons, list_to_map_cons.
  destruct (decide (f = k)) as [->|Hne].
  - rewrite lookup_insert_eq, bool_decide_eq_true_2; [done|left].
  - rewrite lookup_insert_ne, IH by done.
    destruct (decide (k ∈ fields)).
    + by rewrite !bool_decide_eq_true_2; [| right |].
    + rewrite !bool_decide_eq_false_2; [done| |done].
      intros Hin. apply elem_of_cons in Hin as [->|]; done.
Qed.

(** Reading the declared properties of a record gives the record back. *)
Lemma rebuild_record (props : gmap string JsValue) (fields : list string) :
  dom props = list_to_set fields ->
  list_to_map ((fun f => (f, default JUndefined (props !! f))) <$> fields) = props.
Proof.
  intros Hdom. apply map_eq. intros k. rewrite lookup_list_to_map_fields.
  assert (k ∈ fields <-> is_Some (props !! k)) as Hk.
  { rewrite <- elem_of_dom, Hdom. set_solver. }
  destruct (props !! k) as [v|] eqn:Hv.
  - rewrite bool_decide_eq_true_2; [done|]. apply Hk. eauto.
  - rewrite bool_decide_eq_false_2; [done|]. intros Hin. apply Hk in Hin as [? [=]].
Qed.

Lemma mapA_getProp l (props : gmap string JsValue) (fields : list string) n :
  mapA (fun f => let* x := lift (getProp (JObj l props) f) in ret (f, x)) fields n
  = (Normal ((fun f => (f, default JUndefined (props !! f))) <$> fields), n).
Proof.
  set (read := fun f => let* x := lift (getProp (JObj l props) f) in ret (f, x)).
  induction fields as [|f fields IH]; [done|].
  cbn [mapA]. unfold bind at 1.
  change (read f n) with (Normal (f, default JUndefined (props !! f)), n).
  unfold bind at 1. rewrite IH. reflexivity.
Qed.

(** A location of an object is its own or one of a property value. *)
Lemma locations_object l0 (props : gmap string JsValue) l :
  l ∈ locations (JObj l0 props) ->
  l = l0 \/ exists k v, props !! k = Some v /\ l ∈ locations v.
Proof.
  simpl. intros Hin. apply elem_of_union in Hin as [Hin|Hin]; [left; set_solver|right].
  revert l Hin.
  apply (map_fold_weak_ind
           (fun (r : gset loc) (m : gmap string JsValue) =>
              forall l, l ∈ r -> exists k v, m !! k = Some v /\ l ∈ locations v)).
  - intros l Hin. by apply not_elem_of_empty in Hin.
  - intros k v m r Hk IH l Hin. apply elem_of_union in Hin as [Hin|Hin].
    + exists k, v. by rewrite lookup_insert_eq.
    + destruct (IH l Hin) as (k' & v' & Hk' & Hl). exists k', v'.
      rewrite lookup_insert_ne; [done|]. intros <-. congruence.
Qed.

Lemma locations_primitive_array l (xs : list JsValue) :
  forallb definedPrimitive xs = true -> locations (JArr l xs) = {[ l ]}.
Proof.
  intros Hprim. simpl.
  assert (⋃ (locations <$> xs) = (∅ : gset loc)) as ->; [|set_solver].
  induction xs as [|x xs IH]; [done|].
  simpl in Hprim. apply andb_true_iff in Hprim as [Hx Hxs].
  apply definedPrimitive_spec in Hx as (_ & _ & Hx).
  rewrite fmap_cons. simpl. rewrite Hx, IH by done. set_solver.
Qed.

Lemma erase_primitive_array l (xs : list JsValue) :
  forallb definedPrimitive xs = true -> erase (JArr l xs) = JArr 0 xs.
Proof.
  intros Hprim. simpl. f_equal.
  induction xs as [|x xs IH]; [done|].
  simpl in Hprim. apply andb_true_iff in Hprim as [Hx Hxs].
  apply definedPrimitive_spec in Hx as (_ & Hx & _).
  by rewrite fmap_cons, Hx, IH.
Qed.

Section CloneSteps.
Variables (l0 : loc) (props : gmap string JsValue) (n0 : loc).

(** A sub-field is cloned to a value that agrees with the original up to
    locations and lives at fresh locations. *)
Lemma cloneInv_insert copied clone k v original :
  cloneInv props n0 copied clone ->
  props !! k = Some original -> erase v = erase original ->
  (forall l, l ∈ locations v -> n0 <= l) ->
  cloneInv props n0 (k :: copied) (<[k := v]> clone).
Proof.
  intros [Hagree Hfresh] Hk Herase Hv. split.
  - intros k'. destruct (decide (k = k')) as [<-|Hne].
    + rewrite lookup_insert_eq, bool_decide_eq_true_2, Hk by left. simpl. by rewrite Herase.
    + rewrite lookup_insert_ne, Hagree by done.
      destruct (decide (k' ∈ copied)).
      * by rewrite !bool_decide_eq_true_2; [| right |].
      * rewrite !bool_decide_eq_false_2; [done| |done].
        intros Hin. apply elem_of_cons in Hin as [->|]; done.
  - intros k' v' l. destruct (decide (k = k')) as [<-|Hne].
    + rewrite lookup_insert_eq. intros [= <-]. apply Hv.
    + rewrite lookup_insert_ne by done. apply Hfresh.
Qed.

(** An absent sub-field leaves the clone as it is. *)
Lemma cloneInv_absent copied clone k :
  cloneInv props n0 copied clone ->
  k ∉ copied -> props !! k = None ->
  cloneInv props n0 (k :: copied) clone.
Proof.
  intros [Hagree Hfresh] Hnew Hk. split; [|done].
  intros k'. rewrite Hagree. destruct (decide (k = k')) as [<-|Hne].
  - rewrite bool_decide_eq_false_2, bool_decide_eq_true_2, Hk by (done || left). done.
  - destruct (decide (k' ∈ copied)).
    + by rewrite !bool_decide_eq_true_2; [| right |].
    + rewrite !bool_decide_eq_false_2; [done| |done].
      intros Hin. apply elem_of_cons in Hin as [->|]; done.
Qed.

Lemma copyValue_spec copied clone k n :
  cloneInv props n0 copied clone -> k ∉ copied -> n0 <= n ->
  optionalField definedPrimitive props k = true ->
  exists clone' n',
    copyValue (JObj l0 props) k clone n = (Normal clone', n')
    /\ cloneInv props n0 (k :: copied) clone' /\ n <= n'.
Proof.
  intros Hinv Hnew Hn Hshape. unfold optionalField in Hshape.
  unfold copyValue, bind, lift, ret. simpl.
  destruct (props !! k) as [v|] eqn:Hk; simpl.
  - destruct (definedPrimitive_spec v Hshape) as (-> & _ & Hloc).
    eexists _, _. split; [done|]. split; [|lia].
    apply (cloneInv_insert _ _ _ _ v); auto.
    intros l. rewrite Hloc. set_solver.
  - eexists _, _. split; [done|]. split; [|lia]. by apply cloneInv_absent.
Qed.

Lemma copyFields_spec copied clone k fields n :
  cloneInv props n0 copied clone -> k ∉ copied -> n0 <= n ->
  optionalField (isRecordOf fields) props k = true ->
  exists clone' n',
    copyFields (JObj l0 props) k fields clone n = (Normal clone', n')
    /\ cloneInv props n0 (k :: copied) clone' /\ n <= n'.
Proof.
  intros Hinv Hnew Hn Hshape. unfold optionalField in Hshape.
  unfold copyFields. unfold bind at 1. unfold lift at 1. cbn [getProp].
  destruct (props !! k) as [v|] eqn:Hk; cbn [default from_option id].
  - destruct v as [| | | | | |lv record]; try discriminate Hshape.
    cbn [isRecordOf] in Hshape.
    apply andb_true_iff in Hshape as [Hdom Hprim].
    apply bool_decide_eq_true in Hdom. apply bool_decide_eq_true in Hprim.
    cbn [isUndefined]. unfold bind at 1. unfold fresh. cbn beta iota.
    unfold bind at 1. rewrite mapA_getProp, rebuild_record by done.
    eexists _, _. split; [done|]. split; [|lia].
    apply (cloneInv_insert _ _ _ _ (JObj lv record)); auto.
    intros l. rewrite locations_flat_object by done. set_solver.
  - eexists _, _. split; [done|]. split; [|lia]. by apply cloneInv_absent.
Qed.

Lemma copySight_spec copied clone n :
  cloneInv props n0 copied clone -> "Sight" ∉ copied -> n0 <= n ->
  optionalField isSight props "Sight" = true ->
  exists clone' n',
    copySight (JObj l0 props) clone n = (Normal clone', n')
    /\ cloneInv props n0 ("Sight" :: copied) clone' /\ n <= n'.
Proof.
  intros Hinv Hnew Hn Hshape. unfold optionalField in Hshape.
  unfold copySight. unfold bind at 1. unfold lift at 1. cbn [getProp].
  destruct (props !! "Sight") as [v|] eqn:Hk; cbn [default from_option id].
  2: { eexists _, _. split; [done|]. split; [|lia]. by apply cloneInv_absent. }
  destruct v as [| | | | | |lv sight]; try discriminate Hshape.
  cbn [isSight] in Hshape.
  apply andb_true_iff in Hshape as [Hshape Hc].
  apply andb_true_iff in Hshape as [Hshape Hb].
  apply andb_true_iff in Hshape as [Hdom Ha].
  apply bool_decide_eq_true in Hdom.
  pose proof (rebuild_record sight _ Hdom) as Hsight.
  cbn [fmap list_fmap] in Hsight.
  destruct (sight !! "ScopesCurrentCalibPointIndexes") as [[| | | | |la xs|]|] eqn:Hxs;
    try discriminate Ha.
  destruct (sight !! "ScopesSelectedModes") as [[| | | | |lb ys|]|] eqn:Hys;
    try discriminate Hb.
  destruct (sight !! "SelectedScope") as [c|] eqn:Hsel; [|discriminate Hc].
  cbn [default from_option id isPrimitiveArray] in Ha, Hb, Hc, Hsight.
  destruct (definedPrimitive_spec c Hc) as (_ & Herase & Hloc).
  cbn [isUndefined]. unfold bind, lift, fresh, ret. cbn [getProp].
  rewrite Hxs, Hys, Hsel. cbn [default from_option id spreadArray].
  unfold bind, fresh, ret.
  eexists _, _. split; [reflexivity|]. split; [|lia].
  apply (cloneInv_insert _ _ _ _ (JObj lv sight)); auto.
  - rewrite <- Hsight, !list_to_map_cons, list_to_map_nil. cbn [erase].
    rewrite !fmap_insert, fmap_empty, !erase_primitive_array, Herase by done.
    reflexivity.
  - intros l Hl. apply locations_object in Hl as [->|(k & v & Hv & Hl)]; [lia|].
    apply lookup_insert_Some in Hv as [[_ <-]|[_ Hv]];
      [rewrite locations_primitive_array in Hl by done; set_solver by lia|].
    apply lookup_insert_Some in Hv as [[_ <-]|[_ Hv]];
      [rewrite locations_primitive_array in Hl by done; set_solver by lia|].
    apply lookup_insert_Some in Hv as [[_ <-]|[_ Hv]];
      [rewrite Hloc in Hl; set_solver|done].
Qed.

Lemma copyDogtag_spec copied clone n :
  cloneInv props n0 copied clone -> "Dogtag" ∉ copied -> n0 <= n ->
  optionalField isDogtag props "Dogtag" = true ->
  exists clone' n',
    copyDogtag (JObj l0 props) clone n = (Normal clone', n')
    /\ cloneInv props n0 ("Dogtag" :: copied) clone' /\ n <= n'.
Proof.
  intros Hinv Hnew Hn Hshape. unfold optionalField in Hshape.
  unfold copyDogtag. unfold bind at 1. unfold lift at 1. cbn [getProp].
  destruct (props !! "Dogtag") as [v|] eqn:Hk; cbn [default from_option id].
  2: { eexists _, _. split; [done|]. split; [|lia]. by apply cloneInv_absent. }
  destruct v as [| | | | | |lv dogtag]; try discriminate Hshape.
  cbn [isDogtag] in Hshape. apply bool_decide_eq_true in Hshape.
  cbn [isUndefined]. unfold spreadObject, bind, fresh, ret.
  eexists _, _. split; [reflexivity|]. split; [|lia].
  apply (cloneInv_insert _ _ _ _ (JObj lv dogtag)); auto.
  intros l. rewrite locations_flat_object by done. set_solver by lia.
Qed.

End CloneSteps.

(** Runs one copying step of [deepCloneItemUpd] with its specification. *)
Ltac clone_step spec :=
  unfold bind at 1;
  match goal with
  | Hinv : cloneInv _ _ _ _, Hle : _ <= _ |- _ =>
      let clone' := fresh "clone" in
      let n' := fresh "n" in
      let Hrun := fresh "Hrun" in
      let Hinv' := fresh "Hinv" in
      let Hle' := fresh "Hle" in
      let Hle'' := fresh "Hle" in
      edestruct spec as (clone' & n' & Hrun & Hinv' & Hle');
      cycle 4;
      [rewrite Hrun;
       assert (Hle'' := Nat.le_trans _ _ _ Hle Hle')
      |exact Hinv
      |apply (bool_decide_unpack _); vm_compute; exact I
      |exact Hle
      |lazymatch goal with
       | |- optionalField _ _ ?k = true =>
           match goal with
           | Hshape : optionalField _ _ k = true |- _ => exact Hshape
           end
       end];
      clear Hrun Hinv Hle Hle'
  end.

(** C4 (amended). For every state blob [u] whose known sub-fields have
    the shapes that the interface [ItemUpd] declares, [deepCloneItemUpd]
    returns a value that is deep-equal to [u] restricted to the fourteen
    known sub-fields: each of them is copied by value, the nested objects
    field by field and the two [Sight] arrays element by element, and no
    object or array of the clone is one of [u]. Sub-fields outside the
    known list are not copied. *)
Theorem deepCloneItemUpd_known_fields u n :
  conformsItemUpd u = true ->
  (forall l, l ∈ locations u -> l < n) ->
  exists c n',
    deepCloneItemUpd u n = (Normal c, n')
    /\ deepEqual c (restrictToKnown u)
    /\ (forall l, l ∈ locations c -> l ∉ locations u)
    /\ (forall k v, getProp c k = Normal v -> v <> JUndefined -> k ∈ knownSubFields).
Proof.
  intros Hconf Hold.
  destruct u as [| | | | | |l0 props]; try discriminate Hconf.
  cbn [conformsItemUpd] in Hconf.
  repeat match type of Hconf with
         | _ && _ = true => apply andb_true_iff in Hconf as [Hconf ?]
         end.
  unfold deepCloneItemUpd. cbn [isUndefined].
  unfold bind at 1. unfold fresh at 1. cbn beta iota.
  assert (cloneInv props n [] ∅) as Hinv.
  { split; [intros k; by rewrite lookup_empty|]. intros k v l. by rewrite lookup_empty. }
  assert (n <= S n) as Hle by lia.
  do 2 clone_step (copyValue_spec l0 props n).
  do 10 clone_step (copyFields_spec l0 props n).
  clone_step (copySight_spec l0 props n).
  clone_step (copyDogtag_spec l0 props n).
  match goal with Hinv : cloneInv _ _ ?copied ?clone |- _ =>
    destruct Hinv as [Hagree Hfresh];
    assert (forall k, k ∈ copied <-> k ∈ knownSubFields) as Hcopied
      by (intros k; unfold knownSubFields; rewrite !elem_of_cons; tauto)
  end.
  eexists _, _. split; [reflexivity|]. split_and!.
  - unfold deepEqual. cbn [restrictToKnown erase]. f_equal.
    apply map_eq. intros k. rewrite !lookup_fmap, Hagree.
    rewrite map_lookup_filter.
    destruct (decide (k ∈ knownSubFields)) as [Hk|Hk].
    + rewrite bool_decide_eq_true_2 by (by apply Hcopied).
      destruct (props !! k) as [v|]; [|done]. simpl.
      by rewrite option_guard_True.
    + rewrite bool_decide_eq_false_2 by (by rewrite Hcopied).
      destruct (props !! k) as [v|]; [|done]. simpl.
      by rewrite option_guard_False.
  - intros l Hl Hu. apply Hold in Hu.
    apply locations_object in Hl as [->|(k & v & Hv & Hl)]; [lia|].
    pose proof (Hfresh k v l Hv Hl). lia.
  - intros k v Hget Hv. cbn [getProp] in Hget. injection Hget as <-.
    apply Hcopied. pose proof (Hagree k) as Hk. revert Hk.
    case_bool_decide as Hin; [done|]. intros Hk.
    revert Hv Hk. case (_ !! k); [discriminate 2|]. done.
Qed.

(** C4, as stated, fails for a sub-field outside the known list. The
    clone of the state of a repair kit is an empty object: the sub-field
    [RepairKit] is not copied, and the clone is not deep-equal to its
    input. *)
Theorem deepCloneItemUpd_drops_unknown_subfield :
  deepCloneItemUpd repairKitUpd 10 = (Normal (JObj 10 ∅), 11)
  /\ ~ deepEqual (JObj 10 ∅) repairKitUpd.
Proof.
  split; [vm_compute; reflexivity|].
  unfold deepEqual. intros H. vm_compute in H. discriminate H.
Qed.

(** The theorem at the state of a weapon sight. *)
Lemma deepCloneItemUpd_known_fields_witness :
  exists c n',
    deepCloneItemUpd sightUpd 10 = (Normal c, n')
    /\ deepEqual c (restrictToKnown sightUpd)
    /\ (forall l, l ∈ locations c -> l ∉ locations sightUpd)
    /\ (forall k v, getProp c k = Normal v -> v <> JUndefined -> k ∈ knownSubFields).
Proof.
  apply (deepCloneItemUpd_known_fields sightUpd 10).
  - vm_compute. reflexivity.
  - intros l Hl.
    assert (locations sightUpd = {[3; 4; 5; 6]}) as Hlocs
      by (apply (bool_decide_unpack _); vm_compute; exact I).
    rewrite Hlocs in Hl. set_unfold in Hl. lia.
Defined.

(** ** Rollback *)

(** What [restoreFromFile] leaves in the caller's array: when it does
    not succeed, either the array as it was, or the backup. *)
Lemma restoreFromFile_failure_inventory config env inventoryItems n c items' log n' :
  restoreFromFile config env inventoryItems n = (c, items', log, n') ->
  match c with
  | Normal r =>
      success r = true
      \/ items' = inventoryItems
      \/ exists e backup m,
           r = failed (RolledBack e)
           /\ createInventoryBackup inventoryItems n = (Normal backup, m)
           /\ items' = backup
  | Throw _ => items' = inventoryItems
  end.
Proof.
  unfold restoreFromFile, restoreFromBackup. intros H.
  repeat case_match; simplify_eq; simpl; eauto 10.
Qed.

(** A failed call of [tryRestore] leaves the collection as it was, unless
    it rolled back: then it leaves the backup. *)
Lemma tryRestore_failure_inventory config env rateLimitMap n sessionId inventoryItems :
  let out := tryRestore config env rateLimitMap n sessionId inventoryItems in
  success (result out) = false ->
  Restorer.inventoryItems out = inventoryItems
  \/ exists before e backup m,
       inventoryItems = Some before
       /\ result out = failed (RolledBack e)
       /\ createInventoryBackup before n = (Normal backup, m)
       /\ Restorer.inventoryItems out = Some backup.
Proof.
  unfold tryRestore.
  repeat case_match; simpl; auto;
    match goal with
    | H : restoreFromFile _ _ _ _ = _ |- _ =>
        apply restoreFromFile_failure_inventory in H; rename H into Hleft
    end.
  - intros Hfail. destruct Hleft as [Hs|[->|(e & backup & m & -> & Hb & ->)]].
    + congruence.
    + by left.
    + right. eauto 10.
  - intros _. left. by subst.
Qed.

(** C1: the code at the failing input. A restoration that fails after
    the backup was taken: the magazine of the snapshot cannot be cloned,
    the engine rolls back and reports the failure, and the collection
    after the call is not deep-equal to the collection before it: the
    state of the repair kit has lost its sub-field [RepairKit]. *)
Theorem rollback_loses_unknown_subfields :
  result rollbackOutcome
  = failed (RolledBack (TypeError "Cannot read properties of null or undefined"))
  /\ inventoryItems rollbackOutcome
     = Some [profileEquipment; lootedPistol; pockets;
             mkItem "kit1" "repairkit_tpl" (Some "pockets1") (Some "pocket1")
                    (Some (LocGrid 0 0 0 None)) (JObj 10 ∅)]
  /\ forall after, inventoryItems rollbackOutcome = Some after ->
       ~ itemsDeepEqual after rollbackProfile.
Proof.
  assert (inventoryItems rollbackOutcome
          = Some [profileEquipment; lootedPistol; pockets;
                  mkItem "kit1" "repairkit_tpl" (Some "pockets1") (Some "pocket1")
                         (Some (LocGrid 0 0 0 None)) (JObj 10 ∅)]) as Hafter
    by (vm_compute; reflexivity).
  split_and!.
  - vm_compute. reflexivity.
  - exact Hafter.
  - intros after Hsome. rewrite Hafter in Hsome. injection Hsome as <-.
    unfold itemsDeepEqual. intros H. vm_compute in H. discriminate H.
Qed.

(* ===================================================================== *)
(** * Part IV. Further properties                                         *)
(* ===================================================================== *)

(** ** Session ids *)

Lemma includes_head c sub s :
  includes (String c sub) s = true -> In c (list_ascii_of_string s).
Proof.
  induction s as [|a s IH]; simpl.
  - discriminate.
  - intros H. apply orb_true_iff in H as [H|H].
    + destruct (Ascii.ascii_dec c a) as [->|]; [by left|discriminate].
    + right. by apply IH.
Qed.

Lemma safe_excludes (bad : ascii) sub s :
  safeChar bad = false ->
  forallb safeChar (list_ascii_of_string s) = true ->
  includes (String bad sub) s = false.
Proof.
  intros Hbad Hsafe. destruct (includes (String bad sub) s) eqn:Hinc; [|done].
  apply includes_head in Hinc.
  rewrite forallb_forall in Hsafe. apply Hsafe in Hinc. congruence.
Qed.

(** X1. [isValidSessionId] accepts exactly the ids of 1 to 128
    characters that are all letters, digits, [_] or [-]: the substring
    tests for [..], [/], the backslash and the null byte that follow the
    character-class test reject nothing further. *)
Theorem isValidSessionId_spec sessionId :
  isValidSessionId sessionId = true
  <-> (0 < String.length sessionId <= 128)
      /\ forallb safeChar (list_ascii_of_string sessionId) = true.
Proof.
  unfold isValidSessionId.
  destruct (Nat.eqb_spec (String.length sessionId) 0) as [Hlen|Hlen].
  { split; [discriminate|]. intros [[H _] _]. lia. }
  destruct (forallb safeChar (list_ascii_of_string sessionId)) eqn:Hsafe; simpl.
  2: { split; [discriminate|]. intros [_ H]. discriminate. }
  rewrite !safe_excludes by done. simpl.
  destruct (Nat.ltb_spec 128 (String.length sessionId)).
  - split; [discriminate|]. intros [[_ H'] _]. lia.
  - split; [|done]. intros _. split; [lia|done].
Qed.

(** ** Snapshot payloads *)

Lemma validateItems_accepts : forall rawItems i,
  validateItems i rawItems = None
  <-> Forall (fun item => wellFormedItem item = true) rawItems.
Proof.
  induction rawItems as [|raw rawItems IH]; intros i; [done|].
  rewrite Forall_cons. cbn [validateItems].
  destruct raw as [|id tpl p s loc u]; simpl.
  - split; [discriminate|]. intros [[=] _].
  - destruct (notNonEmptyString id); simpl.
    { split; [discriminate|]. intros [[=] _]. }
    destruct (notNonEmptyString tpl); simpl.
    { split; [discriminate|]. intros [[=] _]. }
    rewrite IH. tauto.
Qed.

Lemma validateItems_first : forall rawItems i k bad,
  rawItems !! k = Some bad ->
  wellFormedItem bad = false ->
  Forall (fun item => wellFormedItem item = true) (take k rawItems) ->
  validateItems i rawItems = Some (itemError (i + k) bad).
Proof.
  induction rawItems as [|raw rawItems IH]; intros i k bad Hk Hbad Hbefore; [done|].
  destruct k as [|k].
  - injection Hk as ->. rewrite Nat.add_0_r.
    destruct bad as [|id tpl p s loc u]; [done|]. simpl in *.
    destruct (notNonEmptyString id); [done|].
    destruct (notNonEmptyString tpl); [done|discriminate].
  - simpl in Hk, Hbefore. apply Forall_cons in Hbefore as [Hraw Hbefore].
    destruct raw as [|id tpl p s loc u]; [discriminate|]. simpl in *.
    apply andb_true_iff in Hraw as [Hid Htpl].
    apply negb_true_iff in Hid, Htpl. rewrite Hid, Htpl.
    rewrite (IH (S i) k bad) by done. by rewrite Nat.add_succ_r.
Qed.

(** X2. [validateSnapshot] accepts a payload exactly when it is an object
    whose [items] is a non-empty array of objects with non-empty string
    [_id] and [_tpl]; no other field is inspected. *)
Theorem validateSnapshot_accepts raw :
  validateSnapshot raw = None
  <-> exists rawItems included empty version,
        raw = RawObject (Some rawItems) included empty version
        /\ rawItems <> []
        /\ Forall (fun item => wellFormedItem item = true) rawItems.
Proof.
  destruct raw as [|[rawItems|] included empty version]; simpl.
  - split; [discriminate|]. intros (? & ? & ? & ? & [=] & _).
  - destruct rawItems as [|r rawItems].
    { split; [discriminate|]. intros (? & ? & ? & ? & [= <-] & Hne & _). done. }
    rewrite validateItems_accepts. split.
    + intros Hall. eexists _, _, _, _. done.
    + intros (its & ? & ? & ? & [= <-] & _ & Hall). done.
  - split; [discriminate|]. intros (? & ? & ? & ? & [=] & _).
Qed.

(** X3. When the items of a payload are not all well formed,
    [validateSnapshot] reports the first offending item by its index, and
    of that item the first failing test (object, then [_id], then
    [_tpl]): every item before the reported index is well formed. *)
Theorem validateSnapshot_reports_first rawItems included empty version k bad :
  rawItems !! k = Some bad ->
  wellFormedItem bad = false ->
  Forall (fun item => wellFormedItem item = true) (take k rawItems) ->
  validateSnapshot (RawObject (Some rawItems) included empty version)
  = Some (itemError k bad).
Proof.
  intros Hk Hbad Hbefore.
  pose proof (validateItems_first rawItems 0 k bad Hk Hbad Hbefore) as Hitems.
  destruct rawItems as [|r rawItems]; [done|]. exact Hitems.
Qed.

Lemma validateSnapshot_reports_first_witness :
  validateSnapshot
    (RawObject (Some [rawItem "equip1" EQUIPMENT_TEMPLATE_ID None None;
                      RawItemObject (JStr "pistol1") (JNum 7) None None None JUndefined;
                      RawItemNotObject])
               None None None)
  = Some (ItemInvalidTpl 1).
Proof.
  apply (validateSnapshot_reports_first
           [rawItem "equip1" EQUIPMENT_TEMPLATE_ID None None;
            RawItemObject (JStr "pistol1") (JNum 7) None None None JUndefined;
            RawItemNotObject]
           None None None 1
           (RawItemObject (JStr "pistol1") (JNum 7) None None None JUndefined)).
  - reflexivity.
  - reflexivity.
  - repeat constructor.
Defined.

(** ** State blobs that cannot be cloned *)

Lemma bind_Normal {A B} (m : Alloc A) (k : A -> Alloc B) n a n1 :
  m n = (Normal a, n1) -> bind m k n = k a n1.
Proof. unfold bind. by intros ->. Qed.

Lemma bind_Throw {A B} (m : Alloc A) (k : A -> Alloc B) n e n1 :
  m n = (Throw e, n1) -> bind m k n = (Throw e, n1).
Proof. unfold bind. by intros ->. Qed.

Lemma copyValue_runs l (props : gmap string JsValue) k clone n :
  exists clone', copyValue (JObj l props) k clone n = (Normal clone', n).
Proof.
  unfold copyValue, bind, lift, ret. cbn [getProp].
  destruct (isUndefined _); eauto.
Qed.

Lemma mapA_getProp_runs (v : JsValue) (fields : list string) n :
  v <> JUndefined -> v <> JNull ->
  exists vals,
    mapA (fun f => let* x := lift (getProp v f) in ret (f, x)) fields n
    = (Normal vals, n).
Proof.
  intros Hu Hn.
  induction fields as [|f fields [vals IH]]; [by eexists|].
  cbn [mapA].
  assert (exists x, getProp v f = Normal x) as [x Hx] by (destruct v; by eauto).
  erewrite bind_Normal; [|erewrite bind_Normal; [reflexivity|by rewrite Hx]].
  erewrite bind_Normal; [|exact IH]. by eexists.
Qed.

Lemma copyFields_runs l (props : gmap string JsValue) k f fields clone n :
  if isNull (default JUndefined (props !! k))
  then exists msg n',
         copyFields (JObj l props) k (f :: fields) clone n = (Throw (TypeError msg), n')
  else exists clone' n',
         copyFields (JObj l props) k (f :: fields) clone n = (Normal clone', n').
Proof.
  unfold copyFields.
  rewrite (bind_Normal _ _ n (default JUndefined (props !! k)) n) by reflexivity.
  destruct (default JUndefined (props !! k)) as [| | | | | |] eqn:Hv;
    cbn [isNull isUndefined].
  1: unfold ret; by eauto.
  1: { rewrite (bind_Normal fresh _ n n (S n)) by reflexivity.
       erewrite bind_Throw; [by eauto|]. cbn [mapA].
       erewrite bind_Throw; [reflexivity|]. erewrite bind_Throw; reflexivity. }
  all: rewrite (bind_Normal fresh _ n n (S n)) by reflexivity; cbn beta;
    match type of Hv with
    | _ = ?v =>
        destruct (mapA_getProp_runs v (f :: fields) (S n)) as [vals Hvals];
        [done|done|]
    end;
    rewrite (bind_Normal _ _ _ _ _ Hvals); unfold ret; by eauto.
Qed.

Lemma spreadArray_runs (v : JsValue) n :
  if isIterable v
  then exists a, spreadArray v n = (Normal a, S n)
  else exists msg, spreadArray v n = (Throw (TypeError msg), n).
Proof. destruct v; simpl; unfold throw, bind, fresh, ret; by eauto. Qed.

Lemma copySight_runs l (props : gmap string JsValue) clone n :
  if sightThrows (default JUndefined (props !! "Sight"))
  then exists msg n', copySight (JObj l props) clone n = (Throw (TypeError msg), n')
  else exists clone' n', copySight (JObj l props) clone n = (Normal clone', n').
Proof.
  unfold copySight.
  rewrite (bind_Normal _ _ n (default JUndefined (props !! "Sight")) n) by reflexivity.
  destruct (default JUndefined (props !! "Sight")) as [| | | | | |ls sight] eqn:Hv;
    cbn [sightThrows isUndefined getProp isIterable negb orb].
  1: unfold ret; by eauto.
  1: { rewrite (bind_Normal fresh _ n n (S n)) by reflexivity.
       erewrite bind_Throw; [by eauto|]. reflexivity. }
  1-4: rewrite (bind_Normal fresh _ n n (S n)) by reflexivity;
       rewrite (bind_Normal _ _ (S n) JUndefined (S n)) by reflexivity;
       erewrite bind_Throw; [by eauto|]; reflexivity.
  rewrite (bind_Normal fresh _ n n (S n)) by reflexivity.
  rewrite (bind_Normal _ _ (S n)
             (default JUndefined (sight !! "ScopesCurrentCalibPointIndexes")) (S n))
    by reflexivity.
  pose proof (spreadArray_runs
                (default JUndefined (sight !! "ScopesCurrentCalibPointIndexes")) (S n))
    as Ha.
  destruct (isIterable (default JUndefined (sight !! "ScopesCurrentCalibPointIndexes")));
    cbn [negb orb].
  2: { destruct Ha as [msg Ha]. rewrite (bind_Throw _ _ _ _ _ Ha). by eauto. }
  destruct Ha as [a Ha]. rewrite (bind_Normal _ _ _ _ _ Ha).
  rewrite (bind_Normal _ _ (S (S n))
             (default JUndefined (sight !! "ScopesSelectedModes")) (S (S n)))
    by reflexivity.
  pose proof (spreadArray_runs
                (default JUndefined (sight !! "ScopesSelectedModes")) (S (S n))) as Hb.
  destruct (isIterable (default JUndefined (sight !! "ScopesSelectedModes")));
    cbn [negb].
  2: { destruct Hb as [msg Hb]. rewrite (bind_Throw _ _ _ _ _ Hb). by eauto. }
  destruct Hb as [b Hb]. rewrite (bind_Normal _ _ _ _ _ Hb).
  unfold bind, lift, ret. cbn [getProp]. by eauto.
Qed.

Lemma copyDogtag_runs l (props : gmap string JsValue) clone n :
  exists clone' n', copyDogtag (JObj l props) clone n = (Normal clone', n').
Proof.
  unfold copyDogtag, bind, lift, ret, spreadObject, fresh. cbn [getProp].
  destruct (isUndefined _); by eauto.
Qed.

(** One record sub-field of the clone: it throws when the sub-field is
    [null], and the rest of the clone is not run; otherwise the clone goes
    on. *)
Ltac record_step l props k f fields :=
  unfold bind at 1;
  let Hstep := fresh "Hstep" in
  match goal with
  | |- context [copyFields _ k _ ?clone ?n] =>
      pose proof (copyFields_runs l props k f fields clone n) as Hstep
  end;
  cbn [existsb];
  destruct (isNull (default JUndefined (props !! k)));
  [destruct Hstep as (? & ? & ->); cbn [orb]; by eauto
  |destruct Hstep as (? & ? & ->); cbn [orb]].

(** The outcome of the clone, as a function of its input. *)
Lemma deepCloneItemUpd_outcome upd n :
  match deepCloneItemUpd upd n with
  | (Throw e, _) => cloneThrows upd = true /\ exists msg, e = TypeError msg
  | (Normal _, _) => cloneThrows upd = false
  end.
Proof.
  destruct upd as [| | | | | |l props]; try reflexivity.
  { vm_compute. by eauto. }
  unfold deepCloneItemUpd, cloneThrows, recordSubFields. cbn [isUndefined].
  unfold bind at 1. unfold fresh at 1.
  unfold bind at 1.
  match goal with
  | |- context [copyValue _ ?k ?clone ?n] =>
      destruct (copyValue_runs l props k clone n) as [? ->]
  end.
  unfold bind at 1.
  match goal with
  | |- context [copyValue _ ?k ?clone ?n] =>
      destruct (copyValue_runs l props k clone n) as [? ->]
  end.
  record_step l props "Foldable" "Folded" (@nil string).
  record_step l props "MedKit" "HpResource" (@nil string).
  record_step l props "Repairable" "Durability" ["MaxDurability"].
  record_step l props "Resource" "Value" (@nil string).
  record_step l props "FoodDrink" "HpPercent" (@nil string).
  record_step l props "Tag" "Name" ["Color"].
  record_step l props "Key" "NumberOfUsages" (@nil string).
  record_step l props "Light" "IsActive" ["SelectedMode"].
  record_step l props "Togglable" "On" (@nil string).
  record_step l props "FireMode" "FireMode" (@nil string).
  unfold bind at 1.
  match goal with
  | |- context [copySight _ ?clone ?n] =>
      pose proof (copySight_runs l props clone n) as Hsight
  end.
  destruct (sightThrows (default JUndefined (props !! "Sight"))).
  { destruct Hsight as (? & ? & ->). by eauto. }
  destruct Hsight as (? & ? & ->).
  unfold bind at 1.
  match goal with
  | |- context [copyDogtag _ ?clone ?n] =>
      destruct (copyDogtag_runs l props clone n) as (? & ? & ->)
  end.
  reflexivity.
Qed.

(** X4. [deepCloneItemUpd] throws exactly on these state blobs: [null];
    an object in which one of the ten sub-fields that are rebuilt property
    by property is [null]; an object whose [Sight] is [null] or lacks an
    iterable [ScopesCurrentCalibPointIndexes] or [ScopesSelectedModes].
    What it throws is a [TypeError]. On every other value, of whatever
    shape, it returns a clone. *)
Theorem deepCloneItemUpd_throws upd n :
  match deepCloneItemUpd upd n with
  | (Throw e, _) => cloneThrows upd = true /\ exists msg, e = TypeError msg
  | (Normal _, _) => cloneThrows upd = false
  end.
Proof. exact (deepCloneItemUpd_outcome upd n). Qed.

(** ** Rate limiting *)

Lemma tryRestore_rateLimit config env rateLimitMap n sessionId inventoryItems :
  isValidSessionId sessionId = true ->
  let out := tryRestore config env rateLimitMap n sessionId inventoryItems in
  Restorer.rateLimitMap out = (checkRateLimit config env sessionId rateLimitMap).2
  /\ ((checkRateLimit config env sessionId rateLimitMap).1 = false ->
      result out = failed RateLimitExceeded
      /\ Restorer.inventoryItems out = inventoryItems /\ events out = [])
  /\ ((checkRateLimit config env sessionId rateLimitMap).1 = true ->
      result out <> failed RateLimitExceeded).
Proof.
  intros Hvalid. unfold tryRestore. rewrite Hvalid. cbn [negb].
  destruct (checkRateLimit config env sessionId rateLimitMap) as [allowed m'] eqn:Hrl.
  cbn [fst snd]. destruct allowed; cbn [negb].
  - split_and!; [|discriminate|intros _].
    + repeat case_match; reflexivity.
    + repeat case_match; simpl; try discriminate.
      intros ->.
      match goal with
      | H : restoreFromFile _ _ _ _ = _ |- _ => revert H
      end.
      unfold restoreFromFile, restoreFromBackup.
      repeat case_match; intros; simplify_eq.
      unfold checkFileSize in *. repeat case_match; simplify_eq.
  - split_and!; [done|done|discriminate].
Qed.

Lemma checkRateLimit_allowed config env sessionId rateLimitMap :
  (checkRateLimit config env sessionId rateLimitMap).1 = true ->
  (checkRateLimit config env sessionId rateLimitMap).2 !! sessionId
  = Some (mkEntry (now env) 1).
Proof.
  unfold checkRateLimit. destruct (rateLimitMap !! sessionId) as [entry|]; simpl.
  - case_match; simpl; [discriminate|]. intros _. by rewrite lookup_insert_eq.
  - intros _. by rewrite lookup_insert_eq.
Qed.

Lemma checkRateLimit_within config env sessionId rateLimitMap entry :
  rateLimitMap !! sessionId = Some entry ->
  (now env - lastAttempt entry < minRestoreIntervalMs config)%Z ->
  checkRateLimit config env sessionId rateLimitMap
  = (false, <[sessionId := mkEntry (lastAttempt entry) (S (attemptCount entry))]>
              rateLimitMap).
Proof.
  intros Hentry Hlt. unfold checkRateLimit. rewrite Hentry.
  by rewrite (proj2 (Z.ltb_lt _ _) Hlt).
Qed.

(** X5. Once a call of [tryRestore] has passed the rate limiter, the next
    call for the same session is refused when the clock has advanced by
    less than [minRestoreIntervalMs]: it fails with the rate-limit
    message, leaves the collection as it is, and logs and deletes
    nothing. This holds whatever the first call went on to do. *)
Theorem tryRestore_refuses_quick_retry config env1 env2 rateLimitMap n1 n2 sessionId
    inventory1 inventory2 :
  isValidSessionId sessionId = true ->
  result (tryRestore config env1 rateLimitMap n1 sessionId inventory1)
  <> failed RateLimitExceeded ->
  (now env2 - now env1 < minRestoreIntervalMs config)%Z ->
  let out1 := tryRestore config env1 rateLimitMap n1 sessionId inventory1 in
  let out2 := tryRestore config env2 (Restorer.rateLimitMap out1) n2 sessionId
                inventory2 in
  result out2 = failed RateLimitExceeded
  /\ inventoryItems out2 = inventory2
  /\ events out2 = [].
Proof.
  intros Hvalid Hfirst Hquick. cbv zeta.
  destruct (tryRestore_rateLimit config env1 rateLimitMap n1 sessionId inventory1 Hvalid)
    as (Hmap & Hrefused & _).
  destruct ((checkRateLimit config env1 sessionId rateLimitMap).1) eqn:Hallowed.
  2: { destruct Hrefused as [Hr _]; [done|]. done. }
  apply checkRateLimit_allowed in Hallowed. rewrite <- Hmap in Hallowed.
  destruct (tryRestore_rateLimit config env2
              (Restorer.rateLimitMap
                 (tryRestore config env1 rateLimitMap n1 sessionId inventory1))
              n2 sessionId inventory2 Hvalid) as (_ & Hsecond & _).
  apply Hsecond.
  by rewrite (checkRateLimit_within _ _ _ _ _ Hallowed Hquick).
Qed.

Lemma tryRestore_refuses_quick_retry_witness :
  let out1 := tryRestore DEFAULT_CONFIG (hostWith packSnapshot) ∅ 0 "session1"
                (Some packProfile) in
  let out2 := tryRestore DEFAULT_CONFIG (hostWith packSnapshot)
                (Restorer.rateLimitMap out1) 0 "session1" (Some packProfile) in
  result out2 = failed RateLimitExceeded
  /\ inventoryItems out2 = Some packProfile
  /\ events out2 = [].
Proof.
  apply (tryRestore_refuses_quick_retry DEFAULT_CONFIG (hostWith packSnapshot)
           (hostWith packSnapshot) ∅ 0 0 "session1" (Some packProfile)
           (Some packProfile)).
  - reflexivity.
  - vm_compute. discriminate.
  - vm_compute. reflexivity.
Defined.

Lemma afterAttempts_refused config sessionId : forall envs rateLimitMap last count,
  rateLimitMap !! sessionId = Some (mkEntry last count) ->
  Forall (fun env => (now env - last < minRestoreIntervalMs config)%Z) envs ->
  afterAttempts config sessionId rateLimitMap envs !! sessionId
  = Some (mkEntry last (count + length envs)).
Proof.
  unfold afterAttempts.
  induction envs as [|env envs IH]; intros rateLimitMap last count Hentry Hall.
  - simpl. by rewrite Nat.add_0_r.
  - apply Forall_cons in Hall as [Hlt Hall]. cbn [fold_left].
    rewrite (checkRateLimit_within _ _ _ _ _ Hentry Hlt). cbn [snd lastAttempt].
    rewrite (IH _ last (S count)); [|by rewrite lookup_insert_eq|done].
    simpl. do 2 f_equal. lia.
Qed.

(** X6. Refused attempts do not extend the waiting time. After an
    attempt admitted at time [last], every attempt made less than
    [minRestoreIntervalMs] later is refused and only counted; however many
    there were, an attempt made at least [minRestoreIntervalMs] after
    [last] is admitted again, and the count starts over at 1. *)
Theorem rate_limit_window_is_anchored config sessionId rateLimitMap last count
    envs env :
  rateLimitMap !! sessionId = Some (mkEntry last count) ->
  Forall (fun e => (now e - last < minRestoreIntervalMs config)%Z) envs ->
  (minRestoreIntervalMs config <= now env - last)%Z ->
  let table := afterAttempts config sessionId rateLimitMap envs in
  table !! sessionId = Some (mkEntry last (count + length envs))
  /\ checkRateLimit config env sessionId table
     = (true, <[sessionId := mkEntry (now env) 1]> table).
Proof.
  intros Hentry Hall Hlate table.
  pose proof (afterAttempts_refused config sessionId envs rateLimitMap last count
                Hentry Hall) as Htable.
  split; [exact Htable|].
  unfold checkRateLimit. fold table in Htable. rewrite Htable. cbn [lastAttempt].
  by rewrite (proj2 (Z.ltb_ge _ _) Hlate).
Qed.

Lemma rate_limit_window_is_anchored_witness :
  let table := afterAttempts DEFAULT_CONFIG "session1"
                 {[ "session1" := mkEntry 0 1 ]}
                 [hostWith packSnapshot; hostWith packSnapshot] in
  table !! "session1" = Some (mkEntry 0 (1 + 2))
  /\ checkRateLimit DEFAULT_CONFIG
       (mkEnv 1000 true true (Normal 1000%Z) (fun _ => Normal (Text.ofString "{ }"))
              (fun _ => Normal packSnapshot) (Normal tt))
       "session1" table
     = (true, <["session1" := mkEntry 1000 1]> table).
Proof.
  apply (rate_limit_window_is_anchored DEFAULT_CONFIG "session1"
           {[ "session1" := mkEntry 0 1 ]} 0 1
           [hostWith packSnapshot; hostWith packSnapshot]
           (mkEnv 1000 true true (Normal 1000%Z) (fun _ => Normal (Text.ofString "{ }"))
                  (fun _ => Normal packSnapshot) (Normal tt))).
  - reflexivity.
  - repeat constructor.
  - vm_compute. discriminate.
Defined.

(** X7. The rate limiter is per session: a call of [tryRestore] leaves
    the entries of all other sessions as they are. *)
Theorem tryRestore_rate_limit_per_session config env rateLimitMap n sessionId
    inventoryItems other :
  other <> sessionId ->
  Restorer.rateLimitMap (tryRestore config env rateLimitMap n sessionId inventoryItems)
    !! other
  = rateLimitMap !! other.
Proof.
  intros Hother.
  destruct (isValidSessionId sessionId) eqn:Hvalid.
  - destruct (tryRestore_rateLimit config env rateLimitMap n sessionId inventoryItems
                Hvalid) as (-> & _).
    unfold checkRateLimit. repeat case_match; simpl; by rewrite lookup_insert_ne.
  - unfold tryRestore. by rewrite Hvalid.
Qed.

Lemma tryRestore_rate_limit_per_session_witness :
  Restorer.rateLimitMap
    (tryRestore DEFAULT_CONFIG (hostWith packSnapshot) {[ "session2" := mkEntry 0 1 ]}
       0 "session1" (Some packProfile)) !! "session2"
  = ({[ "session2" := mkEntry 0 1 ]} : gmap string RateLimitEntry) !! "session2".
Proof.
  apply (tryRestore_rate_limit_per_session DEFAULT_CONFIG (hostWith packSnapshot)
           {[ "session2" := mkEntry 0 1 ]} 0 "session1" (Some packProfile) "session2").
  discriminate.
Defined.

(** ** Reading the snapshot file *)

Lemma readLoop_first_usable env : forall budget attempt,
  match readLoop env budget attempt with
  | Some content =>
      exists k, k < budget
        /\ usableContent (readFileSync env (attempt + k)) = Some content
        /\ forall j, j < k -> usableContent (readFileSync env (attempt + j)) = None
  | None =>
      forall j, j < budget -> usableContent (readFileSync env (attempt + j)) = None
  end.
Proof.
  induction budget as [|budget IH]; intros attempt; cbn [readLoop]; [intros j; lia|].
  assert (usableContent (readFileSync env attempt) = None ->
          match readLoop env budget (S attempt) with
          | Some content =>
              exists k, k < S budget
                /\ usableContent (readFileSync env (attempt + k)) = Some content
                /\ forall j, j < k ->
                     usableContent (readFileSync env (attempt + j)) = None
          | None =>
              forall j, j < S budget ->
                usableContent (readFileSync env (attempt + j)) = None
          end) as Hnext.
  { intros Hbad. specialize (IH (S attempt)).
    destruct (readLoop env budget (S attempt)) as [content|].
    - destruct IH as (k & Hk & Hgood & Hbefore). exists (S k).
      rewrite Nat.add_succ_r. split; [lia|]. split; [done|].
      intros [|j] Hj; [by rewrite Nat.add_0_r|].
      rewrite Nat.add_succ_r. apply Hbefore. lia.
    - intros [|j] Hj; [by rewrite Nat.add_0_r|].
      rewrite Nat.add_succ_r. apply IH. lia. }
  unfold usableContent in Hnext at 1.
  destruct (readFileSync env attempt) as [content|e] eqn:Hread; [|by apply Hnext].
  destruct (length content =? 0)%nat eqn:Hlen; [by apply Hnext|].
  destruct (Text.startsWithBraceOrBracket (Text.trimStart content)) eqn:Hstart;
    cbn [negb];
    [|by apply Hnext].
  exists 0. rewrite Nat.add_0_r, Hread. unfold usableContent. rewrite Hlen, Hstart.
  split; [lia|]. split; [done|]. intros j Hj. lia.
Qed.

(** X8. [readSnapshotWithRetry] makes at most [maxFileReadRetries] read
    attempts and returns the content of the first one that is usable
    (read without error, not empty, starting with a brace or a bracket
    after the white space that [trim] strips), logging nothing. When none
    of them is usable it returns [null] and logs one error; with
    [maxFileReadRetries = 0] that is always the case. *)
Theorem readSnapshotWithRetry_first_usable config env :
  match readSnapshotWithRetry config env with
  | (Some content, log) =>
      log = []
      /\ exists k, k < maxFileReadRetries config
           /\ usableContent (readFileSync env k) = Some content
           /\ forall j, j < k -> usableContent (readFileSync env j) = None
  | (None, log) =>
      log = [LogError (FailedToReadSnapshot (maxFileReadRetries config))]
      /\ forall j, j < maxFileReadRetries config ->
           usableContent (readFileSync env j) = None
  end.
Proof.
  unfold readSnapshotWithRetry.
  pose proof (readLoop_first_usable env (maxFileReadRetries config) 0) as Hloop.
  destruct (readLoop env (maxFileReadRetries config) 0) as [content|]; split; done.
Qed.

(** ** Version strings *)

Lemma digitOf_pretty_N_char d :
  (d < 10)%N ->
  digitOf (pretty_N_char d) = Some (Z.of_N d)
  /\ isWhiteSpace (pretty_N_char d) = false
  /\ pretty_N_char d <> "-"%char /\ pretty_N_char d <> "+"%char
  /\ pretty_N_char d <> "."%char.
Proof.
  intros Hd.
  assert (d = 0 \/ d = 1 \/ d = 2 \/ d = 3 \/ d = 4 \/ d = 5 \/ d = 6 \/ d = 7
          \/ d = 8 \/ d = 9)%N as Hcases by lia.
  repeat (destruct Hcases as [->|Hcases]); try subst d;
    vm_compute; split_and!; (reflexivity || discriminate).
Qed.

Lemma pretty_N_go_app x : forall s1 s2,
  pretty_N_go x s1 +:+ s2 = pretty_N_go x (s1 +:+ s2).
Proof.
  induction (N.lt_wf_0 x) as [x _ IH]; intros s1 s2.
  assert (x = 0 \/ 0 < x)%N as [->|Hx] by lia; [done|].
  rewrite (pretty_N_go_step x s1), (pretty_N_go_step x (s1 +:+ s2)) by done.
  rewrite (IH (x `div` 10)%N) by (apply N.div_lt; lia). done.
Qed.

(** A numeral is a digit followed by a string. *)
Lemma pretty_N_go_head x : forall s,
  (0 < x)%N ->
  exists d rest, (d < 10)%N /\ pretty_N_go x s = String (pretty_N_char d) rest.
Proof.
  induction (N.lt_wf_0 x) as [x _ IH]; intros s Hx.
  rewrite pretty_N_go_step by done.
  destruct (N.eq_0_gt_0_cases (x `div` 10)%N) as [->|Hdiv].
  - rewrite pretty_N_go_0. exists (x `mod` 10)%N. eexists. split; [|done].
    by apply N.mod_lt.
  - apply IH; [|done]. apply N.div_lt; lia.
Qed.

Lemma readDigits_pretty_N_go x : forall s,
  (0 < x)%N ->
  readDigits (pretty_N_go x s) None = readDigits s (Some (Z.of_N x)).
Proof.
  induction (N.lt_wf_0 x) as [x _ IH]; intros s Hx.
  rewrite pretty_N_go_step by done.
  destruct (digitOf_pretty_N_char (x `mod` 10)%N) as (Hdigit & _);
    [by apply N.mod_lt|].
  pose proof (N.div_mod x 10 ltac:(done)) as Hdm.
  destruct (N.eq_0_gt_0_cases (x `div` 10)%N) as [Hdiv|Hdiv].
  - rewrite Hdiv, pretty_N_go_0. cbn [readDigits]. rewrite Hdigit. simpl default.
    do 2 f_equal. lia.
  - rewrite (IH (x `div` 10)%N) by (done || apply N.div_lt; lia). cbn [readDigits].
    rewrite Hdigit.
    simpl default. do 2 f_equal. lia.
Qed.

Lemma pretty_N_go_no_dot x : forall s,
  split "." (pretty_N_go x s)
  = (pretty_N_go x (hd "" (split "." s))) :: tl (split "." s).
Proof.
  induction (N.lt_wf_0 x) as [x _ IH]; intros s.
  assert (x = 0 \/ 0 < x)%N as [->|Hx] by lia.
  { rewrite !pretty_N_go_0. by destruct s as [|c s]; simpl; repeat case_match. }
  rewrite (pretty_N_go_step x s), (pretty_N_go_step x (hd "" (split "." s))) by done.
  rewrite (IH (x `div` 10)%N) by (apply N.div_lt; lia).
  destruct (digitOf_pretty_N_char (x `mod` 10)%N) as (_ & _ & _ & _ & Hdot);
    [by apply N.mod_lt|].
  cbn [split]. rewrite (proj2 (Ascii.eqb_neq _ _) Hdot).
  by destruct (split "." s).
Qed.

Lemma split_nonempty sep s : split sep s <> [].
Proof. destruct s as [|c s]; simpl; repeat case_match; done. Qed.

Lemma hd_split_startsWithDigit s :
  startsWithDigit s = false -> startsWithDigit (hd "" (split "." s)) = false.
Proof.
  destruct s as [|c s]; [done|]. simpl. intros Hc.
  destruct (Ascii.eqb c "."); [done|]. by destruct (split "." s).
Qed.

(** The parts of a string that starts with a numeral. *)
Lemma split_pretty (x : N) s :
  split "." (pretty x +:+ s)
  = (pretty x +:+ hd "" (split "." s)) :: tl (split "." s).
Proof.
  unfold pretty, pretty_N. destruct (decide (x = 0)%N) as [->|Hx].
  - simpl. change ("" +:+ s) with s.
    destruct (split "." s) eqn:Hs; [by destruct (split_nonempty "." s)|done].
  - rewrite !pretty_N_go_app. change ("" +:+ s) with s.
    change ("" +:+ hd "" (split "." s)) with (hd "" (split "." s)).
    apply pretty_N_go_no_dot.
Qed.

(** [parseInt] reads a numeral that is not followed by a digit. *)
Lemma parseInt_pretty (x : N) s :
  startsWithDigit s = false -> parseInt (pretty x +:+ s) = Some (Z.of_N x).
Proof.
  intros Hs.
  assert (readDigits s (Some (Z.of_N x)) = Some (Z.of_N x)) as Hrest.
  { destruct s as [|c s]; [done|]. simpl in *. unfold digitOf, isDigit in *.
    by rewrite Hs. }
  unfold pretty, pretty_N. destruct (decide (x = 0)%N) as [->|Hx].
  - unfold parseInt. simpl. exact Hrest.
  - rewrite pretty_N_go_app. change ("" +:+ s) with s.
    destruct (pretty_N_go_head x s) as (d & rest & Hd & Hhead); [lia|].
    assert (parseInt (pretty_N_go x s) = readDigits (pretty_N_go x s) None) as ->.
    { rewrite Hhead. unfold parseInt. cbn [trimStart].
      destruct (digitOf_pretty_N_char d Hd) as (_ & -> & Hminus & Hplus & _).
      destruct (pretty_N_char d) as [[] [] [] [] [] [] [] []]; done. }
    rewrite readDigits_pretty_N_go by lia. exact Hrest.
Qed.

Lemma string_app_assoc (a b c : string) : (a +:+ b) +:+ c = a +:+ (b +:+ c).
Proof.
  induction a as [|x a IH]; [done|].
  change (String x ((a +:+ b) +:+ c) = String x (a +:+ (b +:+ c))). by rewrite IH.
Qed.

(** X9. [parseVersion] reads back what [major.minor.patch] in decimal
    writes, and ignores whatever follows the patch number as long as it
    does not start with a digit (a pre-release tag, a fourth component).
    The numbers are below 2^53, where JavaScript numbers are exact. *)
Theorem parseVersion_formatVersion (major minor patch : N) (suffix : string) :
  (major < 2 ^ 53)%N -> (minor < 2 ^ 53)%N -> (patch < 2 ^ 53)%N ->
  startsWithDigit suffix = false ->
  parseVersion (formatVersion major minor patch +:+ suffix)
  = Some (mkVersion (Z.of_N major) (Z.of_N minor) (Z.of_N patch)).
Proof.
  intros _ _ _ Hsuffix. unfold parseVersion, formatVersion.
  rewrite !string_app_assoc.
  assert (forall s, "." +:+ s = String "."%char s) as Hdot by done.
  rewrite !Hdot. clear Hdot.
  assert (nonEmpty (pretty major
                    +:+ String "." (pretty minor +:+ String "." (pretty patch +:+ suffix)))
          = true) as ->.
  { unfold pretty at 1. unfold pretty_N. case_decide; [done|].
    destruct (pretty_N_go_head major "") as (d & rest & _ & ->); [lia|]. done. }
  cbn [negb].
  rewrite split_pretty. cbn [split]. rewrite Ascii.eqb_refl. cbn [hd tl].
  rewrite split_pretty. cbn [split]. rewrite Ascii.eqb_refl. cbn [hd tl].
  rewrite split_pretty.
  cbn [length Nat.ltb Nat.leb nth].
  rewrite !parseInt_pretty; [done|by apply hd_split_startsWithDigit|done|done].
Qed.

Lemma parseVersion_formatVersion_witness :
  parseVersion (formatVersion 1 4 9 +:+ "-beta.2")
  = Some (mkVersion (Z.of_N 1) (Z.of_N 4) (Z.of_N 9)).
Proof.
  apply (parseVersion_formatVersion 1 4 9 "-beta.2"); reflexivity.
Defined.

(** ** Profiles without equipment container *)

Lemma findEquipmentId_None inventoryItems :
  Forall (fun item => _tpl item <> EQUIPMENT_TEMPLATE_ID) inventoryItems ->
  findEquipmentId inventoryItems = None.
Proof.
  induction 1 as [|item rest Hitem _ IH]; [done|]. simpl.
  by rewrite (proj2 (String.eqb_neq _ _) Hitem).
Qed.

(** X10. A profile that holds no record of the equipment-container type
    is never modified: whatever the snapshot file holds, [tryRestore]
    fails and leaves the collection exactly as it was. *)
Theorem tryRestore_needs_profile_equipment config env rateLimitMap n sessionId before :
  Forall (fun item => _tpl item <> EQUIPMENT_TEMPLATE_ID) before ->
  let out := tryRestore config env rateLimitMap n sessionId (Some before) in
  success (result out) = false /\ inventoryItems out = Some before.
Proof.
  intros Hnone. apply findEquipmentId_None in Hnone. cbv zeta.
  unfold tryRestore. repeat case_match; try done.
  all: match goal with
       | H : restoreFromFile _ _ _ _ = _ |- _ => revert H
       end.
  all: unfold restoreFromFile; rewrite Hnone; cbn [truthyStr negb].
  all: repeat case_match; intros; by simplify_eq.
Qed.

Lemma tryRestore_needs_profile_equipment_witness :
  let out := tryRestore DEFAULT_CONFIG (hostWith packSnapshot) ∅ 0 "session1"
               (Some [lootedPistol]) in
  success (result out) = false /\ inventoryItems out = Some [lootedPistol].
Proof.
  apply (tryRestore_needs_profile_equipment DEFAULT_CONFIG (hostWith packSnapshot) ∅ 0
           "session1" [lootedPistol]).
  repeat constructor. discriminate.
Defined.

(** ** Managed slots *)

Lemma lowerSet_spec slots x :
  x ∈ lowerSet slots <-> exists s, s ∈ default [] slots /\ toLowerCase s = x.
Proof.
  unfold lowerSet. rewrite elem_of_list_to_set, list_elem_of_fmap. naive_solver.
Qed.

Lemma snapshotSlotsOf_spec snapshotItems snapshotEquipmentId x :
  x ∈ snapshotSlotsOf snapshotItems snapshotEquipmentId
  <-> exists item, item ∈ snapshotItems /\ parentId item = snapshotEquipmentId
        /\ truthyStr (slotId item) = true
        /\ toLowerCase (default "" (slotId item)) = x.
Proof.
  unfold snapshotSlotsOf.
  set (f := fun (slots : gset string) (item : Item) =>
              if bool_decide (parentId item = snapshotEquipmentId)
                 && truthyStr (slotId item)
              then {[ toLowerCase (default "" (slotId item)) ]} ∪ slots
              else slots).
  assert (forall l (acc : gset string),
             x ∈ fold_left f l acc
             <-> x ∈ acc \/ exists item, item ∈ l /\ parentId item = snapshotEquipmentId
                   /\ truthyStr (slotId item) = true
                   /\ toLowerCase (default "" (slotId item)) = x) as Hfold.
  { induction l as [|item l IH]; intros acc; cbn [fold_left].
    - split; [auto|]. intros [H|(item & Hin & _)]; [done|]. by apply elem_of_nil in Hin.
    - rewrite IH. unfold f at 1.
      destruct (bool_decide (parentId item = snapshotEquipmentId)) eqn:Hp;
        [apply bool_decide_eq_true in Hp|apply bool_decide_eq_false in Hp];
        destruct (truthyStr (slotId item)) eqn:Hs; cbn [andb];
        set_unfold; naive_solver congruence. }
  rewrite Hfold. set_solver.
Qed.

(** X11. Which slots a snapshot manages, for slot names that are ASCII
    strings. With a non-empty [includedSlots] list the list alone decides,
    whatever the snapshot holds: a slot is managed exactly when the list
    names it, letter case aside. Without one (a legacy snapshot) a slot is
    managed exactly when a direct child of the snapshot's equipment
    container sits in it or [emptySlots] names it, letter case aside. *)
Theorem managed_slots_of_snapshot snapshot snapshotEquipmentId slot :
  asciiSlotNames snapshot = true -> isAscii slot = true ->
  let '(included, inSnapshot, empty) := buildSlotSets snapshot snapshotEquipmentId in
  (default [] (includedSlots snapshot) <> [] ->
   isSlotManaged slot included inSnapshot empty = true
   <-> exists s, s ∈ default [] (includedSlots snapshot) /\ sameSlot s slot)
  /\ (default [] (includedSlots snapshot) = [] ->
      isSlotManaged slot included inSnapshot empty = true
      <-> (exists item, item ∈ items snapshot
             /\ parentId item = snapshotEquipmentId
             /\ truthyStr (slotId item) = true
             /\ sameSlot (default "" (slotId item)) slot)
          \/ (exists s, s ∈ default [] (emptySlots snapshot) /\ sameSlot s slot)).
Proof.
  intros _ _. unfold buildSlotSets, isSlotManaged, sameSlot. split.
  - intros Hne.
    assert ((0 <? size (lowerSet (includedSlots snapshot)))%nat = true) as ->.
    { apply Nat.ltb_lt.
      destruct (default [] (includedSlots snapshot)) as [|s slots] eqn:Hslots; [done|].
      assert (toLowerCase s ∈ lowerSet (includedSlots snapshot)) as Hin.
      { apply lowerSet_spec. exists s. rewrite Hslots. split; [left|done]. }
      apply elem_of_subseteq_singleton, subseteq_size in Hin.
      rewrite size_singleton in Hin. lia. }
    rewrite bool_decide_eq_true. apply lowerSet_spec.
  - intros Hnone.
    assert (lowerSet (includedSlots snapshot) = ∅) as ->.
    { unfold lowerSet. by rewrite Hnone. }
    rewrite size_empty. cbn [Nat.ltb Nat.leb].
    rewrite orb_true_iff, !bool_decide_eq_true.
    by rewrite snapshotSlotsOf_spec, lowerSet_spec.
Qed.

Lemma managed_slots_of_snapshot_witness :
  isSlotManaged "HOLSTER" {[ "holster" ]} {[ "backpack" ]} ∅ = true
  <-> exists s, s ∈ ["Holster"] /\ sameSlot s "HOLSTER".
Proof.
  apply (proj1 (managed_slots_of_snapshot
                  (mkSnapshot [snapshotEquipment; snapshotPack] (Some ["Holster"]) None
                              (Some MOD_VERSION))
                  (Some "equip1") "HOLSTER" eq_refl eq_refl)).
  discriminate.
Defined.

(** ** The lookup map *)

Lemma buildItemLookup_fold id : forall (l : list Item) (acc : gmap string Item),
  fold_left (fun lookup item =>
               if nonEmpty (_id item) then <[_id item := item]> lookup else lookup)
            l acc !! id
  = match (if nonEmpty id then last (filter (fun item => _id item = id) l) else None) with
    | Some item => Some item
    | None => acc !! id
    end.
Proof.
  induction l as [|item l IH]; intros acc; cbn [fold_left].
  - by destruct (nonEmpty id).
  - rewrite IH. destruct (nonEmpty id) eqn:Hid.
    2: { destruct (nonEmpty (_id item)) eqn:Hitem; [|done].
         rewrite lookup_insert_ne; [done|congruence]. }
    rewrite filter_cons. destruct (decide (_id item = id)) as [Heq|Hne].
    + rewrite last_cons. destruct (last (filter _ l)); [done|].
      by rewrite Heq, Hid, lookup_insert_eq.
    + destruct (last (filter _ l)); [done|].
      destruct (nonEmpty (_id item)); [|done]. by rewrite lookup_insert_ne.
Qed.

(** X12. The lookup map of [buildItemLookup] answers, for a non-empty id,
    the last record of the list that carries it (a later record replaces
    an earlier one with the same id), and nothing for an id that no record
    carries or for the empty id. *)
Theorem buildItemLookup_last_wins snapshotItems id :
  buildItemLookup snapshotItems !! id
  = if nonEmpty id then last (filter (fun item => _id item = id) snapshotItems)
    else None.
Proof.
  unfold buildItemLookup. rewrite buildItemLookup_fold.
  destruct (nonEmpty id); [|done]. by destruct (last _).
Qed.

(** ** Root slots *)

Lemma recordRootSlot_fold config snapshotEquipmentId itemLookup :
  forall (l : list Item) acc,
    (fold_left (recordRootSlot config snapshotEquipmentId itemLookup) l acc).1
    = fold_left (fun (m : gmap string string) item =>
                   if nonEmpty (_id item) then
                     match recordedRootSlot config item snapshotEquipmentId itemLookup with
                     | Some slot => <[_id item := slot]> m
                     | None => m
                     end
                   else m) l acc.1.
Proof.
  induction l as [|item l IH]; intros [m log]; [done|].
  cbn [fold_left]. rewrite IH. f_equal.
  unfold recordRootSlot, recordedRootSlot.
  destruct (nonEmpty (_id item)); [|done]. cbn [negb].
  destruct (traceRootSlot config item snapshotEquipmentId itemLookup) as [r w].
  cbn [fst]. by destruct (truthyStr r).
Qed.

Lemma toLowerCase_nonEmpty s : nonEmpty s = true -> toLowerCase s <> "".
Proof. by destruct s. Qed.

Lemma lowerChar_idemp c : lowerChar (lowerChar c) = lowerChar c.
Proof. by destruct c as [[] [] [] [] [] [] [] []]; vm_compute. Qed.

Lemma toLowerCase_idemp s : toLowerCase (toLowerCase s) = toLowerCase s.
Proof. induction s as [|c s IH]; [done|]. simpl. by rewrite lowerChar_idemp, IH. Qed.

(** The entries of the root-slot map, one by one. *)
Lemma buildRootSlotMap_entries config snapshotItems snapshotEquipmentId itemLookup :
  let rootSlots :=
    (buildRootSlotMap config snapshotItems snapshotEquipmentId itemLookup).1 in
  (forall id slot,
      rootSlots !! id = Some slot ->
      slot <> "" /\ toLowerCase slot = slot
      /\ exists item, item ∈ snapshotItems /\ _id item = id /\ nonEmpty id = true
           /\ recordedRootSlot config item snapshotEquipmentId itemLookup = Some slot)
  /\ (NoDup (_id <$> snapshotItems) ->
      forall item, item ∈ snapshotItems -> nonEmpty (_id item) = true ->
        rootSlots !! _id item
        = recordedRootSlot config item snapshotEquipmentId itemLookup).
Proof.
  cbv zeta. unfold buildRootSlotMap.
  rewrite recordRootSlot_fold. cbn [fst].
  set (f := fun (m : gmap string string) item =>
              if nonEmpty (_id item) then
                match recordedRootSlot config item snapshotEquipmentId itemLookup with
                | Some slot => <[_id item := slot]> m
                | None => m
                end
              else m).
  assert (forall l id slot,
             fold_left f l ∅ !! id = Some slot ->
             exists item, item ∈ l /\ _id item = id /\ nonEmpty id = true
               /\ recordedRootSlot config item snapshotEquipmentId itemLookup = Some slot)
    as Hsound.
  { induction l as [|x l IH] using rev_ind; intros id slot; [done|].
    rewrite fold_left_app. cbn [fold_left]. unfold f at 1.
    destruct (nonEmpty (_id x)) eqn:Hx;
      [destruct (recordedRootSlot config x snapshotEquipmentId itemLookup) as [s|] eqn:Hr|].
    - destruct (decide (_id x = id)) as [<-|Hne].
      + rewrite lookup_insert_eq. intros [= <-]. exists x. split; [set_solver|done].
      + rewrite lookup_insert_ne by done. intros H.
        destruct (IH id slot H) as (i & Hin & Hi). exists i. split; [set_solver|done].
    - intros H. destruct (IH id slot H) as (i & Hin & Hi). exists i.
      split; [set_solver|done].
    - intros H. destruct (IH id slot H) as (i & Hin & Hi). exists i.
      split; [set_solver|done]. }
  split.
  - intros id slot Hslot. apply Hsound in Hslot as (item & Hin & Hid & Hne & Hrec).
    assert (slot <> "" /\ toLowerCase slot = slot) as [? ?].
    { unfold recordedRootSlot in Hrec.
      destruct (traceRootSlot config item snapshotEquipmentId itemLookup).1 as [r|];
        [|done]. simpl in Hrec.
      destruct (nonEmpty r) eqn:Hr; [|done]. injection Hrec as <-.
      split; [by apply toLowerCase_nonEmpty|apply toLowerCase_idemp]. }
    split_and!; [done..|]. by exists item.
  - revert Hsound.
    induction snapshotItems as [|x l IH] using rev_ind; intros Hsound Hnd item Hin Hne.
    { by apply elem_of_nil in Hin. }
    rewrite fmap_app in Hnd. apply NoDup_app in Hnd as (Hnd & Hdisj & _).
    rewrite fold_left_app. cbn [fold_left].
    apply elem_of_app in Hin as [Hin|Hin].
    + assert (_id x <> _id item) as Hdiff.
      { intros Heq. apply (Hdisj (_id item)); [by apply list_elem_of_fmap_2|].
        rewrite <- Heq. set_solver. }
      unfold f at 1. destruct (nonEmpty (_id x)); [|by apply IH].
      destruct (recordedRootSlot config x snapshotEquipmentId itemLookup);
        [rewrite lookup_insert_ne by done|]; by apply IH.
    + apply list_elem_of_singleton in Hin as ->. unfold f at 1. rewrite Hne.
      destruct (recordedRootSlot config x snapshotEquipmentId itemLookup) as [s|] eqn:Hr;
        [by rewrite lookup_insert_eq|].
      destruct (fold_left f l ∅ !! _id x) as [s|] eqn:Hold; [|done].
      apply Hsound in Hold as (i & Hi & Hid & _).
      destruct (Hdisj (_id x)); [rewrite <- Hid; by apply list_elem_of_fmap_2|set_solver].
Qed.

(** X13. What [buildRootSlotMap] records. Every entry belongs to a
    snapshot record with that (non-empty) id and holds the root slot that
    [traceRootSlot] finds for it, in lower case and not empty. When the
    ids of the snapshot records are pairwise distinct, every record with a
    non-empty id has exactly that entry, or none when its trace finds no
    root slot. *)
Theorem buildRootSlotMap_records config snapshotItems snapshotEquipmentId itemLookup :
  let rootSlots :=
    (buildRootSlotMap config snapshotItems snapshotEquipmentId itemLookup).1 in
  (forall id slot,
      rootSlots !! id = Some slot ->
      slot <> "" /\ toLowerCase slot = slot
      /\ exists item, item ∈ snapshotItems /\ _id item = id /\ nonEmpty id = true
           /\ recordedRootSlot config item snapshotEquipmentId itemLookup = Some slot)
  /\ (NoDup (_id <$> snapshotItems) ->
      forall item, item ∈ snapshotItems -> nonEmpty (_id item) = true ->
        rootSlots !! _id item
        = recordedRootSlot config item snapshotEquipmentId itemLookup).
Proof.
  exact (buildRootSlotMap_entries config snapshotItems snapshotEquipmentId itemLookup).
Qed.

Lemma buildRootSlotMap_records_witness :
  (buildRootSlotMap DEFAULT_CONFIG [snapshotEquipment; snapshotWeapon] (Some "equip1")
     (buildItemLookup [snapshotEquipment; snapshotWeapon])).1 !! _id snapshotWeapon
  = recordedRootSlot DEFAULT_CONFIG snapshotWeapon (Some "equip1")
      (buildItemLookup [snapshotEquipment; snapshotWeapon]).
Proof.
  apply (proj2 (buildRootSlotMap_records DEFAULT_CONFIG [snapshotEquipment; snapshotWeapon]
                  (Some "equip1") (buildItemLookup [snapshotEquipment; snapshotWeapon]))).
  - apply (bool_decide_unpack _). vm_compute. exact I.
  - right. left.
  - reflexivity.
Defined.

(** ** Resolving a root slot *)

Lemma traceLoop_resolves config item equipmentId itemLookup root :
  nonEmpty (_id root) = true -> parentId root = equipmentId ->
  forall init budget depth visited c,
    head (init ++ [root]) = Some c ->
    parentChain itemLookup (init ++ [root]) ->
    walkable equipmentId init ->
    (forall x, x ∈ init -> _id x <> _id root) ->
    (forall x, x ∈ init ++ [root] -> _id x ∉ visited) ->
    length init < budget ->
    traceLoop config item equipmentId itemLookup budget (Some c) depth visited
    = (slotId root, []).
Proof.
  intros Hroot Hparent.
  induction init as [|a init IH];
    intros budget depth visited c Hhead Hchain Hwalk Hdiff Hfresh Hlen;
    simpl in Hhead; injection Hhead as <-;
    (destruct budget as [|budget]; [simpl in Hlen; lia|]).
  - simpl. rewrite Hroot. rewrite bool_decide_eq_false_2 by (apply Hfresh; left).
    simpl. by rewrite bool_decide_eq_true_2.
  - apply walkable_cons in Hwalk as (Hid & Hneq & Hdistinct & Hwalk).
    assert (forall x, x ∈ init ++ [root] -> nonEmpty (_id x) = true /\ _id x <> _id a)
      as Hrest.
    { intros x Hx. apply elem_of_app in Hx as [Hx|Hx].
      - split; [by apply Hwalk|by apply Hdistinct].
      - apply list_elem_of_singleton in Hx as ->. split; [done|].
        intros Heq. apply (Hdiff a); [left|done]. }
    change ((a :: init) ++ [root]) with (a :: (init ++ [root])) in Hchain, Hfresh.
    destruct (init ++ [root]) as [|b rest] eqn:Hnext; [by destruct init|].
    destruct Hchain as (Hp & Hb & Hchain).
    destruct (Hrest b) as [Hbne _]; [left|].
    rewrite (traceLoop_step _ _ _ _ _ _ (_id b)); auto; [|apply Hfresh; left].
    rewrite Hb. apply (IH budget (S depth)); auto.
    + intros x Hx. apply Hdiff. by right.
    + intros x Hx. destruct (Hrest x Hx) as [_ Hne].
      pose proof (Hfresh x (list_elem_of_further _ _ _ Hx)). set_solver.
    + simpl in Hlen. lia.
Qed.

(** X14. A snapshot record that is stored, through at most
    [maxParentTraversalDepth - 1] containers, in a direct child of the
    equipment container resolves to the slot of that direct child: the
    trace follows the chain of parents through the lookup map, logs
    nothing, and answers the [slotId] of the record at the top. *)
Theorem traceRootSlot_resolves config equipmentId itemLookup init root item :
  head (init ++ [root]) = Some item ->
  parentChain itemLookup (init ++ [root]) ->
  walkable equipmentId init ->
  nonEmpty (_id root) = true ->
  (forall x, x ∈ init -> _id x <> _id root) ->
  parentId root = equipmentId ->
  length init < maxParentTraversalDepth config ->
  traceRootSlot config item equipmentId itemLookup = (slotId root, []).
Proof.
  intros Hhead Hchain Hwalk Hroot Hdiff Hparent Hlen. unfold traceRootSlot.
  apply (traceLoop_resolves config item equipmentId itemLookup root Hroot Hparent init);
    auto.
  intros x _. apply not_elem_of_empty.
Qed.

Lemma traceRootSlot_resolves_witness :
  traceRootSlot DEFAULT_CONFIG
    (mkItem "mag1" "mag_tpl" (Some "weapon1") (Some "mod_magazine") None JUndefined)
    (Some "equip1")
    (buildItemLookup
       [snapshotEquipment; snapshotWeapon;
        mkItem "mag1" "mag_tpl" (Some "weapon1") (Some "mod_magazine") None JUndefined])
  = (Some "FirstPrimaryWeapon", []).
Proof.
  apply (traceRootSlot_resolves DEFAULT_CONFIG (Some "equip1")
           (buildItemLookup
              [snapshotEquipment; snapshotWeapon;
               mkItem "mag1" "mag_tpl" (Some "weapon1") (Some "mod_magazine") None
                      JUndefined])
           [mkItem "mag1" "mag_tpl" (Some "weapon1") (Some "mod_magazine") None
                   JUndefined]
           snapshotWeapon).
  - reflexivity.
  - repeat split.
  - split.
    + apply (bool_decide_unpack _). vm_compute. exact I.
    + intros x Hx. apply list_elem_of_singleton in Hx as ->. by split.
  - reflexivity.
  - intros x Hx. apply list_elem_of_singleton in Hx as ->. discriminate.
  - reflexivity.
  - simpl. lia.
Defined.

(** ** Successful restorations *)

Lemma castSnapshot_wellFormed raw :
  validateSnapshot raw = None ->
  Forall (fun x => nonEmpty (_id x) = true /\ nonEmpty (_tpl x) = true)
         (items (castSnapshot raw)).
Proof.
  intros Hvalid.
  assert (forall s, notNonEmptyString (JStr s) = false -> nonEmpty s = true) as Hne.
  { intros [|c s]; [discriminate|done]. }
  destruct raw as [|[rawItems|] included empty version]; try discriminate Hvalid.
  assert (Forall (fun item => wellFormedItem item = true) rawItems) as Hall.
  { destruct rawItems as [|r rawItems]; [discriminate|].
    by apply (validateItems_accepts _ 0). }
  simpl. clear Hvalid. induction Hall as [|r rawItems Hr _ IH]; [constructor|].
  rewrite fmap_cons. constructor; [|exact IH].
  destruct r as [|id tpl p s loc u]; [discriminate|]. simpl in *.
  apply andb_true_iff in Hr as [Hid Htpl]. apply negb_true_iff in Hid, Htpl.
  destruct id; try discriminate. destruct tpl; try discriminate. simpl. auto.
Qed.

(** What a call of [restoreFromFile] that succeeds went through. *)
Lemma restoreFromFile_success config env inventoryItems n r items' log n' :
  restoreFromFile config env inventoryItems n = (Normal r, items', log, n') ->
  success r = true ->
  exists snapshot profileEquipmentId backup n1 kept removed removalLog st,
    parsedSnapshot config env = Some snapshot
    /\ Forall (fun x => nonEmpty (_id x) = true /\ nonEmpty (_tpl x) = true)
              (items snapshot)
    /\ findEquipmentId inventoryItems = Some profileEquipmentId
    /\ nonEmpty profileEquipmentId = true
    /\ createInventoryBackup inventoryItems n = (Normal backup, n1)
    /\ removeManagedSlotItems config inventoryItems profileEquipmentId
         (lowerSet (includedSlots snapshot))
         (snapshotSlotsOf (items snapshot) (findEquipmentId (items snapshot)))
         (lowerSet (emptySlots snapshot))
       = (kept, removed, removalLog)
    /\ addSnapshotItems kept (items snapshot) profileEquipmentId
         (findEquipmentId (items snapshot)) (lowerSet (includedSlots snapshot))
         (buildRootSlotMap config (items snapshot) (findEquipmentId (items snapshot))
            (buildItemLookup (items snapshot))).1
         (collectItemIds kept) n1
       = (st, None, n')
    /\ r = succeeded (added st) (duplicates st) (nonManaged st)
    /\ items' = inventory st.
Proof.
  unfold restoreFromFile, parsedSnapshot, buildSlotSets, restoreFromBackup.
  intros Hrun Hok.
  destruct (checkFileSize config env); [by simplify_eq|].
  destruct (readSnapshotWithRetry config env) as [[content|] readLog]; [|by simplify_eq].
  cbn [fst].
  destruct (JSON_parse env content) as [raw|e]; [|by simplify_eq].
  destruct (validateSnapshot raw) eqn:Hvalid; [by simplify_eq|].
  apply castSnapshot_wellFormed in Hvalid.
  destruct (validateSnapshotVersion (castSnapshot raw)) as [compatible versionLog].
  destruct compatible; cbn [negb] in Hrun; [|by simplify_eq].
  destruct (findEquipmentId inventoryItems) as [pe|] eqn:Hpe;
    cbn [truthyStr negb] in Hrun; [|by simplify_eq].
  destruct (nonEmpty pe) eqn:Hpene; cbn [negb] in Hrun; [|by simplify_eq].
  destruct (buildRootSlotMap _ _ _ _) as [rootSlots traceLog] eqn:Hroots.
  destruct (createInventoryBackup inventoryItems n) as [[backup|e] n1] eqn:Hbackup;
    [|by simplify_eq].
  cbn [default from_option id] in Hrun.
  destruct (removeManagedSlotItems _ _ _ _ _ _) as [[kept removed] removalLog] eqn:Hrem.
  destruct (addSnapshotItems _ _ _ _ _ _ _ _) as [[st [e|]] n2] eqn:Hadd;
    [by simplify_eq|].
  injection Hrun as <- <- <- <-.
  eexists _, pe, backup, n1, kept, removed, removalLog, st.
  split_and!; try done. by rewrite Hroots.
Qed.

Lemma tryRestore_success config env rateLimitMap n sessionId inventory0 :
  success (result (tryRestore config env rateLimitMap n sessionId inventory0)) = true ->
  exists before r items' log n',
    inventory0 = Some before
    /\ restoreFromFile config env before n = (Normal r, items', log, n')
    /\ result (tryRestore config env rateLimitMap n sessionId inventory0) = r
    /\ inventoryItems (tryRestore config env rateLimitMap n sessionId inventory0)
       = Some items'.
Proof.
  unfold tryRestore. repeat case_match; simpl; try discriminate.
  intros Hok. eauto 10.
Qed.

Lemma removeManagedSlotItems_filter config inventoryItems profileEquipmentId
    included inSnapshot empty kept removed log :
  removeManagedSlotItems config inventoryItems profileEquipmentId included inSnapshot
    empty = (kept, removed, log) ->
  exists ids : gset string,
    kept = filter (fun item => _id item ∉ ids) inventoryItems
    /\ removed = length inventoryItems - length kept
    /\ soundIds inventoryItems profileEquipmentId included inSnapshot empty ids.
Proof.
  unfold removeManagedSlotItems.
  destruct (idsToRemove _ _ _ _ _ _) as [ids iterations] eqn:Hids.
  destruct (compactLoop _ _ _ _ _) as [rewritten writeIndex] eqn:Hcompact.
  intros [= <- <- <-]. exists ids.
  apply idsToRemove_spec in Hids as [Hsound _].
  apply (compactLoop_filter _ inventoryItems) in Hcompact; try done.
  assert (take writeIndex rewritten = filter (fun item => _id item ∉ ids) inventoryItems)
    as ->.
  { rewrite Hcompact. apply list_filter_iff. intros item.
    rewrite negb_True, bool_decide_spec. done. }
  done.
Qed.

(** The parts of a successful restoration: the records that were kept,
    and the records that were made from the snapshot. *)
Lemma tryRestore_success_parts config env rateLimitMap n sessionId inventory0 :
  let out := tryRestore config env rateLimitMap n sessionId inventory0 in
  success (result out) = true ->
  exists before snapshot profileEquipmentId (ids : gset string) st n1 n',
    inventory0 = Some before
    /\ parsedSnapshot config env = Some snapshot
    /\ Forall (fun x => nonEmpty (_id x) = true /\ nonEmpty (_tpl x) = true)
              (items snapshot)
    /\ findEquipmentId before = Some profileEquipmentId
    /\ addSnapshotItems (filter (fun item => _id item ∉ ids) before) (items snapshot)
         profileEquipmentId (findEquipmentId (items snapshot))
         (lowerSet (includedSlots snapshot))
         (buildRootSlotMap config (items snapshot) (findEquipmentId (items snapshot))
            (buildItemLookup (items snapshot))).1
         (collectItemIds (filter (fun item => _id item ∉ ids) before)) n1
       = (st, None, n')
    /\ result out = succeeded (added st) (duplicates st) (nonManaged st)
    /\ inventoryItems out = Some (inventory st).
Proof.
  cbv zeta. intros Hok.
  destruct (tryRestore_success _ _ _ _ _ _ Hok)
    as (before & r & items' & log & n' & -> & Hrun & Hr & Hitems).
  rewrite Hr in Hok. rewrite Hr, Hitems.
  apply restoreFromFile_success in Hrun
    as (snapshot & pe & backup & n1 & kept & removed & removalLog & st
        & Hsnap & Hwf & Hpe & _ & _ & Hrem & Hadd & -> & ->); [|done].
  apply removeManagedSlotItems_filter in Hrem as (ids & -> & _).
  eexists before, snapshot, pe, ids, st, n1, n'. done.
Qed.

Lemma reachesSlotCheck_wellFormed x :
  nonEmpty (_id x) = true -> nonEmpty (_tpl x) = true ->
  reachesSlotCheck x = negb (isEquipmentRecord x).
Proof.
  intros Hid Htpl. unfold reachesSlotCheck, isEquipmentRecord.
  by rewrite Hid, Htpl, !andb_true_r.
Qed.

(** X15. After a successful restoration the collection consists of the
    profile records that were kept, in their order, followed by the
    records made from the snapshot; [itemsAdded] is the number of the
    latter. The new records have non-empty ids that differ from each other
    and from the ids of the records that were kept. *)
Theorem tryRestore_success_shape config env rateLimitMap n sessionId before :
  let out := tryRestore config env rateLimitMap n sessionId (Some before) in
  success (result out) = true ->
  exists kept restored,
    inventoryItems out = Some (kept ++ restored)
    /\ sublist kept before
    /\ length restored = itemsAdded (result out)
    /\ NoDup (_id <$> restored)
    /\ forall a, a ∈ restored ->
         nonEmpty (_id a) = true /\ (forall k, k ∈ kept -> _id k <> _id a).
Proof.
  cbv zeta. intros Hok.
  destruct (tryRestore_success_parts _ _ _ _ _ _ Hok)
    as (before' & snapshot & pe & ids & st & n1 & n' & [= <-] & _ & _ & _ & Hadd
        & -> & ->).
  unfold addSnapshotItems in Hadd.
  apply addLoop_spec in Hadd
    as (restored & Hinv & _ & Hnd & Hnew & Hadded & _). simpl in Hinv, Hadded.
  exists (filter (fun item => _id item ∉ ids) before), restored.
  split_and!; [by rewrite Hinv|apply sublist_filter|simpl; lia|done|].
  intros a Ha. destruct (Hnew a Ha) as (Hfresh & x & _ & Hid & Hreach & _).
  apply reachesSlotCheck_nonEmpty in Hreach as [Hne _]. rewrite <- Hid in Hne.
  split; [done|]. intros k Hk Heq. apply Hfresh. simpl.
  apply collectItemIds_spec. exists k. by rewrite Heq.
Qed.

Lemma tryRestore_success_shape_witness :
  let out := tryRestore DEFAULT_CONFIG (hostWith cycleSnapshot) ∅ 0 "session1"
               (Some [profileEquipment]) in
  exists kept restored,
    inventoryItems out = Some (kept ++ restored)
    /\ sublist kept [profileEquipment]
    /\ length restored = itemsAdded (result out)
    /\ NoDup (_id <$> restored)
    /\ forall a, a ∈ restored ->
         nonEmpty (_id a) = true /\ (forall k, k ∈ kept -> _id k <> _id a).
Proof.
  apply (tryRestore_success_shape DEFAULT_CONFIG (hostWith cycleSnapshot) ∅ 0 "session1"
           [profileEquipment]).
  vm_compute. reflexivity.
Defined.

Lemma NoDup_fmap_filter {A B} (f : A -> B) (P : A -> Prop) `{forall x, Decision (P x)}
    (l : list A) :
  NoDup (f <$> l) -> NoDup (f <$> filter P l).
Proof.
  intros Hnd. eapply sublist_NoDup; [exact Hnd|].
  apply fmap_sublist, sublist_filter.
Qed.

(** X16. A successful restoration never creates a duplicate id: when the
    ids of the profile records are pairwise distinct before the call,
    they are after it. *)
Theorem tryRestore_keeps_ids_distinct config env rateLimitMap n sessionId before :
  NoDup (_id <$> before) ->
  let out := tryRestore config env rateLimitMap n sessionId (Some before) in
  success (result out) = true ->
  exists after, inventoryItems out = Some after /\ NoDup (_id <$> after).
Proof.
  cbv zeta. intros Hdistinct Hok.
  destruct (tryRestore_success_parts _ _ _ _ _ _ Hok)
    as (before' & snapshot & pe & ids & st & n1 & n' & [= <-] & _ & _ & _ & Hadd
        & _ & ->).
  unfold addSnapshotItems in Hadd.
  apply addLoop_spec in Hadd as (restored & Hinv & _ & Hnd & Hnew & _).
  simpl in Hinv. eexists. split; [done|]. rewrite Hinv, fmap_app.
  apply NoDup_app. split_and!; [by apply NoDup_fmap_filter| |done].
  intros i Hkept Hrestored.
  apply list_elem_of_fmap in Hkept as (k & -> & Hk).
  apply list_elem_of_fmap in Hrestored as (a & Heq & Ha).
  destruct (Hnew a Ha) as (Hfresh & x & _ & Hid & Hreach & _).
  apply reachesSlotCheck_nonEmpty in Hreach as [Hne _]. rewrite <- Hid in Hne.
  apply Hfresh. simpl. apply collectItemIds_spec. by exists k.
Qed.

Lemma tryRestore_keeps_ids_distinct_witness :
  let out := tryRestore DEFAULT_CONFIG (hostWith cycleSnapshot) ∅ 0 "session1"
               (Some [profileEquipment]) in
  exists after, inventoryItems out = Some after /\ NoDup (_id <$> after).
Proof.
  apply (tryRestore_keeps_ids_distinct DEFAULT_CONFIG (hostWith cycleSnapshot) ∅ 0
           "session1" [profileEquipment]).
  - apply (bool_decide_unpack _). vm_compute. exact I.
  - vm_compute. reflexivity.
Defined.

Lemma AddStep_count includedSlots itemRootSlots st x st' :
  AddStep includedSlots itemRootSlots st x st' ->
  added st' + duplicates st' + nonManaged st'
  = added st + duplicates st + nonManaged st + (if reachesSlotCheck x then 1 else 0).
Proof.
  intros [Htpl|Htpl Hreach|Hreach Hout|Hreach Hout Hdup|newItem Hreach Hout Hnew Hid];
    simpl; rewrite ?Hreach; try lia.
  unfold reachesSlotCheck. rewrite Htpl. simpl. lia.
Qed.

Lemma addLoop_count profileEquipmentId snapshotEquipmentId includedSlots itemRootSlots :
  forall snapshotItems st n final n',
    addLoop profileEquipmentId snapshotEquipmentId includedSlots itemRootSlots
      snapshotItems st n = (final, None, n') ->
    added final + duplicates final + nonManaged final
    = added st + duplicates st + nonManaged st
      + length (filter (fun x => reachesSlotCheck x) snapshotItems).
Proof.
  induction snapshotItems as [|x snapshotItems IH]; intros st n final n' Hrun;
    simpl in Hrun.
  - injection Hrun as <- <-. simpl. lia.
  - destruct (addSnapshotItem _ _ _ _ st x n) as [[st1|e] n1] eqn:Hstep; [|done].
    apply addSnapshotItem_step, AddStep_count in Hstep.
    apply IH in Hrun. rewrite (length_filter_cons_bool reachesSlotCheck). lia.
Qed.

(** X17. Every snapshot record is accounted for. After a successful
    restoration, [itemsAdded + duplicatesSkipped + nonManagedSkipped]
    equals the number of snapshot records that are not of the
    equipment-container type: each of them was added, or skipped as a
    duplicate, or skipped as content of an unmanaged slot, and none for
    missing data (the validation has excluded that). *)
Theorem tryRestore_accounts_for_every_record config env rateLimitMap n sessionId
    inventory0 :
  let out := tryRestore config env rateLimitMap n sessionId inventory0 in
  success (result out) = true ->
  exists snapshot,
    parsedSnapshot config env = Some snapshot
    /\ itemsAdded (result out) + duplicatesSkipped (result out)
       + nonManagedSkipped (result out)
       = length (filter (fun x => isEquipmentRecord x = false) (items snapshot)).
Proof.
  cbv zeta. intros Hok.
  destruct (tryRestore_success_parts _ _ _ _ _ _ Hok)
    as (before & snapshot & pe & ids & st & n1 & n' & _ & Hsnap & Hwf & _ & Hadd
        & -> & _).
  exists snapshot. split; [done|]. simpl.
  unfold addSnapshotItems in Hadd. apply addLoop_count in Hadd. simpl in Hadd.
  rewrite Hadd. f_equal. clear Hadd.
  induction Hwf as [|x l [Hid Htpl] _ IH]; [done|].
  rewrite !filter_cons, <- IH.
  rewrite (reachesSlotCheck_wellFormed x Hid Htpl).
  by destruct (isEquipmentRecord x).
Qed.

Lemma tryRestore_accounts_for_every_record_witness :
  let out := tryRestore DEFAULT_CONFIG (hostWith cycleSnapshot) ∅ 0 "session1"
               (Some [profileEquipment]) in
  exists snapshot,
    parsedSnapshot DEFAULT_CONFIG (hostWith cycleSnapshot) = Some snapshot
    /\ itemsAdded (result out) + duplicatesSkipped (result out)
       + nonManagedSkipped (result out)
       = length (filter (fun x => isEquipmentRecord x = false) (items snapshot)).
Proof.
  apply (tryRestore_accounts_for_every_record DEFAULT_CONFIG (hostWith cycleSnapshot) ∅ 0
           "session1" (Some [profileEquipment])).
  vm_compute. reflexivity.
Defined.

Lemma createItemFromSnapshot_restored x profileEquipmentId snapshotEquipmentId n a n' :
  createItemFromSnapshot x profileEquipmentId snapshotEquipmentId n = (Normal a, n') ->
  restoredFrom profileEquipmentId snapshotEquipmentId x a.
Proof.
  unfold createItemFromSnapshot, restoredFrom, bind, ret.
  destruct (truthy (upd x)) eqn:Hu.
  - destruct (deepCloneItemUpd (upd x) n) as [[u|e] n1] eqn:Hclone; intros [= <- <-].
    simpl. split_and!; try done. exists n. by rewrite Hclone.
  - intros [= <- <-]. simpl. split_and!; done.
Qed.

Lemma addSnapshotItem_created profileEquipmentId snapshotEquipmentId includedSlots
    itemRootSlots st x n st' n' :
  addSnapshotItem profileEquipmentId snapshotEquipmentId includedSlots itemRootSlots
    st x n = (Normal st', n') ->
  inventory st' = inventory st
  \/ exists a, inventory st' = inventory st ++ [a]
       /\ restoredFrom profileEquipmentId snapshotEquipmentId x a.
Proof.
  unfold addSnapshotItem.
  repeat case_match; try (intros [= <- <-]; by left).
  unfold bind, ret.
  destruct (createItemFromSnapshot x profileEquipmentId snapshotEquipmentId n)
    as [[a|e] n1] eqn:Hcreate; [|discriminate].
  intros [= <- <-]. right. exists a. split; [done|].
  by apply createItemFromSnapshot_restored in Hcreate.
Qed.

Lemma addLoop_created profileEquipmentId snapshotEquipmentId includedSlots itemRootSlots :
  forall snapshotItems st n final err n',
    addLoop profileEquipmentId snapshotEquipmentId includedSlots itemRootSlots
      snapshotItems st n = (final, err, n') ->
    exists sources appended,
      inventory final = inventory st ++ appended
      /\ sublist sources snapshotItems
      /\ Forall2 (restoredFrom profileEquipmentId snapshotEquipmentId) sources appended.
Proof.
  induction snapshotItems as [|x snapshotItems IH]; intros st n final err n' Hrun;
    simpl in Hrun.
  - injection Hrun as <- <- <-. exists [], []. rewrite app_nil_r.
    split_and!; [done|constructor|constructor].
  - destruct (addSnapshotItem _ _ _ _ st x n) as [[st1|e] n1] eqn:Hstep.
    + apply IH in Hrun as (sources & appended & Hinv & Hsub & Hall).
      apply addSnapshotItem_created in Hstep as [Hsame|(a & Hone & Ha)].
      * exists sources, appended. rewrite Hinv, Hsame.
        split_and!; [done|by apply sublist_cons|done].
      * exists (x :: sources), (a :: appended). rewrite Hinv, Hone, <- app_assoc.
        split_and!; [done|by apply sublist_skip|by constructor].
    + injection Hrun as <- <- <-. exists [], []. rewrite app_nil_r.
      split_and!; [done|apply sublist_nil_l|constructor].
Qed.

(** X18. What a successful restoration adds. The records after the kept
    ones are made from snapshot records, in the order of the snapshot:
    each has the id, type, slot and placement of its source; its parent is
    the profile's equipment container when the source's parent was the
    snapshot's equipment container, and the source's parent otherwise; its
    state is a clone of the source's, or absent when the source has
    none. *)
Theorem tryRestore_restores_snapshot_records config env rateLimitMap n sessionId before :
  let out := tryRestore config env rateLimitMap n sessionId (Some before) in
  success (result out) = true ->
  exists snapshot profileEquipmentId kept sources restored,
    parsedSnapshot config env = Some snapshot
    /\ findEquipmentId before = Some profileEquipmentId
    /\ inventoryItems out = Some (kept ++ restored)
    /\ sublist kept before
    /\ sublist sources (items snapshot)
    /\ Forall2 (restoredFrom profileEquipmentId (findEquipmentId (items snapshot)))
               sources restored.
Proof.
  cbv zeta. intros Hok.
  destruct (tryRestore_success_parts _ _ _ _ _ _ Hok)
    as (before' & snapshot & pe & ids & st & n1 & n' & [= <-] & Hsnap & _ & Hpe & Hadd
        & _ & ->).
  unfold addSnapshotItems in Hadd.
  apply addLoop_created in Hadd as (sources & restored & Hinv & Hsub & Hall).
  simpl in Hinv.
  exists snapshot, pe, (filter (fun item => _id item ∉ ids) before), sources, restored.
  split_and!; [done|done|by rewrite Hinv|apply sublist_filter|done|done].
Qed.

Lemma tryRestore_restores_snapshot_records_witness :
  let out := tryRestore DEFAULT_CONFIG (hostWith cycleSnapshot) ∅ 0 "session1"
               (Some [profileEquipment]) in
  exists snapshot profileEquipmentId kept sources restored,
    parsedSnapshot DEFAULT_CONFIG (hostWith cycleSnapshot) = Some snapshot
    /\ findEquipmentId [profileEquipment] = Some profileEquipmentId
    /\ inventoryItems out = Some (kept ++ restored)
    /\ sublist kept [profileEquipment]
    /\ sublist sources (items snapshot)
    /\ Forall2 (restoredFrom profileEquipmentId (findEquipmentId (items snapshot)))
               sources restored.
Proof.
  apply (tryRestore_restores_snapshot_records DEFAULT_CONFIG (hostWith cycleSnapshot) ∅ 0
           "session1" [profileEquipment]).
  vm_compute. reflexivity.
Defined.

(** ** What the removal keeps *)

Lemma NoDup_fmap_eq {A B} (f : A -> B) (l : list A) x y :
  NoDup (f <$> l) -> x ∈ l -> y ∈ l -> f x = f y -> x = y.
Proof.
  induction l as [|a l IH]; intros Hnd Hx Hy Heq; [by apply elem_of_nil in Hx|].
  rewrite fmap_cons in Hnd. apply NoDup_cons in Hnd as [Ha Hnd].
  apply elem_of_cons in Hx as [->|Hx]; apply elem_of_cons in Hy as [->|Hy]; auto.
  - destruct Ha. rewrite Heq. by apply list_elem_of_fmap_2.
  - destruct Ha. rewrite <- Heq. by apply list_elem_of_fmap_2.
Qed.

Lemma storedIn_parent root profileEquipmentId : forall path x,
  storedIn (path ++ [root]) -> parentId root = Some profileEquipmentId ->
  x ∈ path ++ [root] -> is_Some (parentId x).
Proof.
  induction path as [|a path IH]; intros x Hstored Hroot Hx.
  - apply list_elem_of_singleton in Hx as ->. by eexists.
  - change ((a :: path) ++ [root]) with (a :: (path ++ [root])) in Hstored, Hx.
    destruct (path ++ [root]) as [|b rest] eqn:Hnext; [by destruct path|].
    destruct Hstored as [Ha Hstored].
    apply elem_of_cons in Hx as [->|Hx]; [by eexists|]. by apply IH.
Qed.

Section Kept.
Variables (inventoryItems : list Item) (profileEquipmentId : string)
          (included inSnapshot empty : gset string).
Hypothesis Hdistinct : NoDup (_id <$> inventoryItems).
Hypothesis Hequipment :
  forall e, e ∈ inventoryItems -> _id e = profileEquipmentId -> parentId e = None.

Lemma equipment_not_removable :
  ~ Removable inventoryItems profileEquipmentId included inSnapshot empty
      profileEquipmentId.
Proof.
  intros Hrem.
  inversion Hrem as [item Hin Hp Hm Hid|item p Hin Hp Hpne Hparent Hid];
    rewrite (Hequipment item Hin Hid) in Hp; discriminate.
Qed.

Lemma unmanaged_not_removable root :
  parentId root = Some profileEquipmentId ->
  isSlotManaged (default "" (slotId root)) included inSnapshot empty = false ->
  forall path,
    storedIn (path ++ [root]) ->
    (forall x, x ∈ path ++ [root] -> x ∈ inventoryItems) ->
    forall x, x ∈ path ++ [root] ->
      ~ Removable inventoryItems profileEquipmentId included inSnapshot empty (_id x).
Proof.
  intros Hroot Hunmanaged.
  induction path as [|a path IH]; intros Hstored Hin x Hx Hrem.
  - apply list_elem_of_singleton in Hx as ->.
    assert (root ∈ inventoryItems) as Hrootin by (apply Hin; left).
    inversion Hrem as [item Hitem Hp Hm Hid|item p Hitem Hp Hpne Hparent Hid];
      apply (NoDup_fmap_eq _id inventoryItems item root Hdistinct Hitem Hrootin) in Hid;
      subst item.
    + congruence.
    + rewrite Hroot in Hp. injection Hp as <-. by apply equipment_not_removable.
  - change ((a :: path) ++ [root]) with (a :: (path ++ [root])) in Hstored, Hin, Hx.
    assert (exists b rest, path ++ [root] = b :: rest) as (b & rest & Hnext)
      by (destruct path; simpl; eauto).
    rewrite Hnext in Hstored. destruct Hstored as [Hab Hstored].
    rewrite <- Hnext in Hstored.
    assert (b ∈ path ++ [root]) as Hb by (rewrite Hnext; left).
    pose proof (IH Hstored (fun y Hy => Hin y (list_elem_of_further _ _ _ Hy))) as Hkept.
    apply elem_of_cons in Hx as [->|Hx]; [|by apply (Hkept x Hx)].
    assert (a ∈ inventoryItems) as Hain by (apply Hin; left).
    inversion Hrem as [item Hitem Hp Hm Hid|item p Hitem Hp Hpne Hparent Hid];
      apply (NoDup_fmap_eq _id inventoryItems item a Hdistinct Hitem Hain) in Hid;
      subst item.
    + rewrite Hab in Hp. injection Hp as Hbid.
      destruct (storedIn_parent root profileEquipmentId path b Hstored Hroot Hb)
        as [q Hq].
      rewrite (Hequipment b) in Hq; [discriminate| |done].
      apply Hin. by right.
    + rewrite Hab in Hp. injection Hp as <-. by apply (Hkept b Hb).
Qed.

End Kept.

(** X19. What sits in a slot that is not managed is kept, with
    everything stored inside it. When the ids of the profile records are
    pairwise distinct and the equipment container has no parent, a record
    that is stored, through any number of containers, in a direct child of
    the equipment container whose slot is not managed is still in the
    collection after [removeManagedSlotItems]. *)
Theorem removeManagedSlotItems_keeps_unmanaged config inventoryItems profileEquipmentId
    included inSnapshot empty path root item :
  NoDup (_id <$> inventoryItems) ->
  (forall e, e ∈ inventoryItems -> _id e = profileEquipmentId -> parentId e = None) ->
  head (path ++ [root]) = Some item ->
  (forall x, x ∈ path ++ [root] -> x ∈ inventoryItems) ->
  storedIn (path ++ [root]) ->
  parentId root = Some profileEquipmentId ->
  isSlotManaged (default "" (slotId root)) included inSnapshot empty = false ->
  item ∈ (removeManagedSlotItems config inventoryItems profileEquipmentId
            included inSnapshot empty).1.1.
Proof.
  intros Hdistinct Hequipment Hhead Hin Hstored Hroot Hunmanaged.
  destruct (removeManagedSlotItems config inventoryItems profileEquipmentId
              included inSnapshot empty) as [[kept removed] log] eqn:Hrun.
  apply removeManagedSlotItems_filter in Hrun as (ids & -> & _ & Hsound).
  assert (item ∈ path ++ [root]) as Hitem.
  { destruct (path ++ [root]); [done|]. injection Hhead as ->. left. }
  cbn [fst]. apply list_elem_of_filter. split; [|by apply Hin].
  intros Hids. apply Hsound in Hids.
  by apply (unmanaged_not_removable inventoryItems profileEquipmentId included
              inSnapshot empty Hdistinct Hequipment root Hroot Hunmanaged path Hstored
              Hin item Hitem).
Qed.

Lemma removeManagedSlotItems_keeps_unmanaged_witness :
  doorKey ∈ (removeManagedSlotItems DEFAULT_CONFIG packedProfile "profile_equip"
               {[ "holster" ]} ∅ ∅).1.1.
Proof.
  apply (removeManagedSlotItems_keeps_unmanaged DEFAULT_CONFIG packedProfile
           "profile_equip" {[ "holster" ]} ∅ ∅ [doorKey; keyCase] backpack doorKey).
  - apply (bool_decide_unpack _). vm_compute. exact I.
  - intros e He. unfold packedProfile in He.
    repeat (apply elem_of_cons in He as [->|He]); try done.
    by apply elem_of_nil in He.
  - reflexivity.
  - intros x Hx.
    repeat (apply elem_of_cons in Hx as [->|Hx]); [repeat constructor..|].
    by apply elem_of_nil in Hx.
  - by repeat split.
  - reflexivity.
  - vm_compute. reflexivity.
Defined.

(** ** State that a backup preserves *)

(** The clone agrees with the known sub-fields of its input. *)
Lemma deepCloneItemUpd_restricts u n :
  conformsItemUpd u = true ->
  exists c n', deepCloneItemUpd u n = (Normal c, n')
    /\ deepEqual c (restrictToKnown u).
Proof.
  intros Hconf.
  destruct u as [| | | | | |l0 props]; try discriminate Hconf.
  cbn [conformsItemUpd] in Hconf.
  repeat match type of Hconf with
         | _ && _ = true => apply andb_true_iff in Hconf as [Hconf ?]
         end.
  unfold deepCloneItemUpd. cbn [isUndefined].
  unfold bind at 1. unfold fresh at 1. cbn beta iota.
  assert (cloneInv props n [] ∅) as Hinv.
  { split; [|intros k v l Hk; by rewrite lookup_empty in Hk].
    intros k. rewrite lookup_empty. by rewrite bool_decide_eq_false_2 by set_solver. }
  assert (n <= S n) as Hle by lia.
  do 2 clone_step (copyValue_spec l0 props n).
  do 10 clone_step (copyFields_spec l0 props n).
  clone_step (copySight_spec l0 props n).
  clone_step (copyDogtag_spec l0 props n).
  match goal with
  | Hinv : cloneInv _ _ ?copied ?clone |- _ =>
      destruct Hinv as [Hagree _];
      assert (forall k, k ∈ copied <-> k ∈ knownSubFields) as Hcopied
        by (intros k; unfold knownSubFields; rewrite !elem_of_cons; tauto)
  end.
  eexists _, _. split; [reflexivity|].
  unfold deepEqual. cbn [restrictToKnown erase]. f_equal.
  apply map_eq. intros k. rewrite !lookup_fmap, Hagree.
  rewrite map_lookup_filter.
  destruct (decide (k ∈ knownSubFields)) as [Hk|Hk].
  - rewrite bool_decide_eq_true_2 by (by apply Hcopied).
    destruct (props !! k) as [v|]; [|done]. simpl. by rewrite option_guard_True.
  - rewrite bool_decide_eq_false_2 by (by rewrite Hcopied).
    destruct (props !! k) as [v|]; [|done]. simpl. by rewrite option_guard_False.
Qed.

Lemma declaredState_clone u n :
  declaredState u = true ->
  exists c n', deepCloneItemUpd u n = (Normal c, n') /\ erase c = erase u.
Proof.
  destruct u as [| | | | | |l props]; try discriminate.
  { intros _. by exists JUndefined, n. }
  unfold declaredState. intros Hdecl. apply andb_true_iff in Hdecl as [Hconf Hknown].
  apply bool_decide_eq_true in Hknown.
  destruct (deepCloneItemUpd_restricts (JObj l props) n Hconf) as (c & n' & Hrun & Heq).
  exists c, n'. split; [done|]. rewrite Heq. cbn [restrictToKnown]. do 2 f_equal.
  apply map_filter_id. intros k v Hk. simpl.
  assert (k ∈ (list_to_set knownSubFields : gset string)) as Hin
    by (apply Hknown, elem_of_dom; by eexists).
  by apply elem_of_list_to_set in Hin.
Qed.

Lemma createInventoryBackup_declared : forall profileItems n,
  Forall (fun item => declaredState (upd item) = true) profileItems ->
  exists backup n',
    createInventoryBackup profileItems n = (Normal backup, n')
    /\ itemsDeepEqual backup profileItems.
Proof.
  unfold createInventoryBackup, itemsDeepEqual.
  induction profileItems as [|item rest IH]; intros n Hall.
  - by exists [], n.
  - apply Forall_cons in Hall as [Hitem Hall]. cbn [mapA].
    destruct (declaredState_clone (upd item) n Hitem) as (c & n1 & Hclone & Heq).
    destruct (IH n1 Hall) as (backup & n2 & Hrest & Heqs).
    exists (mkItem (_id item) (_tpl item) (parentId item) (slotId item) (location item) c
              :: backup), n2.
    split.
    + unfold bind at 1. unfold backupItem at 1. unfold bind at 1. rewrite Hclone.
      unfold ret at 1. unfold bind at 1. rewrite Hrest. reflexivity.
    + rewrite !fmap_cons, Heqs. f_equal. unfold eraseItem. simpl. by rewrite Heq.
Qed.

(** X20. Where the rollback is exact. When the state of every profile
    record is absent, or conforms to the interface [ItemUpd] and has no
    sub-field outside the known list, a call of [tryRestore] that fails,
    for whatever reason and at whatever stage, leaves a collection that is
    deep-equal to the one it was given: the same records in the same
    order, with the same ids, parents, slots, placements and state. *)
Theorem failed_restore_keeps_declared_state config env rateLimitMap n sessionId before :
  Forall (fun item => declaredState (upd item) = true) before ->
  let out := tryRestore config env rateLimitMap n sessionId (Some before) in
  success (result out) = false ->
  exists after, inventoryItems out = Some after /\ itemsDeepEqual after before.
Proof.
  cbv zeta. intros Hdeclared Hfail.
  destruct (tryRestore_failure_inventory config env rateLimitMap n sessionId
              (Some before) Hfail)
    as [->|(before' & e & backup & m & [= <-] & _ & Hbackup & ->)].
  - by exists before.
  - exists backup. split; [done|].
    destruct (createInventoryBackup_declared before n Hdeclared)
      as (backup' & n' & Hrun & Heq).
    rewrite Hrun in Hbackup. by injection Hbackup as <- <-.
Qed.

Lemma failed_restore_keeps_declared_state_witness :
  let out := tryRestore DEFAULT_CONFIG (hostWith rollbackSnapshot) ∅ 10 "session1"
               (Some declaredProfile) in
  exists after, inventoryItems out = Some after /\ itemsDeepEqual after declaredProfile.
Proof.
  apply (failed_restore_keeps_declared_state DEFAULT_CONFIG (hostWith rollbackSnapshot)
           ∅ 10 "session1" declaredProfile).
  - repeat constructor.
  - vm_compute. reflexivity.
Defined.

(** ** Loading the configuration *)

Lemma validateNumber_within value defaultValue lo hi :
  (lo <= hi)%Z -> (lo <= defaultValue <= hi)%Z ->
  withinRange lo hi
    (ConfigLoading.validateNumber value (ConfigLoading.ofZ defaultValue)
       (ConfigLoading.ofZ lo) (ConfigLoading.ofZ hi)).
Proof.
  intros Hle [Hlo Hhi]. unfold ConfigLoading.ofZ.
  assert (QArith_base.Qle (QArith_base.inject_Z lo) (QArith_base.inject_Z hi)) as Hq
    by (by rewrite <- QArith_base.Zle_Qle).
  assert (QArith_base.Qle (QArith_base.inject_Z lo) (QArith_base.inject_Z defaultValue)
          /\ QArith_base.Qle (QArith_base.inject_Z defaultValue)
                             (QArith_base.inject_Z hi)) as Hdefault
    by (by rewrite <- !QArith_base.Zle_Qle).
  destruct value as [[q| | |]| |]; simpl; unfold ConfigLoading.ofZ; try exact Hdefault.
  - split; [apply Qminmax.Q.le_max_l|].
    apply Qminmax.Q.max_lub; [done|apply Qminmax.Q.le_min_l].
  - split; [apply Qminmax.Q.le_max_l|].
    apply Qminmax.Q.max_lub; [done|apply QOrderedType.QOrder.le_refl].
  - split; [apply QOrderedType.QOrder.le_refl|done].
Qed.

(** X21. Whatever [config.json] holds, and whether or not it can be read
    and parsed, every number of the configuration that [loadConfig]
    returns is finite and within its range: the traversal depth within
    10..100, the read retries within 1..20, the retry delay within
    50..2000 ms, the size limit within 1 KiB..100 MiB, the restore
    interval within 0..60000 ms. *)
Theorem loadConfig_within_ranges (host : ConfigLoading.ConfigHost) :
  let loaded := ConfigLoading.loadConfig host in
  withinRange 10 100 (ConfigLoading.loadedMaxParentTraversalDepth loaded)
  /\ withinRange 1 20 (ConfigLoading.loadedMaxFileReadRetries loaded)
  /\ withinRange 50 2000 (ConfigLoading.loadedFileReadRetryDelayMs loaded)
  /\ withinRange 1024 (100 * 1024 * 1024)
       (ConfigLoading.loadedMaxSnapshotFileSizeBytes loaded)
  /\ withinRange 0 60000 (ConfigLoading.loadedMinRestoreIntervalMs loaded).
Proof.
  assert (withinRange 10 100 (ConfigLoading.loadedMaxParentTraversalDepth
                                ConfigLoading.defaults)
          /\ withinRange 1 20 (ConfigLoading.loadedMaxFileReadRetries
                                 ConfigLoading.defaults)
          /\ withinRange 50 2000 (ConfigLoading.loadedFileReadRetryDelayMs
                                    ConfigLoading.defaults)
          /\ withinRange 1024 (100 * 1024 * 1024)
               (ConfigLoading.loadedMaxSnapshotFileSizeBytes ConfigLoading.defaults)
          /\ withinRange 0 60000 (ConfigLoading.loadedMinRestoreIntervalMs
                                    ConfigLoading.defaults)) as Hdefaults.
  { simpl. unfold ConfigLoading.ofZ. rewrite <- !QArith_base.Zle_Qle. simpl. lia. }
  cbv zeta. unfold ConfigLoading.loadConfig.
  destruct (ConfigLoading.configExists host); [|done].
  destruct (ConfigLoading.configRead host) as [configJson|e]; [|done].
  destruct (ConfigLoading.configParse host configJson) as [[|property]|e]; try done.
  unfold ConfigLoading.mergeWithDefaults. cbn [ConfigLoading.loadedMaxParentTraversalDepth
    ConfigLoading.loadedMaxFileReadRetries ConfigLoading.loadedFileReadRetryDelayMs
    ConfigLoading.loadedMaxSnapshotFileSizeBytes ConfigLoading.loadedMinRestoreIntervalMs].
  split_and!; apply validateNumber_within; simpl; lia.
Qed.

(** ** Sanitizing for the log *)

Lemma substring_length n s : String.length (String.substring 0 n s) <= n.
Proof.
  revert s. induction n as [|n IH]; intros [|c s]; simpl; try lia.
  specialize (IH s). lia.
Qed.

Lemma substring_printable n s :
  forallb isPrintable (list_ascii_of_string s) = true ->
  forallb isPrintable (list_ascii_of_string (String.substring 0 n s)) = true.
Proof.
  revert s. induction n as [|n IH]; intros [|c s]; simpl; try done.
  intros H. apply andb_true_iff in H as [-> H]. by apply IH.
Qed.

Lemma substring_short n s : String.length s <= n -> String.substring 0 n s = s.
Proof.
  revert s. induction n as [|n IH]; intros [|c s]; simpl; try done; try lia.
  intros H. rewrite IH; [done|lia].
Qed.

Lemma replaceUnprintable_printable s :
  forallb isPrintable (list_ascii_of_string (replaceUnprintable s)) = true.
Proof.
  induction s as [|c s IH]; [done|]. simpl. rewrite IH.
  by destruct (isPrintable c) eqn:Hc; [rewrite Hc|].
Qed.

Lemma replaceUnprintable_id s :
  forallb isPrintable (list_ascii_of_string s) = true -> replaceUnprintable s = s.
Proof.
  induction s as [|c s IH]; [done|]. simpl. intros H.
  apply andb_true_iff in H as [-> H]. by rewrite IH.
Qed.

(** X22. What [sanitizeForLog] returns is safe to log: at most 64
    characters, every one of them in the range [\x20-\x7E], whatever the
    input. An input of at most 64 such characters is returned as it is. *)
Theorem sanitizeForLog_safe input :
  String.length (sanitizeForLog input) <= 64
  /\ forallb isPrintable (list_ascii_of_string (sanitizeForLog input)) = true
  /\ forall s, input = JStr s -> String.length s <= 64 ->
       forallb isPrintable (list_ascii_of_string s) = true ->
       sanitizeForLog input = s.
Proof.
  split_and!.
  - destruct input; try (vm_compute; lia). apply substring_length.
  - destruct input; try reflexivity.
    apply substring_printable, replaceUnprintable_printable.
  - intros s -> Hlen Hclean. simpl.
    rewrite (replaceUnprintable_id s Hclean). by apply substring_short.
Qed.

Lemma sanitizeForLog_safe_witness : sanitizeForLog (JStr "session-123") = "session-123".
Proof.
  apply (proj2 (proj2 (sanitizeForLog_safe (JStr "session-123"))) "session-123").
  - reflexivity.
  - simpl. lia.
  - reflexivity.
Defined.

(** ** Raid ends *)

Lemma tryRestore_keeps_array config env rateLimitMap n sessionId inventoryItems :
  exists after,
    Restorer.inventoryItems
      (tryRestore config env rateLimitMap n sessionId (Some inventoryItems))
    = Some after.
Proof. unfold tryRestore. repeat case_match; simpl; eauto. Qed.

(** X23. A raid end touches the inventory and the rate limiter only for
    the death of a player character. If after [onRaidEnd] the inventory of
    the request differs from what it was, or the rate-limit table has
    changed, then the mod was initialized, the session id was valid, the
    request was not for a scav, its exit status was not one of the
    survival statuses, and its inventory was a non-empty array. *)
Theorem onRaidEnd_restores_only_on_pmc_death ready config env rateLimitMap n sessionID
    info :
  let out := onRaidEnd ready config env rateLimitMap n sessionID info in
  raidProfile out <> (profile <$> info) \/ raidRateLimitMap out <> rateLimitMap ->
  ready = true /\ isValidSessionId sessionID = true
  /\ exists request first rest,
       info = Some request
       /\ truthy (isPlayerScav request) = false
       /\ isSurvivalExit (exit request) = false
       /\ profile request = ItemsArray (first :: rest).
Proof.
  cbv zeta. unfold onRaidEnd.
  destruct ready; cbn [negb]; [|intros [H|H]; by destruct H].
  destruct (isValidSessionId sessionID); cbn [negb]; [|intros [H|H]; by destruct H].
  destruct info as [request|]; [|intros [H|H]; by destruct H].
  destruct (truthy (isPlayerScav request)) eqn:Hscav; [intros [H|H]; by destruct H|].
  destruct (isSurvivalExit (exit request)) eqn:Hexit; [intros [H|H]; by destruct H|].
  unfold handlePlayerDeath.
  destruct (profile request) as [| | |[|first rest]] eqn:Hprofile;
    try (intros [H|H]; destruct H; simpl; by rewrite ?Hprofile).
  intros _. split_and!; [done..|]. by exists request, first, rest.
Qed.

Lemma onRaidEnd_restores_only_on_pmc_death_witness :
  true = true /\ isValidSessionId "session1" = true
  /\ exists request first rest,
       Some deathInfo = Some request
       /\ truthy (isPlayerScav request) = false
       /\ isSurvivalExit (exit request) = false
       /\ profile request = ItemsArray (first :: rest).
Proof.
  apply (onRaidEnd_restores_only_on_pmc_death true DEFAULT_CONFIG
           (hostWith rollbackSnapshot) ∅ 10 "session1" (Some deathInfo)).
  right. intros Hsame.
  apply (f_equal (fun m : gmap string RateLimitEntry => m !! "session1")) in Hsame.
  vm_compute in Hsame. discriminate Hsame.
Defined.

(** X24. The survival statuses are a whitelist. For a player character
    and a valid session, [onRaidEnd] clears the snapshot and leaves the
    inventory alone exactly when the exit status is the string [Survived]
    or [Runner]; on every other status ([Killed], [Left],
    [MissingInAction], one the mod does not know, none at all) and a
    non-empty inventory, it does what [tryRestore] does: the inventory and
    the rate-limit table are those that [tryRestore] leaves, and the file
    is deleted exactly when [tryRestore] deletes it. *)
Theorem onRaidEnd_whitelist config env rateLimitMap n sessionID request :
  isValidSessionId sessionID = true ->
  truthy (isPlayerScav request) = false ->
  let out := onRaidEnd true config env rateLimitMap n sessionID (Some request) in
  ((exit request = JStr "Survived" \/ exit request = JStr "Runner") ->
   raidProfile out = Some (profile request)
   /\ raidRateLimitMap out = rateLimitMap
   /\ raidDeletionRequested (raidEvents out)
      = pathInsideSnapshots env && existsSync env)
  /\ (exit request <> JStr "Survived" -> exit request <> JStr "Runner" ->
      forall first rest, profile request = ItemsArray (first :: rest) ->
        let restore := tryRestore config env rateLimitMap n sessionID
                         (Some (first :: rest)) in
        raidProfile out = ItemsArray <$> inventoryItems restore
        /\ raidRateLimitMap out = Restorer.rateLimitMap restore
        /\ raidDeletionRequested (raidEvents out) = deletionRequested (events restore)).
Proof.
  intros Hvalid Hpmc. cbv zeta. unfold onRaidEnd. rewrite Hvalid, Hpmc. cbn [negb].
  split.
  - intros Hexit.
    assert (isSurvivalExit (exit request) = true) as ->
      by (by destruct Hexit as [-> | ->]).
    cbn [raidProfile raidRateLimitMap raidEvents].
    split_and!; [done..|].
    unfold handlePlayerSurvival, clearSnapshot. rewrite Hvalid. cbn [negb].
    destruct (pathInsideSnapshots env); [|done]. cbn [negb andb].
    unfold deleteSnapshotFile. destruct (existsSync env); [|done].
    by destruct (unlinkSync env).
  - intros Hs Hr first rest Hprofile.
    assert (isSurvivalExit (exit request) = false) as ->.
    { unfold isSurvivalExit. destruct (exit request) as [| | | |s| |]; try done.
      apply orb_false_iff. split; apply String.eqb_neq; congruence. }
    unfold handlePlayerDeath. rewrite Hprofile.
    cbn [raidProfile raidRateLimitMap raidEvents].
    destruct (tryRestore_keeps_array config env rateLimitMap n sessionID (first :: rest))
      as [after Hafter].
    rewrite Hafter. split_and!; [done..|].
    unfold raidDeletionRequested, deletionRequested.
    rewrite existsb_app.
    match goal with
    | |- _ || existsb _ ?report = _ =>
        assert (existsb (fun e => match e with
                                  | Restoring (UnlinkSync _) => true
                                  | Clearing (Deletion (UnlinkSync _)) => true
                                  | _ => false
                                  end) report = false) as ->
          by (repeat case_match; done)
    end.
    rewrite orb_false_r.
    induction (events _) as [|e log IH]; [done|].
    rewrite fmap_cons. cbn [existsb]. rewrite IH. by destruct e.
Qed.

Lemma onRaidEnd_whitelist_witness :
  let out := onRaidEnd true DEFAULT_CONFIG (hostWith rollbackSnapshot) ∅ 10 "session1"
               (Some (mkRaidInfo (JStr "Runner") (JBool false)
                                 (ItemsArray [profileEquipment; lootedPistol]))) in
  raidProfile out = Some (ItemsArray [profileEquipment; lootedPistol])
  /\ raidRateLimitMap out = ∅
  /\ raidDeletionRequested (raidEvents out) = true && true.
Proof.
  apply (proj1 (onRaidEnd_whitelist DEFAULT_CONFIG (hostWith rollbackSnapshot) ∅ 10
                  "session1"
                  (mkRaidInfo (JStr "Runner") (JBool false)
                              (ItemsArray [profileEquipment; lootedPistol]))
                  ltac:(reflexivity) ltac:(reflexivity))).
  by right.
Defined.

(** ** The causes of a mutation error *)

Lemma createInventoryBackup_throws : forall profileItems n e n',
  createInventoryBackup profileItems n = (Throw e, n') ->
  (exists item, item ∈ profileItems /\ cloneThrows (upd item) = true)
  /\ exists msg, e = TypeError msg.
Proof.
  unfold createInventoryBackup.
  induction profileItems as [|item rest IH]; intros n e n'; cbn [mapA]; [discriminate|].
  unfold bind at 1. unfold backupItem at 1. unfold bind at 1.
  pose proof (deepCloneItemUpd_outcome (upd item) n) as Hclone.
  destruct (deepCloneItemUpd (upd item) n) as [[c|e0] n1].
  - unfold ret at 1. unfold bind at 1.
    destruct (mapA backupItem rest n1) as [[backup|e1] n2] eqn:Hrest; [discriminate|].
    intros [= <- <-]. destruct (IH _ _ _ Hrest) as [(i & Hi & Hthrows) Hmsg].
    split; [|done]. exists i. split; [by right|done].
  - intros [= <- <-]. destruct Hclone as [Hthrows Hmsg].
    split; [|done]. exists item. split; [left|done].
Qed.

Lemma addSnapshotItem_throws profileEquipmentId snapshotEquipmentId includedSlots
    itemRootSlots st x n e n' :
  addSnapshotItem profileEquipmentId snapshotEquipmentId includedSlots itemRootSlots
    st x n = (Throw e, n') ->
  truthy (upd x) = true /\ cloneThrows (upd x) = true /\ exists msg, e = TypeError msg.
Proof.
  unfold addSnapshotItem. repeat case_match; try discriminate.
  unfold bind at 1. unfold createItemFromSnapshot.
  destruct (truthy (upd x)) eqn:Htruthy; [|discriminate].
  unfold bind at 1.
  pose proof (deepCloneItemUpd_outcome (upd x) n) as Hclone.
  destruct (deepCloneItemUpd (upd x) n) as [[c|e0] n1]; [discriminate|].
  intros [= <- <-]. by destruct Hclone.
Qed.

Lemma addLoop_throws profileEquipmentId snapshotEquipmentId includedSlots itemRootSlots :
  forall snapshotItems st n final e n',
    addLoop profileEquipmentId snapshotEquipmentId includedSlots itemRootSlots
      snapshotItems st n = (final, Some e, n') ->
    exists x, x ∈ snapshotItems /\ truthy (upd x) = true
      /\ cloneThrows (upd x) = true /\ exists msg, e = TypeError msg.
Proof.
  induction snapshotItems as [|x snapshotItems IH]; intros st n final e n' Hrun;
    simpl in Hrun; [discriminate|].
  destruct (addSnapshotItem _ _ _ _ st x n) as [[st1|e0] n1] eqn:Hstep.
  - destruct (IH _ _ _ _ _ Hrun) as (y & Hy & Hrest). exists y. split; [by right|done].
  - injection Hrun as <- <- <-. apply addSnapshotItem_throws in Hstep.
    exists x. split; [left|done].
Qed.

(** Where the two mutation errors of [restoreFromFile] come from. *)
Lemma restoreFromFile_mutation_error config env profileItems n c items' log n' :
  restoreFromFile config env profileItems n = (c, items', log, n') ->
  match c with
  | Throw e =>
      items' = profileItems
      /\ exists n1, createInventoryBackup profileItems n = (Throw e, n1)
  | Normal r =>
      forall e, r = failed (RolledBack e) ->
        exists snapshot profileEquipmentId kept st n1,
          parsedSnapshot config env = Some snapshot
          /\ addSnapshotItems kept (items snapshot) profileEquipmentId
               (findEquipmentId (items snapshot)) (lowerSet (includedSlots snapshot))
               (buildRootSlotMap config (items snapshot)
                  (findEquipmentId (items snapshot))
                  (buildItemLookup (items snapshot))).1
               (collectItemIds kept) n1
             = (st, Some e, n')
  end.
Proof.
  unfold restoreFromFile, parsedSnapshot, buildSlotSets, restoreFromBackup.
  intros Hrun.
  destruct (checkFileSize config env) as [err|] eqn:Hsize.
  { injection Hrun as <- <- <- <-. intros e [= ->].
    unfold checkFileSize in Hsize. repeat case_match; simplify_eq. }
  destruct (readSnapshotWithRetry config env) as [[content|] readLog];
    [|injection Hrun as <- <- <- <-; intros e [=]].
  cbn [fst].
  destruct (JSON_parse env content) as [raw|e0];
    [|injection Hrun as <- <- <- <-; intros e [=]].
  destruct (validateSnapshot raw); [injection Hrun as <- <- <- <-; intros e [=]|].
  destruct (validateSnapshotVersion (castSnapshot raw)) as [compatible versionLog].
  destruct compatible; cbn [negb] in Hrun;
    [|injection Hrun as <- <- <- <-; intros e [=]].
  destruct (findEquipmentId profileItems) as [pe|]; cbn [truthyStr negb] in Hrun;
    [|injection Hrun as <- <- <- <-; intros e [=]].
  destruct (nonEmpty pe); cbn [negb] in Hrun;
    [|injection Hrun as <- <- <- <-; intros e [=]].
  destruct (buildRootSlotMap _ _ _ _) as [rootSlots traceLog] eqn:Hroots.
  destruct (createInventoryBackup profileItems n) as [[backup|e0] n1] eqn:Hbackup.
  2: { injection Hrun as <- <- <- <-. split; [done|]. by eexists. }
  cbn [default from_option id] in Hrun.
  destruct (removeManagedSlotItems _ _ _ _ _ _) as [[kept removed] removalLog].
  destruct (addSnapshotItems _ _ _ _ _ _ _ _) as [[st [e0|]] n2] eqn:Hadd;
    injection Hrun as <- <- <- <-; intros e [=]. subst e0.
  eexists _, pe, kept, st, n1. split; [done|]. rewrite Hroots. exact Hadd.
Qed.

(** X25. For a profile and a snapshot whose fields have their declared
    types, an [Unexpected error] result has one cause: the backup could
    not be taken, because the state of a profile record cannot be cloned
    (see [cloneThrows]). The error is a [TypeError], and the collection is
    left exactly as it was. *)
Theorem tryRestore_unexpected_error_cause config env rateLimitMap n sessionId before e :
  result (tryRestore config env rateLimitMap n sessionId (Some before))
  = failed (UnexpectedError e) ->
  (exists item, item ∈ before /\ cloneThrows (upd item) = true)
  /\ (exists msg, e = TypeError msg)
  /\ inventoryItems (tryRestore config env rateLimitMap n sessionId (Some before))
     = Some before.
Proof.
  unfold tryRestore. repeat case_match; simpl; try discriminate.
  - intros ->.
    match goal with
    | H : restoreFromFile _ _ _ _ = _ |- _ => revert H
    end.
    unfold restoreFromFile, restoreFromBackup.
    repeat case_match; intros; simplify_eq.
    unfold checkFileSize in *. repeat case_match; simplify_eq.
  - intros [= ->].
    match goal with
    | H : restoreFromFile _ _ _ _ = _ |- _ =>
        apply restoreFromFile_mutation_error in H as [-> [n1 Hbackup]]
    end.
    apply createInventoryBackup_throws in Hbackup as [Hitem Hmsg]. done.
Qed.

Lemma tryRestore_unexpected_error_cause_witness :
  (exists item,
      item ∈ [profileEquipment; mkItem "mag1" "mag_tpl" None None None magazineUpd]
      /\ cloneThrows (upd item) = true)
  /\ (exists msg, TypeError "Cannot read properties of null or undefined" = TypeError msg)
  /\ inventoryItems
       (tryRestore DEFAULT_CONFIG (hostWith packSnapshot) ∅ 10 "session1"
          (Some [profileEquipment; mkItem "mag1" "mag_tpl" None None None magazineUpd]))
     = Some [profileEquipment; mkItem "mag1" "mag_tpl" None None None magazineUpd].
Proof.
  apply (tryRestore_unexpected_error_cause DEFAULT_CONFIG (hostWith packSnapshot) ∅ 10
           "session1"
           [profileEquipment; mkItem "mag1" "mag_tpl" None None None magazineUpd]
           (TypeError "Cannot read properties of null or undefined")).
  vm_compute. reflexivity.
Defined.

(** X26. For a profile and a snapshot whose fields have their declared
    types, a rollback has one cause: a record of the snapshot has a state
    that cannot be cloned (see [cloneThrows]). Whenever [tryRestore]
    reports [Restoration failed, rolled back], the parsed snapshot holds a
    record with a truthy [upd] on which [deepCloneItemUpd] throws, and the
    error reported is that [TypeError]. *)
Theorem tryRestore_rollback_cause config env rateLimitMap n sessionId inventory0 e :
  result (tryRestore config env rateLimitMap n sessionId inventory0)
  = failed (RolledBack e) ->
  exists snapshot x,
    parsedSnapshot config env = Some snapshot
    /\ x ∈ items snapshot
    /\ truthy (upd x) = true
    /\ cloneThrows (upd x) = true
    /\ exists msg, e = TypeError msg.
Proof.
  unfold tryRestore. repeat case_match; simpl; try discriminate.
  intros ->.
  match goal with
  | H : restoreFromFile _ _ _ _ = _ |- _ =>
      apply restoreFromFile_mutation_error in H;
      destruct (H e eq_refl) as (snapshot & pe & kept & st & n1 & Hsnap & Hadd)
  end.
  unfold addSnapshotItems in Hadd. apply addLoop_throws in Hadd as (x & Hx & Hrest).
  by exists snapshot, x.
Qed.

Lemma tryRestore_rollback_cause_witness :
  exists snapshot x,
    parsedSnapshot DEFAULT_CONFIG (hostWith rollbackSnapshot) = Some snapshot
    /\ x ∈ items snapshot
    /\ truthy (upd x) = true
    /\ cloneThrows (upd x) = true
    /\ exists msg, TypeError "Cannot read properties of null or undefined" = TypeError msg.
Proof.
  apply (tryRestore_rollback_cause DEFAULT_CONFIG (hostWith rollbackSnapshot) ∅ 10
           "session1" (Some rollbackProfile)
           (TypeError "Cannot read properties of null or undefined")).
  vm_compute. reflexivity.
Defined.

(** ** Slot names, letter case aside *)

(** X27. ASCII slot names are compared without regard to letter case
    from end to end. For a snapshot whose slot names are ASCII strings,
    whose record ids are pairwise distinct and whose [includedSlots] list
    is not empty, a record that reaches the slot check and whose trace
    finds the non-empty root slot [rootSlot] is skipped as content of an
    unmanaged slot exactly when the list names no slot that equals
    [rootSlot] up to letter case. *)
Theorem unmanaged_slot_check_ignores_case config snapshot x rootSlot :
  asciiSlotNames snapshot = true -> isAscii rootSlot = true ->
  NoDup (_id <$> items snapshot) ->
  default [] (includedSlots snapshot) <> [] ->
  x ∈ items snapshot -> nonEmpty (_id x) = true ->
  (traceRootSlot config x (findEquipmentId (items snapshot))
     (buildItemLookup (items snapshot))).1 = Some rootSlot ->
  nonEmpty rootSlot = true ->
  outsideIncludedSlots (lowerSet (includedSlots snapshot))
    (buildRootSlotMap config (items snapshot) (findEquipmentId (items snapshot))
       (buildItemLookup (items snapshot))).1 x
  = true
  <-> ~ exists s, s ∈ default [] (includedSlots snapshot) /\ sameSlot s rootSlot.
Proof.
  intros _ _ Hdistinct Hslots Hx Hid Htrace Hroot.
  destruct (buildRootSlotMap_entries config (items snapshot)
              (findEquipmentId (items snapshot)) (buildItemLookup (items snapshot)))
    as [_ Hexact].
  unfold outsideIncludedSlots. rewrite (Hexact Hdistinct x Hx Hid).
  unfold recordedRootSlot. rewrite Htrace. cbn [truthyStr]. rewrite Hroot.
  cbn [truthyStr default from_option id].
  assert (nonEmpty (toLowerCase rootSlot) = true) as ->.
  { apply negb_true_iff, String.eqb_neq. by apply toLowerCase_nonEmpty. }
  assert ((0 <? size (lowerSet (includedSlots snapshot)))%nat = true) as ->.
  { apply Nat.ltb_lt.
    destruct (default [] (includedSlots snapshot)) as [|s slots] eqn:Hlist; [done|].
    assert (toLowerCase s ∈ lowerSet (includedSlots snapshot)) as Hin.
    { apply lowerSet_spec. exists s. rewrite Hlist. split; [left|done]. }
    apply elem_of_subseteq_singleton, subseteq_size in Hin.
    rewrite size_singleton in Hin. lia. }
  cbn [andb]. rewrite negb_true_iff, bool_decide_eq_false, lowerSet_spec.
  unfold sameSlot. done.
Qed.

Lemma unmanaged_slot_check_ignores_case_witness :
  outsideIncludedSlots (lowerSet (Some ["FIRSTPRIMARYWEAPON"]))
    (buildRootSlotMap DEFAULT_CONFIG [snapshotEquipment; snapshotWeapon] (Some "equip1")
       (buildItemLookup [snapshotEquipment; snapshotWeapon])).1 snapshotWeapon
  = true
  <-> ~ exists s, s ∈ ["FIRSTPRIMARYWEAPON"] /\ sameSlot s "FirstPrimaryWeapon".
Proof.
  apply (unmanaged_slot_check_ignores_case DEFAULT_CONFIG
           (mkSnapshot [snapshotEquipment; snapshotWeapon] (Some ["FIRSTPRIMARYWEAPON"])
                       None (Some MOD_VERSION))
           snapshotWeapon "FirstPrimaryWeapon").
  - reflexivity.
  - reflexivity.
  - apply (bool_decide_unpack _). vm_compute. exact I.
  - discriminate.
  - right. left.
  - reflexivity.
  - reflexivity.
  - reflexivity.
Defined.

(** ** Clearing a snapshot *)

(** X28. [clearSnapshot] calls [fs.unlinkSync] exactly when the session
    id is valid, the resolved path lies inside the snapshots directory and
    the file exists. For an invalid session id it touches nothing and logs
    one warning, whose text is the sanitized id: at most 64 characters,
    all of them printable. *)
Theorem clearSnapshot_deletes_exactly_when env sessionId :
  existsb isClearUnlink (clearSnapshot env sessionId)
  = isValidSessionId sessionId && pathInsideSnapshots env && existsSync env
  /\ (isValidSessionId sessionId = false ->
      exists text,
        clearSnapshot env sessionId = [InvalidSessionIdInClearSnapshot text]
        /\ String.length text <= 64
        /\ forallb isPrintable (list_ascii_of_string text) = true).
Proof.
  unfold clearSnapshot. split.
  - destruct (isValidSessionId sessionId); [|done]. cbn [negb andb].
    destruct (pathInsideSnapshots env); [|done]. cbn [negb andb].
    unfold deleteSnapshotFile. destruct (existsSync env); [|done].
    by destruct (unlinkSync env).
  - intros ->. cbn [negb]. eexists. split; [done|]. simpl sanitizeForLog.
    split; [apply substring_length|].
    apply substring_printable, replaceUnprintable_printable.
Qed.

Lemma clearSnapshot_deletes_exactly_when_witness :
  exists text,
    clearSnapshot (hostWith packSnapshot) "../../etc/passwd"
    = [InvalidSessionIdInClearSnapshot text]
    /\ String.length text <= 64
    /\ forallb isPrintable (list_ascii_of_string text) = true.
Proof.
  apply (proj2 (clearSnapshot_deletes_exactly_when (hostWith packSnapshot)
                  "../../etc/passwd")).
  reflexivity.
Defined.

(** ** Records whose parent is missing *)

(** X29. A snapshot record whose parent is not in the snapshot has no
    root slot: the trace ends at the missing parent without a warning.
    Such a record is therefore never skipped as content of an unmanaged
    slot, whatever [includedSlots] says (the ids of the snapshot being
    pairwise distinct). *)
Theorem dangling_parent_has_no_root_slot config snapshot x p :
  NoDup (_id <$> items snapshot) ->
  x ∈ items snapshot -> nonEmpty (_id x) = true ->
  parentId x = Some p -> nonEmpty p = true ->
  Some p <> findEquipmentId (items snapshot) ->
  buildItemLookup (items snapshot) !! p = None ->
  1 < maxParentTraversalDepth config ->
  traceRootSlot config x (findEquipmentId (items snapshot))
    (buildItemLookup (items snapshot)) = (None, [])
  /\ outsideIncludedSlots (lowerSet (includedSlots snapshot))
       (buildRootSlotMap config (items snapshot) (findEquipmentId (items snapshot))
          (buildItemLookup (items snapshot))).1 x
     = false.
Proof.
  intros Hdistinct Hx Hid Hp Hpne Hneq Hmissing Hdepth.
  assert (traceRootSlot config x (findEquipmentId (items snapshot))
            (buildItemLookup (items snapshot)) = (None, [])) as Htrace.
  { unfold traceRootSlot.
    destruct (maxParentTraversalDepth config) as [|[|budget]] eqn:Hmax; [lia..|].
    rewrite (traceLoop_step _ _ _ _ _ _ p); auto;
      [|apply not_elem_of_empty|by rewrite Hp].
    rewrite Hmissing. cbn [traceLoop]. unfold traceExit. by rewrite Hmax. }
  split; [exact Htrace|].
  destruct (buildRootSlotMap_entries config (items snapshot)
              (findEquipmentId (items snapshot)) (buildItemLookup (items snapshot)))
    as [_ Hexact].
  unfold outsideIncludedSlots. rewrite (Hexact Hdistinct x Hx Hid).
  unfold recordedRootSlot. by rewrite Htrace.
Qed.

Lemma dangling_parent_has_no_root_slot_witness :
  traceRootSlot DEFAULT_CONFIG
    (mkItem "mag1" "mag_tpl" (Some "lost1") (Some "mod_magazine") None JUndefined)
    (Some "equip1")
    (buildItemLookup
       [snapshotEquipment;
        mkItem "mag1" "mag_tpl" (Some "lost1") (Some "mod_magazine") None JUndefined])
  = (None, [])
  /\ outsideIncludedSlots (lowerSet (Some ["holster"]))
       (buildRootSlotMap DEFAULT_CONFIG
          [snapshotEquipment;
           mkItem "mag1" "mag_tpl" (Some "lost1") (Some "mod_magazine") None JUndefined]
          (Some "equip1")
          (buildItemLookup
             [snapshotEquipment;
              mkItem "mag1" "mag_tpl" (Some "lost1") (Some "mod_magazine") None
                     JUndefined])).1
       (mkItem "mag1" "mag_tpl" (Some "lost1") (Some "mod_magazine") None JUndefined)
     = false.
Proof.
  apply (dangling_parent_has_no_root_slot DEFAULT_CONFIG
           (mkSnapshot
              [snapshotEquipment;
               mkItem "mag1" "mag_tpl" (Some "lost1") (Some "mod_magazine") None
                      JUndefined]
              (Some ["holster"]) None (Some MOD_VERSION))
           (mkItem "mag1" "mag_tpl" (Some "lost1") (Some "mod_magazine") None JUndefined)
           "lost1").
  - apply (bool_decide_unpack _). vm_compute. exact I.
  - right. left.
  - reflexivity.
  - reflexivity.
  - reflexivity.
  - discriminate.
  - reflexivity.
  - simpl. lia.
Defined.
